(** * gosqlpp: preprocessing and statement assembly

    A shallow embedding of the SQL preprocessor
    (internal/preprocessor: preprocessor.go and conditionals.go), of
    schema.IsSchemaCommand / schema.ParseSchemaCommand and of the
    statement assembler of internal/file (parseStatementsFromLines,
    executeStatements), followed by the properties of the specification
    that concern them.

    Go strings are modelled as lists of runes (Unicode code points, [N]);
    the functions of the Go standard library the code calls (strings,
    regexp) are modelled in [GoStrings] and [GoRegexp]. *)

From Stdlib Require Import NArith ZArith Lia Bool List String Ascii.
From stdpp Require Import base option list gmap.

Local Open Scope N_scope.

(* ===================================================================== *)
(** ** Go strings *)
(* ===================================================================== *)

Module GoStrings.

Definition rune := N.
Definition gostring := list rune.

(** A Rocq string literal as a Go string (one rune per character; the
    literals used below are ASCII). *)
Definition str (s : string) : gostring :=
  map N_of_ascii (list_ascii_of_string s).

Definition dquote : rune := 34.
Definition squote : rune := 39.

(** unicode.IsSpace: the code points with the White_Space property. *)
Definition isSpace (r : rune) : bool :=
  ((9 <=? r) && (r <=? 13)) || (r =? 32) || (r =? 133) || (r =? 160)
  || (r =? 5760) || ((8192 <=? r) && (r <=? 8202))
  || (r =? 8232) || (r =? 8233) || (r =? 8239) || (r =? 8287)
  || (r =? 12288).

Fixpoint trimLeft (s : gostring) : gostring :=
  match s with
  | c :: s' => if isSpace c then trimLeft s' else s
  | [] => []
  end.

Definition trimRight (s : gostring) : gostring :=
  rev (trimLeft (rev s)).

(** strings.TrimSpace *)
Definition TrimSpace (s : gostring) : gostring :=
  trimRight (trimLeft s).

Definition gostring_eqb (a b : gostring) : bool :=
  bool_decide (a = b).

(** strings.HasPrefix *)
Fixpoint HasPrefix (s p : gostring) {struct p} : bool :=
  match p, s with
  | [], _ => true
  | c :: p', d :: s' => (c =? d) && HasPrefix s' p'
  | _ :: _, [] => false
  end.

(** strings.HasSuffix *)
Definition HasSuffix (s p : gostring) : bool :=
  HasPrefix (rev s) (rev p).

(** unicode.ToLower on one rune.  Only the ASCII letters are mapped; the
    callers modelled here compare the lowered text with the ASCII token
    [go], and no rune outside A-Z lowers to an ASCII letter g or o or to
    a space. *)
Definition toLowerRune (r : rune) : rune :=
  if (65 <=? r) && (r <=? 90) then r + 32 else r.

(** strings.ToLower *)
Definition ToLower (s : gostring) : gostring := map toLowerRune s.

(** strings.Fields: the maximal runs of non-space runes. *)
Fixpoint fieldsAux (cur : gostring) (s : gostring) : list gostring :=
  match s with
  | [] => match cur with [] => [] | _ => [rev cur] end
  | c :: s' =>
      if isSpace c
      then match cur with
           | [] => fieldsAux [] s'
           | _ => rev cur :: fieldsAux [] s'
           end
      else fieldsAux (c :: cur) s'
  end.

Definition Fields (s : gostring) : list gostring := fieldsAux [] s.

Definition inCutset (cutset : gostring) (r : rune) : bool :=
  existsb (N.eqb r) cutset.

Fixpoint trimLeftCut (cutset s : gostring) : gostring :=
  match s with
  | c :: s' => if inCutset cutset c then trimLeftCut cutset s' else s
  | [] => []
  end.

(** strings.Trim *)
Definition Trim (s cutset : gostring) : gostring :=
  rev (trimLeftCut cutset (rev (trimLeftCut cutset s))).

End GoStrings.

Import GoStrings.

(* ===================================================================== *)
(** ** Go regular expressions *)
(* ===================================================================== *)

(** The fragment of Go's regexp syntax that the patterns of the
    preprocessor use, with Go's leftmost-first (backtracking priority)
    semantics: a matcher returns the list of its successes in priority
    order, and the match found is the first one. *)

Module GoRegexp.

(** Character classes. *)
Inductive cclass :=
| CSpace                (* \s *)
| CWord                 (* \w *)
| CAny                  (* .  (no s flag: not the line feed) *)
| CNot (c : rune)       (* [^c] *)
| CLit (c : rune).      (* a literal rune *)

Definition isWordRune (r : rune) : bool :=
  ((48 <=? r) && (r <=? 57)) || ((65 <=? r) && (r <=? 90))
  || ((97 <=? r) && (r <=? 122)) || (r =? 95).

Definition isPerlSpace (r : rune) : bool :=
  (r =? 9) || (r =? 10) || (r =? 12) || (r =? 13) || (r =? 32).

Definition cmem (c : cclass) (r : rune) : bool :=
  match c with
  | CSpace => isPerlSpace r
  | CWord => isWordRune r
  | CAny => negb (r =? 10)
  | CNot x => negb (r =? x)
  | CLit x => r =? x
  end.

Inductive regex :=
| REmpty
| RChar (c : cclass)
| RRep (c : cclass) (min : nat) (greedy : bool)
      (* c* is [RRep c 0 true], c+ is [RRep c 1 true], c+? is [RRep c 1 false] *)
| RSeq (a b : regex)
| ROpt (a : regex)                  (* (?:a)? *)
| RGroup (i : nat) (a : regex)      (* the i-th capturing group *)
| RBegin                            (* ^ *)
| REnd                              (* $ *)
| RWordB.                           (* \b *)

(** A position in the subject: the rune before it (if any), the text
    after it, and the groups captured so far. *)
Record mstate := MState {
  ms_prev : option rune;
  ms_rest : gostring;
  ms_caps : list (nat * gostring)
}.

Definition advance (st : mstate) : option mstate :=
  match ms_rest st with
  | c :: r => Some (MState (Some c) r (ms_caps st))
  | [] => None
  end.

(** The positions reached by consuming 0, 1, 2, ... runes of class [c]
    (shortest first). *)
Fixpoint repStates (c : cclass) (prev : option rune) (rest : gostring)
    (caps : list (nat * gostring)) : list mstate :=
  MState prev rest caps ::
  match rest with
  | x :: r => if cmem c x then repStates c (Some x) r caps else []
  | [] => []
  end.

Definition optWord (o : option rune) : bool :=
  match o with Some r => isWordRune r | None => false end.

Definition atWordBoundary (st : mstate) : bool :=
  xorb (optWord (ms_prev st)) (optWord (head (ms_rest st))).

(** The text consumed between two positions of the same subject. *)
Definition consumed (st st' : mstate) : gostring :=
  take (length (ms_rest st) - length (ms_rest st')) (ms_rest st).

Fixpoint rmatch (re : regex) (st : mstate) : list mstate :=
  match re with
  | REmpty => [st]
  | RChar c =>
      match ms_rest st with
      | x :: r => if cmem c x then [MState (Some x) r (ms_caps st)] else []
      | [] => []
      end
  | RRep c min greedy =>
      let cands := drop min (repStates c (ms_prev st) (ms_rest st) (ms_caps st)) in
      if greedy then rev cands else cands
  | RSeq a b => flat_map (rmatch b) (rmatch a st)
  | ROpt a => rmatch a st ++ [st]
  | RGroup i a =>
      map (fun st' => MState (ms_prev st') (ms_rest st')
                        ((i, consumed st st') :: ms_caps st'))
          (rmatch a st)
  | RBegin => match ms_prev st with None => [st] | Some _ => [] end
  | REnd => match ms_rest st with [] => [st] | _ :: _ => [] end
  | RWordB => if atWordBoundary st then [st] else []
  end.

(** The literal pattern regexp.QuoteMeta produces for a text. *)
Fixpoint lits (s : gostring) : regex :=
  match s with
  | [] => REmpty
  | c :: s' => RSeq (RChar (CLit c)) (lits s')
  end.

Definition capture (caps : list (nat * gostring)) (i : nat) : gostring :=
  match find (fun p => Nat.eqb (fst p) i) caps with
  | Some p => snd p
  | None => []
  end.

(** The leftmost match starting at or after the current position: the
    text skipped before the match, the start and the end of the
    match. *)
Fixpoint findFrom (re : regex) (prev : option rune) (rest : gostring)
    : option (gostring * mstate * mstate) :=
  let st := MState prev rest [] in
  match rmatch re st with
  | st' :: _ => Some ([], st, st')
  | [] =>
      match rest with
      | c :: r =>
          match findFrom re (Some c) r with
          | Some (skipped, s0, s1) => Some (c :: skipped, s0, s1)
          | None => None
          end
      | [] => None
      end
  end.

(** Regexp.FindStringSubmatch for a pattern with [ngroups] capturing
    groups: the whole match followed by the groups, [None] for Go's nil
    (no match). *)
Definition FindStringSubmatch (re : regex) (ngroups : nat) (s : gostring)
    : option (list gostring) :=
  match findFrom re None s with
  | Some (_, s0, s1) =>
      Some (consumed s0 s1 :: map (fun i => capture (ms_caps s1) i) (seq 1 ngroups))
  | None => None
  end.

(** The name a template reference [$name] or [${name}] designates
    (the [$] already removed) and the template after it; [None] when
    the reference is malformed.  [letterOrDigit] is unicode.IsLetter or
    unicode.IsDigit on the runes outside ASCII. *)
Section Expand.
Variable letterOrDigit : rune -> bool.

Definition isNameRune (r : rune) : bool :=
  if r <? 128 then isWordRune r else letterOrDigit r.

Fixpoint spanName (s : gostring) : gostring * gostring :=
  match s with
  | c :: s' =>
      if isNameRune c
      then let '(n, r) := spanName s' in (c :: n, r)
      else ([], s)
  | [] => ([], [])
  end.

Definition extract (s : gostring) : option (gostring * gostring) :=
  match s with
  | [] => None
  | c :: s' =>
      if c =? 123 (* { *)
      then match spanName s' with
           | ([], _) => None
           | (name, r) =>
               match r with
               | d :: r' => if d =? 125 (* } *) then Some (name, r') else None
               | [] => None
               end
           end
      else match spanName s with
           | ([], _) => None
           | (name, r) => Some (name, r)
           end
  end.

(** Regexp.expand for a pattern without capturing groups: only the
    reference 0 designates a group (the whole match); every other
    well-formed reference expands to the empty text. *)
Fixpoint expand (fuel : nat) (template matched : gostring) : gostring :=
  match fuel with
  | O => template
  | S fuel' =>
      match template with
      | [] => []
      | c :: t =>
          if negb (c =? 36) (* $ *) then c :: expand fuel' t matched
          else match t with
               | d :: t' =>
                   if d =? 36 then 36 :: expand fuel' t' matched
                   else match extract t with
                        | None => 36 :: expand fuel' t matched
                        | Some (name, rest) =>
                            (if gostring_eqb name [48] then matched else [])
                            ++ expand fuel' rest matched
                        end
               | [] => [36]
               end
      end
  end.

(** The loop of Regexp.replaceAll.  [prev], [rest] is the search
    position, [pending] the text between the end of the last match
    and the search position (one rune after an empty match, empty
    otherwise). *)
Fixpoint replaceAllLoop (fuel : nat) (re : regex) (repl : gostring)
    (prev : option rune) (rest pending : gostring) : gostring :=
  match fuel with
  | O => pending ++ rest
  | S fuel' =>
      match findFrom re prev rest with
      | None => pending ++ rest
      | Some (skipped, s0, s1) =>
          let matched := consumed s0 s1 in
          let before := pending ++ skipped in
          let emit :=
            if negb (bool_decide (before ++ matched = []))
               || bool_decide (ms_prev s0 = None)
            then expand (S (length repl)) repl matched else [] in
          match skipped, matched with
          | [], [] =>
              (* empty match at the search position: advance one rune *)
              match rest with
              | c :: r =>
                  before ++ emit ++ replaceAllLoop fuel' re repl (Some c) r [c]
              | [] => before ++ emit
              end
          | _, _ =>
              before ++ emit
              ++ replaceAllLoop fuel' re repl (ms_prev s1) (ms_rest s1) []
          end
      end
  end.

(** Regexp.ReplaceAllString *)
Definition ReplaceAllString (re : regex) (src repl : gostring) : gostring :=
  replaceAllLoop (S (S (length src))) re repl None src [].

End Expand.

End GoRegexp.

Import GoRegexp.

(* ===================================================================== *)
(** ** internal/preprocessor *)
(* ===================================================================== *)

Module Patterns.

Definition seqs (l : list regex) : regex := foldr RSeq REmpty l.

(** The tail the directive patterns share, an optional comment and the end of the text:  (?: \s* // .* )? $   (the tokens of each pattern are written apart). *)
Definition commentTail : list regex :=
  [ ROpt (seqs [RRep CSpace 0 true; RChar (CLit 47); RChar (CLit 47);
                RRep CAny 0 true]);
    REnd ].

(** ^ #define \s+ (\w+) \s+ (.+?) (?: \s* // .* )? $ *)
Definition reDefine : regex :=
  seqs ([RBegin; lits (str "#define"); RRep CSpace 1 true;
         RGroup 1 (RRep CWord 1 true); RRep CSpace 1 true;
         RGroup 2 (RRep CAny 1 false)] ++ commentTail).

(** ^ #include \s+ dquote ([^dquote]+) dquote (?: \s* // .* )? $ *)
Definition reInclude : regex :=
  seqs ([RBegin; lits (str "#include"); RRep CSpace 1 true;
         RChar (CLit dquote); RGroup 1 (RRep (CNot dquote) 1 true);
         RChar (CLit dquote)] ++ commentTail).

(** ^ #ifdef \s+ (\w+) (?: \s* // .* )? $ *)
Definition reIfdef : regex :=
  seqs ([RBegin; lits (str "#ifdef"); RRep CSpace 1 true;
         RGroup 1 (RRep CWord 1 true)] ++ commentTail).

(** ^ #ifndef \s+ (\w+) (?: \s* // .* )? $ *)
Definition reIfndef : regex :=
  seqs ([RBegin; lits (str "#ifndef"); RRep CSpace 1 true;
         RGroup 1 (RRep CWord 1 true)] ++ commentTail).

(** \b regexp.QuoteMeta(name) \b *)
Definition reWord (name : gostring) : regex :=
  RSeq RWordB (RSeq (lits name) RWordB).

End Patterns.

Import Patterns.

Module preprocessor.

(** SourceLocation tracks the original location of a line. *)
Record SourceLocation := mkSourceLocation {
  FileName : gostring;
  LineNumber : nat;
  OriginalFile : gostring;
  OriginalLine : nat
}.

Record Define := mkDefine {
  Name : gostring;
  Value : gostring
}.

Record ConditionalBlock := mkConditionalBlock {
  Type_ : gostring;        (* ifdef or ifndef *)
  Variable_ : gostring;
  StartLine : nat;
  Active : bool
}.

Record ConditionalStack := mkConditionalStack {
  blocks : list ConditionalBlock
}.

(** The Preprocessor struct; [conditionalStack] is a pointer that stays
    nil ([None]) until initConditionals. *)
Record Preprocessor := mkPreprocessor {
  defines : gmap gostring Define;
  locations : list SourceLocation;
  conditionalStack : option ConditionalStack
}.

Definition NewPreprocessor : Preprocessor :=
  mkPreprocessor ∅ [] None.

(** The errors the package builds with fmt.Errorf, by their format. *)
Inductive error :=
| ErrOpen (filename : gostring)
    (* failed to open file %s: %w *)
| ErrDefineSyntax (filename : gostring) (lineNumber : nat)
    (* %s:%d: invalid #define syntax *)
| ErrIncludeSyntax (filename : gostring) (lineNumber : nat)
    (* %s:%d: invalid #include syntax *)
| ErrIncluding (filename : gostring) (lineNumber : nat) (cause : error)
    (* %s:%d: error including file: %w *)
| ErrIfdefSyntax (filename : gostring) (lineNumber : nat)
    (* %s:%d: invalid #ifdef syntax *)
| ErrIfndefSyntax (filename : gostring) (lineNumber : nat)
    (* %s:%d: invalid #ifndef syntax *)
| ErrEndWithoutIf (filename : gostring) (lineNumber : nat)
    (* %s:%d: #end without matching #ifdef or #ifndef *)
| ErrEndPop (filename : gostring) (lineNumber : nat)
    (* %s:%d: error processing #end: no conditional blocks to pop *)
| ErrUnclosed (filename : gostring).
    (* %s: unclosed conditional blocks (missing #end) *)

(** How a call ends: a normal return (with Go's error value or
    without), a run-time panic, or no return at all (the inclusion
    depth allowed to the model is exhausted). *)
Inductive outcome (A : Type) :=
| Ok (a : A)
| Err (e : error)
| Panic
| Diverge.
Arguments Ok {A} a.
Arguments Err {A} e.
Arguments Panic {A}.
Arguments Diverge {A}.

(** Methods of *Preprocessor: the receiver is threaded through, and is
    kept as the call left it also when the call fails. *)
Definition M (A : Type) : Type := Preprocessor -> outcome A * Preprocessor.

Definition ret {A} (a : A) : M A := fun p => (Ok a, p).
Definition fail {A} (e : error) : M A := fun p => (Err e, p).
Definition bind {A B} (m : M A) (k : A -> M B) : M B :=
  fun p =>
    match m p with
    | (Ok a, p') => k a p'
    | (Err e, p') => (Err e, p')
    | (Panic, p') => (Panic, p')
    | (Diverge, p') => (Diverge, p')
    end.

(** What the line-processing methods return: the output lines and their
    locations, two slices of equal length. *)
Definition emitted : Type := list gostring * list SourceLocation.

(** What the code asks from its surroundings. *)
Record Env := mkEnv {
  (** os.Open and bufio.Scanner: the lines of a file, [None] when it
      cannot be opened.  (The scanner is taken not to fail.) *)
  readFile : gostring -> option (list gostring);
  (** filepath.IsAbs, filepath.Dir, filepath.Join *)
  pathIsAbs : gostring -> bool;
  pathDir : gostring -> gostring;
  pathJoin : gostring -> gostring -> gostring;
  (** The order in which a range statement visits a map: unspecified
      in Go, every entry once. *)
  rangeDefines : gmap gostring Define -> list (gostring * Define);
  (** unicode.IsLetter or unicode.IsDigit outside ASCII *)
  letterOrDigit : rune -> bool
}.

(** s[lo:hi], [None] when the bounds are out of range (Go panics). *)
Definition slice (s : gostring) (lo hi : Z) : option gostring :=
  if ((0 <=? lo)%Z && (lo <=? hi)%Z && (hi <=? Z.of_nat (length s))%Z)%bool
  then Some (take (Z.to_nat (hi - lo)) (drop (Z.to_nat lo) s))
  else None.

(** *** conditionals.go *)

Definition Push (cs : ConditionalStack) (block : ConditionalBlock)
    : ConditionalStack :=
  mkConditionalStack (blocks cs ++ [block]).

Definition Pop (cs : ConditionalStack)
    : option (ConditionalBlock * ConditionalStack) :=
  match last (blocks cs) with
  | None => None
  | Some block =>
      Some (block, mkConditionalStack (take (length (blocks cs) - 1) (blocks cs)))
  end.

Definition IsEmpty (cs : ConditionalStack) : bool :=
  Nat.eqb (length (blocks cs)) 0.

Fixpoint shouldIncludeBlocks (bs : list ConditionalBlock) : bool :=
  match bs with
  | [] => true
  | block :: bs' => if negb (Active block) then false else shouldIncludeBlocks bs'
  end.

Definition ShouldInclude (cs : ConditionalStack) : bool :=
  shouldIncludeBlocks (blocks cs).

Definition Depth (cs : ConditionalStack) : nat := length (blocks cs).

Definition initConditionals (p : Preprocessor) : Preprocessor :=
  match conditionalStack p with
  | None => mkPreprocessor (defines p) (locations p) (Some (mkConditionalStack []))
  | Some _ => p
  end.

(** p.conditionalStack, dereferenced after initConditionals. *)
Definition stack (p : Preprocessor) : ConditionalStack :=
  match conditionalStack p with
  | Some cs => cs
  | None => mkConditionalStack []
  end.

Definition setStack (p : Preprocessor) (cs : ConditionalStack) : Preprocessor :=
  mkPreprocessor (defines p) (locations p) (Some cs).

Definition HasDefine (p : Preprocessor) (name : gostring) : bool :=
  match defines p !! name with Some _ => true | None => false end.

Definition SetDefine (p : Preprocessor) (name value : gostring) : Preprocessor :=
  mkPreprocessor (<[name := mkDefine name value]> (defines p))
                 (locations p) (conditionalStack p).

Definition ClearDefines (p : Preprocessor) : Preprocessor :=
  mkPreprocessor ∅ (locations p) (conditionalStack p).

Definition processIfdef (line filename : gostring) (lineNumber : nat) : M emitted :=
  fun p0 =>
    let p := initConditionals p0 in
    match FindStringSubmatch reIfdef 1 line with
    | Some [_; variableName] =>
        let active := HasDefine p variableName in
        let active := if negb (ShouldInclude (stack p)) then false else active in
        let block := mkConditionalBlock (str "ifdef") variableName lineNumber active in
        (Ok ([], []), setStack p (Push (stack p) block))
    | _ => (Err (ErrIfdefSyntax filename lineNumber), p)
    end.

Definition processIfndef (line filename : gostring) (lineNumber : nat) : M emitted :=
  fun p0 =>
    let p := initConditionals p0 in
    match FindStringSubmatch reIfndef 1 line with
    | Some [_; variableName] =>
        let active := negb (HasDefine p variableName) in
        let active := if negb (ShouldInclude (stack p)) then false else active in
        let block := mkConditionalBlock (str "ifndef") variableName lineNumber active in
        (Ok ([], []), setStack p (Push (stack p) block))
    | _ => (Err (ErrIfndefSyntax filename lineNumber), p)
    end.

Definition processEnd (line filename : gostring) (lineNumber : nat) : M emitted :=
  fun p0 =>
    let p := initConditionals p0 in
    if IsEmpty (stack p)
    then (Err (ErrEndWithoutIf filename lineNumber), p)
    else match Pop (stack p) with
         | None => (Err (ErrEndPop filename lineNumber), p)
         | Some (_, cs) => (Ok ([], []), setStack p cs)
         end.

Definition ValidateConditionals (filename : gostring) : M unit :=
  fun p0 =>
    let p := initConditionals p0 in
    if negb (IsEmpty (stack p))
    then (Err (ErrUnclosed filename), p)
    else (Ok tt, p).

(** *** preprocessor.go *)

Definition isQuoted (value : gostring) : bool :=
  (HasPrefix value [dquote] && HasSuffix value [dquote])
  || (HasPrefix value [squote] && HasSuffix value [squote]).

Definition processDefine (line filename : gostring) (lineNumber : nat) : M emitted :=
  fun p =>
    match FindStringSubmatch reDefine 2 line with
    | Some [_; name; m2] =>
        let value := TrimSpace m2 in
        let store value :=
          (Ok ([], []),
           mkPreprocessor (<[name := mkDefine name value]> (defines p))
                          (locations p) (conditionalStack p)) in
        if isQuoted value
        then (* value[1 : len(value)-1]; the first and the last rune are
                one-byte quotes, so rune and byte indices agree *)
             match slice value 1 (Z.of_nat (length value) - 1) with
             | Some value' => store value'
             | None => (Panic, p)
             end
        else store value
    | _ => (Err (ErrDefineSyntax filename lineNumber), p)
    end.

Section Expander.
Variable env : Env.

Definition substituteVariables (p : Preprocessor) (line : gostring) : gostring :=
  fold_left
    (fun result nd =>
       ReplaceAllString (letterOrDigit env) (reWord (fst nd)) result (Value (snd nd)))
    (rangeDefines env (defines p)) line.

(** The call of p.ProcessFile inside processInclude. *)
Variable ProcessFile_rec : gostring -> M emitted.

Definition processInclude (line filename : gostring) (lineNumber : nat) : M emitted :=
  match FindStringSubmatch reInclude 1 line with
  | Some [_; includeFile] =>
      let includeFile :=
        if negb (pathIsAbs env includeFile)
        then pathJoin env (pathDir env filename) includeFile
        else includeFile in
      fun p =>
        match ProcessFile_rec includeFile p with
        | (Err e, p') => (Err (ErrIncluding filename lineNumber e), p')
        | r => r
        end
  | _ => fail (ErrIncludeSyntax filename lineNumber)
  end.

Definition processLine (line filename : gostring) (lineNumber : nat) : M emitted :=
  let trimmed := TrimSpace line in
  if HasPrefix trimmed (str "#define ")
  then processDefine trimmed filename lineNumber
  else if HasPrefix trimmed (str "#include ")
  then processInclude trimmed filename lineNumber
  else fun p =>
    let processedLine := substituteVariables p line in
    let location := mkSourceLocation filename lineNumber filename lineNumber in
    (Ok ([processedLine], [location]), p).

Definition processLineWithConditionals (line filename : gostring) (lineNumber : nat)
    : M emitted :=
  fun p0 =>
    let p := initConditionals p0 in
    let trimmed := TrimSpace line in
    if HasPrefix trimmed (str "#ifdef ")
    then processIfdef trimmed filename lineNumber p
    else if HasPrefix trimmed (str "#ifndef ")
    then processIfndef trimmed filename lineNumber p
    else if gostring_eqb trimmed (str "#end")
    then processEnd trimmed filename lineNumber p
    else if negb (ShouldInclude (stack p))
    then (Ok ([], []), p)
    else processLine line filename lineNumber p.

(** The scanner loop of processReader: [lines] are the lines still to
    be read, [lineNumber] the number of lines read so far. *)
Fixpoint scanLines (lines : list gostring) (filename : gostring) (lineNumber : nat)
    (result : list gostring) (locs : list SourceLocation) : M emitted :=
  match lines with
  | [] => ret (result, locs)
  | line :: lines' =>
      let lineNumber := S lineNumber in
      bind (processLineWithConditionals line filename lineNumber)
           (fun '(processedLines, lineLocations) =>
              scanLines lines' filename lineNumber
                        (result ++ processedLines) (locs ++ lineLocations))
  end.

Definition processReader (reader : list gostring) (filename : gostring) : M emitted :=
  bind (scanLines reader filename 0 [] [])
       (fun '(result, locs) =>
          bind (ValidateConditionals filename) (fun _ => ret (result, locs))).

End Expander.

(** ProcessFile; [fuel] bounds the depth of nested inclusions. *)
Fixpoint ProcessFile (env : Env) (fuel : nat) (filename : gostring) : M emitted :=
  match fuel with
  | O => fun p => (Diverge, p)
  | S fuel' =>
      match readFile env filename with
      | None => fail (ErrOpen filename)
      | Some file => processReader env (ProcessFile env fuel') file filename
      end
  end.

(** ProcessReader (for stdin). *)
Definition ProcessReader (env : Env) (fuel : nat) (reader : list gostring)
    (filename : gostring) : M emitted :=
  processReader env (ProcessFile env fuel) reader filename.

End preprocessor.

(* ===================================================================== *)
(** ** internal/schema: recognising the introspection commands *)
(* ===================================================================== *)

Module schema.

Definition schemaCommands : list gostring :=
  [ str "@schema-all"; str "@schema-tables"; str "@schema-views";
    str "@schema-procedures"; str "@schema-functions"; str "@drivers" ].

Definition IsSchemaCommand (line : gostring) : bool :=
  let trimmed := TrimSpace line in
  existsb (fun cmd => HasPrefix trimmed cmd) schemaCommands.

Definition ParseSchemaCommand (line : gostring) : gostring * gostring :=
  let trimmed := TrimSpace line in
  let parts := Fields trimmed in
  match parts with
  | [] => ([], [])
  | command :: more =>
      let filter :=
        match more with
        | part1 :: _ => Trim part1 [dquote; squote]
        | [] => []
        end in
      (command, filter)
  end.

End schema.

(* ===================================================================== *)
(** ** internal/file: statement assembly and execution *)
(* ===================================================================== *)

Module file.

Import preprocessor.

Record Statement := mkStatement {
  SQL : gostring;
  StartLine : nat;
  EndLine : nat;
  FileName : gostring;
  Location : SourceLocation
}.

(** The zero value of SourceLocation. *)
Definition zeroLocation : SourceLocation := mkSourceLocation [] 0 [] 0.

(** The test for the statement delimiter in parseStatementsFromLines. *)
Definition isDelimiter (line : gostring) : bool :=
  HasPrefix (TrimSpace (ToLower line)) (str "go ")
  || gostring_eqb (TrimSpace (ToLower line)) (str "go").

Definition lineFeed : rune := 10.

(** The loop of parseStatementsFromLines with its variables: [i] is the
    index of the line at the head of [lines], [total] is len(lines) of
    the whole input. *)
Fixpoint parseLoop (lines : list gostring) (i total : nat)
    (locs : list SourceLocation)
    (statements : list Statement) (currentStatement : gostring)
    (startLine : nat) (startLocation : SourceLocation) : list Statement :=
  match lines with
  | [] =>
      if negb (Nat.eqb (length currentStatement) 0)
      then statements ++
           [mkStatement (TrimSpace currentStatement) startLine total
                        (preprocessor.FileName startLocation) startLocation]
      else statements
  | line :: lines' =>
      if schema.IsSchemaCommand line then
        let '(statements, currentStatement) :=
          if negb (Nat.eqb (length currentStatement) 0)
          then (statements ++
                [mkStatement (TrimSpace currentStatement) startLine i
                             (preprocessor.FileName startLocation) startLocation],
                [])
          else (statements, currentStatement) in
        let location :=
          match locs !! i with
          | Some l => l
          | None => startLocation
          end in
        let statements :=
          statements ++
          [mkStatement (TrimSpace line) (i + 1) (i + 1)
                       (preprocessor.FileName location) location] in
        parseLoop lines' (S i) total locs statements currentStatement
                  startLine startLocation
      else if isDelimiter line then
        let '(statements, currentStatement) :=
          if negb (Nat.eqb (length currentStatement) 0)
          then (statements ++
                [mkStatement (TrimSpace currentStatement) startLine i
                             (preprocessor.FileName startLocation) startLocation],
                [])
          else (statements, currentStatement) in
        parseLoop lines' (S i) total locs statements currentStatement
                  startLine startLocation
      else
        let '(startLine, startLocation) :=
          if Nat.eqb (length currentStatement) 0
          then ((i + 1)%nat,
                match locs !! i with
                | Some l => l
                | None => startLocation
                end)
          else (startLine, startLocation) in
        parseLoop lines' (S i) total locs statements
                  (currentStatement ++ line ++ [lineFeed])
                  startLine startLocation
  end.

Definition parseStatementsFromLines (lines : list gostring)
    (locs : list SourceLocation) : list Statement :=
  parseLoop lines 0 (length lines) locs [] [] 0 zeroLocation.

(** The calls executeStatements makes on its collaborators. *)
Inductive call :=
| CallProcessSchemaCommand (command filter : gostring)
| CallExecute (sql : gostring) (line : nat) (filename : gostring).

Inductive execError :=
| ErrSchemaCommand        (* schema command error: %w *)
| ErrFormatting           (* error formatting result: %w *)
| ErrStopped.             (* execution stopped due to error *)

(** The collaborators, as far as executeStatements observes them: after
    the calls made so far (the last one first), whether the schema
    command returned an error, whether the executed statement's result
    carries an error, whether formatting the result failed. *)
Record Collaborators := mkCollaborators {
  schemaCommandFails : list call -> bool;
  resultHasError : list call -> bool;
  formatFails : list call -> bool
}.

Section Execute.
Variable world : Collaborators.
Variable endOnError : bool.

(** executeStatements: the calls made (the last one first) and the
    error returned, if any. *)
Fixpoint executeLoop (statements : list Statement) (trace : list call)
    : list call * option execError :=
  match statements with
  | [] => (trace, None)
  | stmt :: rest =>
      if gostring_eqb (TrimSpace (SQL stmt)) []
      then executeLoop rest trace
      else if schema.IsSchemaCommand (SQL stmt) then
        let '(command, filter) := schema.ParseSchemaCommand (SQL stmt) in
        let trace := CallProcessSchemaCommand command filter :: trace in
        if schemaCommandFails world trace && endOnError
        then (trace, Some ErrSchemaCommand)
        else executeLoop rest trace
      else
        let trace :=
          CallExecute (SQL stmt) (OriginalLine (Location stmt))
                      (OriginalFile (Location stmt)) :: trace in
        if formatFails world trace
        then (trace, Some ErrFormatting)
        else if resultHasError world trace && endOnError
        then (trace, Some ErrStopped)
        else executeLoop rest trace
  end.

Definition executeStatements (statements : list Statement)
    : list call * option execError :=
  executeLoop statements [].

End Execute.

(** Processor.ProcessFile up to the statements handed to
    executeStatements. *)
Definition assembleFile (env : Env) (fuel : nat) (filename : gostring)
    : outcome (list Statement) :=
  match ProcessFile env fuel filename NewPreprocessor with
  | (Ok (lines, locs), _) => Ok (parseStatementsFromLines lines locs)
  | (Err e, _) => Err e
  | (Panic, _) => Panic
  | (Diverge, _) => Diverge
  end.

End file.

(* ===================================================================== *)
(** ** internal/schema: the switch of the introspector *)
(* ===================================================================== *)

Module Introspector.

(** The methods ProcessSchemaCommand passes a command to. *)
Inductive handler :=
| processSchemaAll
| processSchemaTables
| processSchemaViews
| processSchemaProcedures
| processSchemaFunctions
| processDrivers.

(** The switch of ProcessSchemaCommand: the handler called for a
    command, [None] for the default case (the error
    [unknown schema command]). *)
Definition ProcessSchemaCommand (command : gostring) : option handler :=
  if gostring_eqb command (str "@schema-all") then Some processSchemaAll
  else if gostring_eqb command (str "@schema-tables") then Some processSchemaTables
  else if gostring_eqb command (str "@schema-views") then Some processSchemaViews
  else if gostring_eqb command (str "@schema-procedures") then Some processSchemaProcedures
  else if gostring_eqb command (str "@schema-functions") then Some processSchemaFunctions
  else if gostring_eqb command (str "@drivers") then Some processDrivers
  else None.

End Introspector.

(* ===================================================================== *)
(** ** internal/config and cmd: input read from standard input *)
(* ===================================================================== *)

Module GoText.

(** strings.Split for a separator of one rune: the texts between the
    separators, one more than there are separators. *)
Fixpoint splitOn (sep : rune) (cur s : gostring) : list gostring :=
  match s with
  | [] => [rev cur]
  | c :: s' =>
      if c =? sep then rev cur :: splitOn sep [] s' else splitOn sep (c :: cur) s'
  end.

Definition Split (s : gostring) (sep : rune) : list gostring := splitOn sep [] s.

(** strings.Join *)
Fixpoint Join (elems : list gostring) (sep : gostring) : gostring :=
  match elems with
  | [] => []
  | e :: rest =>
      match rest with
      | [] => e
      | _ :: _ => e ++ sep ++ Join rest sep
      end
  end.

End GoText.

Module config.

Definition connectionlessCommands : list gostring := [str "@drivers"].

(** The loop of RequiresDatabaseConnection over the lines of the input. *)
Fixpoint requiresLoop (lines : list gostring) : bool :=
  match lines with
  | [] => false
  | line :: rest =>
      let trimmedLine := TrimSpace line in
      if gostring_eqb trimmedLine [] || HasPrefix trimmedLine (str "--")
      then requiresLoop rest
      else
        let isConnectionless :=
          existsb (fun cmd => HasPrefix trimmedLine cmd) connectionlessCommands in
        if negb isConnectionless then true else requiresLoop rest
  end.

Definition RequiresDatabaseConnection (input : gostring) : bool :=
  requiresLoop (GoText.Split input 10).

End config.

Module cmd.

(** The input text handleStdinWithOptionalConnection builds from the
    lines the scanner yields: every line followed by a line feed. *)
Definition stdinText (lines : list gostring) : gostring :=
  concat (map (fun line => line ++ [10]) lines).

Inductive connectionlessError :=
| ErrProcessingCommand (command : gostring)
    (* error processing command %s: %w *)
| ErrRequiresConnection (trimmedLine : gostring).
    (* command requires database connection: %s *)

(** How processConnectionlessInput ends: it returns nil, it returns an
    error, or the index expression parts[0] is out of range. *)
Inductive ending :=
| Done
| Failed (e : connectionlessError)
| IndexOutOfRange.

Section Connectionless.
Variable world : file.Collaborators.

(** The loop of processConnectionlessInput: the calls made on the
    introspector (the last one first) and how the function ends. *)
Fixpoint connectionlessLoop (lines : list gostring) (trace : list file.call)
    : list file.call * ending :=
  match lines with
  | [] => (trace, Done)
  | line :: rest =>
      let trimmedLine := TrimSpace line in
      if gostring_eqb trimmedLine [] || HasPrefix trimmedLine (str "--")
      then connectionlessLoop rest trace
      else if HasPrefix trimmedLine (str "@") then
        match Fields trimmedLine with
        | [] => (trace, IndexOutOfRange)
        | command :: more =>
            let filter :=
              match more with
              | [] => []
              | _ :: _ => Trim (GoText.Join more (str " ")) [dquote]
              end in
            let trace := file.CallProcessSchemaCommand command filter :: trace in
            if file.schemaCommandFails world trace
            then (trace, Failed (ErrProcessingCommand command))
            else connectionlessLoop rest trace
        end
      else (trace, Failed (ErrRequiresConnection trimmedLine))
  end.

Definition processConnectionlessInput (inputText : gostring)
    : list file.call * ending :=
  connectionlessLoop (GoText.Split inputText 10) [].

End Connectionless.

End cmd.

Import preprocessor.

(* ===================================================================== *)
(** ** Vocabulary of the properties *)
(* ===================================================================== *)

(** A range order is admissible when it visits every entry of the map
    exactly once. *)
Definition RangeOk (env : Env) : Prop :=
  forall m, rangeDefines env m ≡ₚ map_to_list m.

(** How processLineWithConditionals and processLine classify a line. *)
Definition isIfdefLine (line : gostring) : bool :=
  HasPrefix (TrimSpace line) (str "#ifdef ").
Definition isIfndefLine (line : gostring) : bool :=
  negb (isIfdefLine line) && HasPrefix (TrimSpace line) (str "#ifndef ").
Definition isOpenLine (line : gostring) : bool :=
  isIfdefLine line || isIfndefLine line.
Definition isEndLine (line : gostring) : bool :=
  negb (isOpenLine line) && gostring_eqb (TrimSpace line) (str "#end").
Definition isConditionalLine (line : gostring) : bool :=
  isOpenLine line || isEndLine line.
Definition isDefineLine (line : gostring) : bool :=
  negb (isConditionalLine line) && HasPrefix (TrimSpace line) (str "#define ").
Definition isIncludeLine (line : gostring) : bool :=
  negb (isConditionalLine line) && negb (isDefineLine line)
  && HasPrefix (TrimSpace line) (str "#include ").
Definition isContentLine (line : gostring) : bool :=
  negb (isConditionalLine line) && negb (isDefineLine line)
  && negb (isIncludeLine line).

(** The lines never close a frame that was open before them: [depth]
    counts the frames they have opened and not yet closed. *)
Fixpoint staysInside (depth : nat) (lines : list gostring) : bool :=
  match lines with
  | [] => true
  | line :: lines' =>
      if isOpenLine line then staysInside (S depth) lines'
      else if isEndLine line
      then match depth with
           | O => false
           | S depth' => staysInside depth' lines'
           end
      else staysInside depth lines'
  end.

(** The path processInclude opens for an inclusion written in
    [filename]. *)
Definition includePath (env : Env) (filename includeFile : gostring) : gostring :=
  if negb (pathIsAbs env includeFile)
  then pathJoin env (pathDir env filename) includeFile
  else includeFile.



(** The origin processLine gives to line [lineNumber] of [filename]. *)
Definition ownLocation (filename : gostring) (lineNumber : nat) : SourceLocation :=
  mkSourceLocation filename lineNumber filename lineNumber.

(** An emitted line and its location designate a physical line: line
    [LineNumber] of the file [FileName], which is a content line there,
    and of which the text is a substitution. *)
Definition designatesPhysicalLine (env : Env) (text : gostring)
    (loc : SourceLocation) : Prop :=
  OriginalFile loc = FileName loc /\ OriginalLine loc = LineNumber loc /\
  exists file raw q,
    readFile env (FileName loc) = Some file /\
    (0 < LineNumber loc)%nat /\
    file !! (LineNumber loc - 1)%nat = Some raw /\
    isContentLine raw = true /\
    text = substituteVariables env q raw.

(** *** Scenarios: a file system with one flat directory, the map visited
    in the order of map_to_list or in the reverse order. *)

Definition lookupFile (fs : list (gostring * list gostring)) (f : gostring)
    : option (list gostring) :=
  snd <$> find (fun e => gostring_eqb (fst e) f) fs.

Definition flatEnv (fs : list (gostring * list gostring)) : Env :=
  mkEnv (lookupFile fs) (fun _ => false) (fun _ => str ".") (fun _ f => f)
        map_to_list (fun _ => false).

Definition flatEnvRev (fs : list (gostring * list gostring)) : Env :=
  mkEnv (lookupFile fs) (fun _ => false) (fun _ => str ".") (fun _ f => f)
        (fun m => rev (map_to_list m)) (fun _ => false).

(** A collaborator that never fails. *)
Definition quietWorld : file.Collaborators :=
  file.mkCollaborators (fun _ => false) (fun _ => false) (fun _ => false).

(** The call executeStatements makes for a statement it does not skip. *)
Definition callOf (stmt : file.Statement) : file.call :=
  if schema.IsSchemaCommand (file.SQL stmt)
  then file.CallProcessSchemaCommand
         (fst (schema.ParseSchemaCommand (file.SQL stmt)))
         (snd (schema.ParseSchemaCommand (file.SQL stmt)))
  else file.CallExecute (file.SQL stmt)
         (OriginalLine (file.Location stmt)) (OriginalFile (file.Location stmt)).



(** The truth value of a conditional-open directive on its own: whether
    the name it tests is defined (#ifdef) or is not (#ifndef); [None]
    when the directive is malformed. *)
Definition ownTest (p : Preprocessor) (line : gostring) : option bool :=
  if isIfdefLine line then
    match FindStringSubmatch reIfdef 1 (TrimSpace line) with
    | Some [_; variableName] => Some (HasDefine p variableName)
    | _ => None
    end
  else if isIfndefLine line then
    match FindStringSubmatch reIfndef 1 (TrimSpace line) with
    | Some [_; variableName] => Some (negb (HasDefine p variableName))
    | _ => None
    end
  else None.

(** The file an inclusion directive names. *)
Definition includeTarget (line : gostring) : option gostring :=
  match FindStringSubmatch reInclude 1 (TrimSpace line) with
  | Some [_; includeFile] => Some includeFile
  | _ => None
  end.

(** Every line a call returns designates a physical line. *)
Definition recDesignates (env : Env) (rec : gostring -> M emitted) : Prop :=
  forall filename p lines locs p',
    rec filename p = (Ok (lines, locs), p') ->
    Forall2 (designatesPhysicalLine env) lines locs.

(** The rune before the position reached after reading [s] from a
    position whose previous rune is [prev]. *)
Definition lastOr (prev : option rune) (s : gostring) : option rune :=
  match last s with
  | Some c => Some c
  | None => prev
  end.

(** An identifier, or a part of one: one or more word runes. *)
Definition isIdentifier (name : gostring) : Prop :=
  name <> [] /\ forallb isWordRune name = true.

(** Whether the pattern of a name matches at a position: a word boundary,
    the name, a word boundary. *)
Definition matchWordAt (name : gostring) (prev : option rune) (rest : gostring) : bool :=
  xorb (optWord prev) (optWord (head rest))
  && HasPrefix rest name
  && xorb (optWord (lastOr prev name)) (optWord (head (drop (length name) rest))).



(** The tokens of a text: its maximal runs of word runes and of other
    runes, in order. *)
Fixpoint tokenize (s : gostring) : list gostring :=
  match s with
  | [] => []
  | c :: s' =>
      match tokenize s' with
      | (d :: t) :: ts =>
          if Bool.eqb (isWordRune c) (isWordRune d)
          then (c :: d :: t) :: ts
          else [c] :: (d :: t) :: ts
      | _ => [[c]]
      end
  end.

(** One pass over the tokens of a text: every token equal to [name] is
    replaced by [v], the others are kept. *)
Definition substToken (name v t : gostring) : gostring :=
  if gostring_eqb t name then v else t.

Definition substTokens (name v text : gostring) : gostring :=
  concat (map (substToken name v) (tokenize text)).

(** A match found further on, seen from before the text [t] that the
    search skipped to reach it. *)
Definition liftSkip (t : gostring) (r : gostring * mstate * mstate)
    : gostring * mstate * mstate :=
  let '(sk, s0, s1) := r in (t ++ sk, s0, s1).

(** What ReplaceAllString inserts for a match of [name] when the
    replacement template is [value] (Regexp.expand). *)
Definition expandValue (env : Env) (name value : gostring) : gostring :=
  expand (letterOrDigit env) (S (length value)) value name.

(** Substitution as the specification words it: a single pass over the
    line, in which every token that is a known name is replaced by its
    value and the inserted text is not scanned again. *)
Definition singlePassSubstitute (defs : gmap gostring Define) (line : gostring)
    : gostring :=
  concat (map (fun t => match defs !! t with
                        | Some d => Value d
                        | None => t
                        end)
              (tokenize line)).

(** A token: a non-empty run of runes of one class [k], followed in the
    text by nothing or by a rune of the other class. *)
Definition isTokenBefore (k : bool) (t rest : gostring) : Prop :=
  t <> [] /\ Forall (fun r => isWordRune r = k) t /\
  match rest with
  | [] => True
  | d :: _ => isWordRune d = negb k
  end.

(** The pass of one entry of the define table over a text. *)
Definition definePass (env : Env) (text : gostring) (nd : gostring * Define)
    : gostring :=
  substTokens (fst nd) (expandValue env (fst nd) (Value (snd nd))) text.

(** A define table that sends A to B and B to A. *)
Definition swapDefines : Preprocessor :=
  SetDefine (SetDefine NewPreprocessor (str "A") (str "B")) (str "B") (str "A").

(** *** The value of a definition *)







(** A text without line feed, as the lines the scanner yields. *)
Definition noLineFeed (s : gostring) : bool := forallb (fun r => negb (r =? 10)) s.

Fixpoint skipPerlSpaces (s : gostring) : gostring :=
  match s with
  | c :: s' => if isPerlSpace c then skipPerlSpaces s' else s
  | [] => []
  end.

(** What the end of the definition pattern accepts: nothing, or a
    comment after optional white space. *)
Definition commentOrEnd (s : gostring) : bool :=
  match s with
  | [] => true
  | _ :: _ => HasPrefix (skipPerlSpaces s) (str "//")
  end.


(** The positions along a run [a] of the subject, followed by [b]. *)
Fixpoint statesAlong (prev : option rune) (a b : gostring)
    (caps : list (nat * gostring)) : list mstate :=
  MState prev (a ++ b) caps ::
  match a with
  | [] => []
  | x :: a' => statesAlong (Some x) a' b caps
  end.

(** A list of matches whose first element has the captures [caps]. *)
Definition firstCaps (l : list mstate) (caps : list (nat * gostring)) : Prop :=
  exists st t, l = st :: t /\ ms_caps st = caps.


(** A non-empty run of the white space the patterns accept. *)
Definition isPerlSpaces (ws : gostring) : bool :=
  match ws with
  | [] => false
  | _ :: _ => forallb isPerlSpace ws
  end.








(** *** Scenarios and auxiliary patterns *)

(** What processDefine does with a line. *)
Definition defineOutcome (line : gostring) : outcome emitted :=
  fst (processDefine line (str "test.sql") 1 NewPreprocessor).

(** A script whose two defines name each other. *)
Definition swapScript : list gostring :=
  [str "#define A B"; str "#define B A"; str "A B"].

(** The preprocessor inside a frame whose test failed. *)
Definition underUndefined : Preprocessor :=
  snd (processLineWithConditionals (flatEnv []) (ProcessFile (flatEnv []) 0)
         (str "#ifdef UNDEFINED") (str "a.sql") 1 NewPreprocessor).

(** Lines that stay inside the frame they start in. *)
Definition nestedLines : list gostring :=
  [str "SELECT 1;"; str "#ifndef UNDEFINED"; str "SELECT 2;"; str "#end"; str "SELECT 3;"].

(** A world with one file to include, made of a content line and a
    definition. *)
Definition includeScenario : Env :=
  flatEnv [(str "inc.sqi", [str "SELECT 2;"; str "#define N 3"])].


(** A world with a main script and the file it includes. *)
Definition originScenario : Env :=
  flatEnv [(str "main.sql",
            [str "SELECT 1;"; str "#include " ++ [dquote] ++ str "i.sqi" ++ [dquote]]);
           (str "i.sqi", [str "SELECT 2;"; str "go"])].


(** The comment marker and the text after it:  / / followed by any runes. *)
Definition slashes : regex :=
  RSeq (RChar (CLit 47)) (RSeq (RChar (CLit 47)) (RSeq (RRep CAny 0 true) REmpty)).

(** *** Further vocabulary: runs of the preprocessor *)

(** Whether an error is, or wraps, the failure of Pop inside processEnd. *)
Fixpoint mentionsEndPop (e : error) : bool :=
  match e with
  | ErrEndPop _ _ => true
  | ErrIncluding _ _ cause => mentionsEndPop cause
  | _ => false
  end.






(** A call that returns as many locations as lines. *)
Definition pairedOutput (rec : gostring -> M emitted) : Prop :=
  forall f q o q', rec f q = (Ok o, q') -> length (fst o) = length (snd o).

(** A call that never fails with the error of Pop. *)
Definition neverEndPop (rec : gostring -> M emitted) : Prop :=
  forall f q e q', rec f q = (Err e, q') -> mentionsEndPop e = false.

(** *** Further vocabulary: the directive lines *)

(** The pattern of a conditional-open directive whose word is [word]. *)
Definition openPattern (word : gostring) : regex :=
  seqs ([RBegin; lits word; RRep CSpace 1 true; RGroup 1 (RRep CWord 1 true)]
        ++ commentTail).

(** A conditional-open line: the directive word, white space, the name,
    and what follows the name. *)
Definition openLine (word ws name tail : gostring) : gostring :=
  word ++ ws ++ name ++ tail.

(** The frame processIfdef and processIfndef push for a name whose own
    test gave [test]. *)
Definition pushedFrame (p : Preprocessor) (type name : gostring) (lineNumber : nat)
    (test : bool) : Preprocessor :=
  setStack (initConditionals p)
           (Push (stack p)
                 (mkConditionalBlock type name lineNumber
                    (if negb (ShouldInclude (stack p)) then false else test))).

(** An inclusion line: the directive word, white space, the path between
    double quotes, and what follows the closing quote. *)
Definition inclusionLine (ws target tail : gostring) : gostring :=
  str "#include" ++ ws ++ dquote :: target ++ dquote :: tail.

(** How processInclude returns what the call of ProcessFile gave. *)
Definition wrapInclusion (filename : gostring) (lineNumber : nat)
    (r : outcome emitted * Preprocessor) : outcome emitted * Preprocessor :=
  match r with
  | (Err e, p') => (Err (ErrIncluding filename lineNumber e), p')
  | _ => r
  end.

Definition noDoubleQuote (s : gostring) : bool :=
  forallb (fun r => negb (r =? dquote)) s.

(** The space the dispatching tests require after a directive word. *)
Definition space : rune := 32.


(** DEBUG defined as 1. *)
Definition debugDefined : Preprocessor := SetDefine NewPreprocessor (str "DEBUG") (str "1").

(** A replacement text without the dollar sign of the template syntax. *)
Definition noDollar (s : gostring) : bool := forallb (fun r => negb (r =? 36)) s.

(** The define table that holds one name. *)
Definition oneDefine (name value : gostring) : Preprocessor :=
  SetDefine NewPreprocessor name value.

(** The directive words that must be followed by a space. *)
Definition spacedDirectives : list gostring :=
  [str "#ifdef"; str "#ifndef"; str "#define"; str "#include"].

(** What the dispatcher gives for a live content line. *)
Definition emittedAsContent (env : Env) (line filename : gostring) (n : nat)
    (p : Preprocessor) : outcome emitted * Preprocessor :=
  (Ok ([substituteVariables env p line], [ownLocation filename n]), initConditionals p).

(** The text after the name of a definition that cannot start a value:
    nothing, or a rune that is neither a word rune nor white space. *)
Definition noValueAfter (rest : gostring) : bool :=
  match rest with
  | [] => true
  | c :: _ => negb (isWordRune c) && negb (isPerlSpace c)
  end.

(** *** Further vocabulary: statements *)

(** The lines [first] to [last] of a text, numbered from 1. *)
Definition linesOf (lines : list gostring) (first last : nat) : list gostring :=
  take (last - first + 1) (drop (first - 1) lines).

(** The lines, each followed by a line feed, as parseStatementsFromLines
    writes them to its buffer. *)
Definition joinLines (lines : list gostring) : gostring :=
  concat (map (fun l => l ++ [file.lineFeed]) lines).

(** Every statement ends before the ones after it start. *)
Fixpoint inSourceOrder (statements : list file.Statement) : Prop :=
  match statements with
  | [] => True
  | s :: rest =>
      Forall (fun s' => (file.EndLine s < file.StartLine s')%nat) rest /\
      inSourceOrder rest
  end.

(** What holds of a statement assembled from [lines] and [locs]. *)
Definition fromItsLines (lines : list gostring) (s : file.Statement) : Prop :=
  file.SQL s
  = TrimSpace (joinLines (linesOf lines (file.StartLine s) (file.EndLine s))).

Definition withinLines (total : nat) (s : file.Statement) : Prop :=
  (1 <= file.StartLine s)%nat /\ (file.StartLine s <= file.EndLine s)%nat /\
  (file.EndLine s <= total)%nat.

Definition locatedAtStart (locs : list SourceLocation) (s : file.Statement) : Prop :=
  locs !! (file.StartLine s - 1)%nat = Some (file.Location s) /\
  file.FileName s = FileName (file.Location s).

(** The three together, for the statements produced while the first [i]
    lines were read. *)
Definition assembled (lines : list gostring) (locs : list SourceLocation) (i : nat)
    (s : file.Statement) : Prop :=
  withinLines i s /\ fromItsLines lines s /\
  ((length lines <= length locs)%nat -> locatedAtStart locs s).

(** The buffer of parseStatementsFromLines after [i] lines: empty, or
    the lines from [startLine] to [i], which come after every statement
    produced so far. *)
Definition buffered (lines : list gostring) (locs : list SourceLocation) (i : nat)
    (statements : list file.Statement) (cur : gostring) (startLine : nat)
    (startLocation : SourceLocation) : Prop :=
  cur = [] \/
  ((1 <= startLine)%nat /\ (startLine <= i)%nat /\
   Forall (fun s => (file.EndLine s < startLine)%nat) statements /\
   cur = joinLines (linesOf lines startLine i) /\
   ((length lines <= length locs)%nat -> locs !! (startLine - 1)%nat = Some startLocation)).

(** A statement executeStatements does not skip. *)
Definition hasContent (s : file.Statement) : bool :=
  negb (gostring_eqb (TrimSpace (file.SQL s)) []).

(** A formatter that never fails. *)
Definition formatterNeverFails (world : file.Collaborators) : Prop :=
  forall trace, file.formatFails world trace = false.

(** Two statements, a delimiter, a schema command and a last statement
    without delimiter. *)
Definition sampleLines : list gostring :=
  [str "SELECT 1"; str "FROM t;"; str "go"; str "@schema-tables 'u'"; str "SELECT 2;"].

Definition sampleLocations : list SourceLocation :=
  map (ownLocation (str "q.sql")) (seq 1 5).

(** A world in which executing a statement gives a result that carries
    an error, and nothing else fails. *)
Definition failingStatements : file.Collaborators :=
  file.mkCollaborators (fun _ => false) (fun _ => true) (fun _ => false).

(** A line that goes into a statement: a schema command, or a line that
    is not a delimiter. *)
Definition keptLine (line : gostring) : bool :=
  schema.IsSchemaCommand line || negb (file.isDelimiter line).

(** Line [j] (counted from 0) lies in the range of the statement. *)
Definition inRange (j : nat) (s : file.Statement) : Prop :=
  (file.StartLine s <= S j)%nat /\ (S j <= file.EndLine s)%nat.

(** What holds, after [i] lines, of the lines read and of the statements
    and the buffer that hold them. *)
Definition linesAccounted (lines : list gostring) (i : nat)
    (statements : list file.Statement) (cur : gostring) (startLine : nat) : Prop :=
  (forall j l, (j < i)%nat -> lines !! j = Some l -> keptLine l = true ->
     (exists s, In s statements /\ inRange j s) \/
     (cur <> [] /\ (startLine <= S j)%nat)) /\
  (forall s j l, In s statements -> inRange j s -> lines !! j = Some l ->
     keptLine l = true) /\
  (cur <> [] ->
     (startLine <= i)%nat /\
     forall j l, (startLine <= S j)%nat -> (j < i)%nat -> lines !! j = Some l ->
                 keptLine l = true).

(** The statement starts at a physical line: its Location designates a
    content line of a file, and its text starts with the substitution of
    that line. *)
Definition startsAtPhysicalLine (env : Env) (s : file.Statement) : Prop :=
  exists first rest,
    designatesPhysicalLine env first (file.Location s) /\
    file.SQL s = TrimSpace (joinLines (first :: rest)).

(** A main script that includes a file in the middle of a statement. *)
Definition splitStatementScenario : Env :=
  flatEnv [(str "main.sql",
            [str "SELECT 1;"; str "go";
             str "#include " ++ [dquote] ++ str "cols.sqi" ++ [dquote];
             str "FROM t;"]);
           (str "cols.sqi", [str "-- columns"; str "SELECT a, b"])].

(** *** Further vocabulary: schema commands *)

(** The text after a word: nothing, or something that starts with white
    space. *)
Definition spaceOrEnd (rest : gostring) : bool :=
  match rest with
  | [] => true
  | c :: _ => isSpace c
  end.

Definition noSpace (w : gostring) : bool := forallb (fun r => negb (isSpace r)) w.

(** The filter ParseSchemaCommand reads from the text after the command
    word: the next field, without the quotes around it. *)
Definition firstFilter (rest : gostring) : gostring :=
  match Fields rest with
  | [] => []
  | part :: _ => Trim part [dquote; squote]
  end.

(** A call of ProcessSchemaCommand whose command starts with @drivers. *)
Definition isDriversCall (c : file.call) : Prop :=
  match c with
  | file.CallProcessSchemaCommand command _ => HasPrefix command (str "@drivers") = true
  | file.CallExecute _ _ _ => False
  end.

(* ===================================================================== *)
(** ** Properties *)
(* ===================================================================== *)

(** *** Definition directives that end in a panic (C10) *)

(** C10: processing [#define X] followed by one double quote does not
    return: the quote-stripping slice value[1 : len(value)-1] is taken of
    a one-character value, which panics; the same happens with one single
    quote.  processDefine is therefore not total on the lines of the form
    [#define NAME V]. *)
Theorem C10_processDefine_panics_on_lone_quote :
  defineOutcome (str "#define X " ++ [dquote]) = Panic /\
  defineOutcome (str "#define X " ++ [squote]) = Panic /\
  fst (ProcessReader (flatEnv []) 0 [str "#define X " ++ [dquote]]
                     (str "<stdin>") NewPreprocessor) = Panic.
Proof. repeat split; vm_compute; reflexivity. Qed.

(** *** A conditional-open directive without a name (C6) *)

(** C6: a line that is just [#ifdef] (or [#ifndef]) is not recognised as
    a conditional directive by processLineWithConditionals, which tests
    for the keyword followed by a space on the trimmed line: while the
    stack is live the line is emitted as content, inside an inactive
    frame it is skipped, and no error is reported; processIfdef itself
    rejects the same line, and rejects a directive with two names. *)
Theorem C6_bare_ifdef_is_emitted_as_content :
  fst (ProcessReader (flatEnv []) 0 [str "#ifdef"] (str "a.sql") NewPreprocessor)
    = Ok ([str "#ifdef"], [ownLocation (str "a.sql") 1]) /\
  fst (ProcessReader (flatEnv []) 0 [str "  #ifndef  "] (str "a.sql") NewPreprocessor)
    = Ok ([str "  #ifndef  "], [ownLocation (str "a.sql") 1]) /\
  fst (ProcessReader (flatEnv []) 0 [str "#ifdef UNDEFINED"; str "#ifdef"; str "#end"]
                     (str "a.sql") NewPreprocessor)
    = Ok ([], []) /\
  fst (processIfdef (str "#ifdef") (str "a.sql") 1 NewPreprocessor)
    = Err (ErrIfdefSyntax (str "a.sql") 1) /\
  fst (ProcessReader (flatEnv []) 0 [str "#ifdef INVALID SYNTAX"] (str "a.sql") NewPreprocessor)
    = Err (ErrIfdefSyntax (str "a.sql") 1).
Proof. repeat split; vm_compute; reflexivity. Qed.

(** *** The order of the define table (C3) *)

(** C3: the output depends on the order in which the range over the
    define table visits it.  With A defined as B and B as A, the line
    [A B] becomes [A A] when A is visited first and [B B] when B is
    visited first; both orders are admissible for a Go map. *)
Theorem C3_output_depends_on_range_order :
  RangeOk (flatEnv []) /\ RangeOk (flatEnvRev []) /\
  exists out1 out2,
    fst (ProcessReader (flatEnv []) 0 swapScript (str "s.sql") NewPreprocessor)
      = Ok (out1, [ownLocation (str "s.sql") 3]) /\
    fst (ProcessReader (flatEnvRev []) 0 swapScript (str "s.sql") NewPreprocessor)
      = Ok (out2, [ownLocation (str "s.sql") 3]) /\
    out1 <> out2 /\
    (out1 = [str "A A"] \/ out1 = [str "B B"]) /\
    (out2 = [str "A A"] \/ out2 = [str "B B"]).
Proof.
  split; [intros m; reflexivity|].
  split; [intros m; simpl; symmetry; apply Permutation_rev|].
  eexists; eexists.
  split; [vm_compute; reflexivity|].
  split; [vm_compute; reflexivity|].
  split; [discriminate|].
  split; [left + right; reflexivity | left + right; reflexivity].
Qed.

(** *** Facts about the string functions *)

Section StringFacts.

Lemma trimLeft_app (a b : gostring) :
  trimLeft (a ++ b) =
  match trimLeft a with
  | [] => trimLeft b
  | _ :: _ => trimLeft a ++ b
  end.
Proof.
  induction a as [|c a IH]; simpl; [reflexivity|].
  destruct (isSpace c); [exact IH | reflexivity].
Qed.

Lemma trimLeft_idem (s : gostring) : trimLeft (trimLeft s) = trimLeft s.
Proof.
  induction s as [|c s IH]; simpl; [reflexivity|].
  destruct (isSpace c) eqn:E; [exact IH | simpl; rewrite E; reflexivity].
Qed.

Lemma trimLeft_head (s : gostring) c t :
  trimLeft s = c :: t -> isSpace c = false.
Proof.
  induction s as [|d s IH]; simpl; [discriminate|].
  destruct (isSpace d) eqn:E; [exact IH|].
  intros [= -> _]; exact E.
Qed.

Lemma trimRight_cons (c : rune) (s : gostring) :
  trimRight (c :: s) =
  match trimRight s with
  | [] => if isSpace c then [] else [c]
  | _ :: _ => c :: trimRight s
  end.
Proof.
  unfold trimRight; simpl rev at 2. rewrite trimLeft_app.
  destruct (trimLeft (rev s)) as [|d t] eqn:E.
  - simpl. destruct (isSpace c); reflexivity.
  - rewrite rev_app_distr. simpl.
    destruct (rev t); reflexivity.
Qed.


Lemma trimRight_keeps_head (c : rune) (s : gostring) :
  isSpace c = false -> exists t, trimRight (c :: s) = c :: t.
Proof.
  intros Hc. rewrite trimRight_cons, Hc.
  destruct (trimRight s); eauto.
Qed.

Lemma trimLeft_trimRight (s : gostring) :
  trimLeft s = s -> trimLeft (trimRight s) = trimRight s.
Proof.
  destruct s as [|c s]; [reflexivity|].
  intros H. pose proof (trimLeft_head _ _ _ H) as Hc.
  destruct (trimRight_keeps_head c s Hc) as [t ->].
  simpl. rewrite Hc. reflexivity.
Qed.


Lemma HasPrefix_app (s p : gostring) : HasPrefix (p ++ s) p = true.
Proof.
  induction p as [|c p IH]; simpl; [reflexivity|].
  rewrite N.eqb_refl. exact IH.
Qed.

Lemma HasPrefix_spec (s p : gostring) :
  HasPrefix s p = true <-> exists t, s = p ++ t.
Proof.
  revert s; induction p as [|c p IH]; intros s; simpl.
  - split; eauto.
  - destruct s as [|d s].
    + split; [discriminate | intros [t Ht]; discriminate].
    + rewrite andb_true_iff, N.eqb_eq, IH. split.
      * intros [-> [t ->]]. eauto.
      * intros [t [= -> ->]]. eauto.
Qed.


End StringFacts.

(** *** Statement assembly (C7) *)

Section Assembly.

Import file.




End Assembly.



(** *** The line dispatcher *)

Section Dispatch.

Variable env : Env.
Variable rec : gostring -> M emitted.

Lemma stack_init p : stack (initConditionals p) = stack p.
Proof. destruct p as [d l [cs|]]; reflexivity. Qed.

Lemma defines_init p : defines (initConditionals p) = defines p.
Proof. destruct p as [d l [cs|]]; reflexivity. Qed.

Lemma init_init p : initConditionals (initConditionals p) = initConditionals p.
Proof. destruct p as [d l [cs|]]; reflexivity. Qed.

Lemma init_setStack p cs : initConditionals (setStack p cs) = setStack p cs.
Proof. reflexivity. Qed.

Lemma substituteVariables_defines p q line :
  defines p = defines q ->
  substituteVariables env p line = substituteVariables env q line.
Proof. unfold substituteVariables. intros ->. reflexivity. Qed.

Lemma shouldIncludeBlocks_app a b :
  shouldIncludeBlocks (a ++ b) = shouldIncludeBlocks a && shouldIncludeBlocks b.
Proof.
  induction a as [|x a IH]; simpl; [reflexivity|].
  destruct (Active x); simpl; [exact IH | reflexivity].
Qed.

Lemma shouldIncludeBlocks_Forall bs :
  shouldIncludeBlocks bs = true <-> Forall (fun b => Active b = true) bs.
Proof.
  induction bs as [|x bs IH]; simpl.
  - split; [constructor | reflexivity].
  - destruct (Active x) eqn:E; simpl.
    + rewrite IH. split; [intros H; constructor; assumption|].
      intros H; inversion H; assumption.
    + split; [discriminate|]. intros H; inversion H; congruence.
Qed.

(** The classes of lines are exhaustive and exclusive. *)
Lemma line_classes line :
  (isIfdefLine line = true \/ isIfndefLine line = true \/ isEndLine line = true)
  \/ isDefineLine line = true \/ isIncludeLine line = true \/ isContentLine line = true.
Proof.
  unfold isContentLine, isIncludeLine, isDefineLine, isConditionalLine,
    isEndLine, isOpenLine, isIfndefLine, isIfdefLine.
  destruct (HasPrefix (TrimSpace line) (str "#ifdef ")); cbn [negb andb orb]; [auto 10|].
  destruct (HasPrefix (TrimSpace line) (str "#ifndef ")); cbn [negb andb orb]; [auto 10|].
  destruct (gostring_eqb (TrimSpace line) (str "#end")); cbn [negb andb orb]; [auto 10|].
  destruct (HasPrefix (TrimSpace line) (str "#define ")); cbn [negb andb orb]; [auto 10|].
  destruct (HasPrefix (TrimSpace line) (str "#include ")); cbn [negb andb orb]; auto 10.
Qed.

Lemma dispatch_ifdef line filename n p :
  isIfdefLine line = true ->
  processLineWithConditionals env rec line filename n p
  = processIfdef (TrimSpace line) filename n (initConditionals p).
Proof.
  unfold isIfdefLine, processLineWithConditionals. intros ->. reflexivity.
Qed.

Lemma dispatch_ifndef line filename n p :
  isIfndefLine line = true ->
  processLineWithConditionals env rec line filename n p
  = processIfndef (TrimSpace line) filename n (initConditionals p).
Proof.
  unfold isIfndefLine, isIfdefLine, processLineWithConditionals.
  intros [H1 H2]%andb_true_iff. apply negb_true_iff in H1.
  rewrite H1, H2. reflexivity.
Qed.

Lemma dispatch_end line filename n p :
  isEndLine line = true ->
  processLineWithConditionals env rec line filename n p
  = processEnd (TrimSpace line) filename n (initConditionals p).
Proof.
  unfold isEndLine, isOpenLine, isIfndefLine, isIfdefLine, processLineWithConditionals.
  destruct (HasPrefix (TrimSpace line) (str "#ifdef ")); cbn [negb andb orb]; [discriminate|].
  destruct (HasPrefix (TrimSpace line) (str "#ifndef ")); cbn [negb andb orb]; [discriminate|].
  intros ->. reflexivity.
Qed.

Lemma dispatch_other line filename n p :
  isConditionalLine line = false ->
  processLineWithConditionals env rec line filename n p
  = if ShouldInclude (stack p)
    then processLine env rec line filename n (initConditionals p)
    else (Ok ([], []), initConditionals p).
Proof.
  unfold isConditionalLine, isEndLine, isOpenLine, isIfndefLine, isIfdefLine,
    processLineWithConditionals.
  rewrite stack_init.
  destruct (HasPrefix (TrimSpace line) (str "#ifdef ")); cbn [negb andb orb]; [discriminate|].
  destruct (HasPrefix (TrimSpace line) (str "#ifndef ")); cbn [negb andb orb]; [discriminate|].
  destruct (gostring_eqb (TrimSpace line) (str "#end")); cbn [negb andb orb]; [discriminate|].
  intros _. destruct (ShouldInclude (stack p)); reflexivity.
Qed.

Lemma processLine_define line filename n p :
  isDefineLine line = true ->
  processLine env rec line filename n p = processDefine (TrimSpace line) filename n p.
Proof.
  unfold isDefineLine, processLine. intros [_ ->]%andb_true_iff. reflexivity.
Qed.

Lemma processLine_include line filename n p :
  isIncludeLine line = true ->
  processLine env rec line filename n p
  = processInclude env rec (TrimSpace line) filename n p.
Proof.
  unfold isIncludeLine, isDefineLine, processLine.
  intros [[H1 H2]%andb_true_iff H3]%andb_true_iff.
  apply negb_true_iff in H1, H2. rewrite H1 in H2. cbn [negb andb orb] in H2.
  rewrite H2, H3. reflexivity.
Qed.

Lemma processLine_content line filename n p :
  isContentLine line = true ->
  processLine env rec line filename n p
  = (Ok ([substituteVariables env p line], [ownLocation filename n]), p).
Proof.
  unfold isContentLine, isIncludeLine, isDefineLine, processLine.
  intros [[H1 H2]%andb_true_iff H3]%andb_true_iff.
  apply negb_true_iff in H1, H2, H3. rewrite H1 in H2, H3. cbn [negb andb orb] in H2.
  rewrite H2 in H3. cbn [negb andb orb] in H3. rewrite H2, H3. reflexivity.
Qed.

Lemma class_not_conditional line :
  isDefineLine line = true \/ isIncludeLine line = true \/ isContentLine line = true ->
  isConditionalLine line = false.
Proof.
  unfold isContentLine, isIncludeLine, isDefineLine.
  destruct (isConditionalLine line); cbn [negb andb orb]; [|reflexivity].
  intros [H|[H|H]]; discriminate.
Qed.

End Dispatch.

(** *** Nested conditionals (C4) *)

Section Nesting.

Variable env : Env.
Variable rec : gostring -> M emitted.

Lemma shouldIncludeBlocks_forallb bs :
  shouldIncludeBlocks bs = forallb Active bs.
Proof.
  induction bs as [|x bs IH]; cbn; [reflexivity|].
  destruct (Active x); cbn; [exact IH | reflexivity].
Qed.

Lemma open_line_result line filename n p :
  isOpenLine line = true ->
  match ownTest p line with
  | Some test =>
      exists b,
        processLineWithConditionals env rec line filename n p
        = (Ok ([], []), setStack (initConditionals p) (Push (stack p) b)) /\
        Active b = test && ShouldInclude (stack p)
  | None =>
      exists e, processLineWithConditionals env rec line filename n p
                = (Err e, initConditionals p)
  end.
Proof.
  unfold isOpenLine, ownTest. intros H.
  destruct (isIfdefLine line) eqn:E1.
  - rewrite dispatch_ifdef by exact E1.
    unfold processIfdef. rewrite init_init, stack_init.
    destruct (FindStringSubmatch reIfdef 1 (TrimSpace line)) as [[|w [|v [|x l]]]|];
      try (eexists; reflexivity).
    eexists. split; [reflexivity|]. cbn [Active].
    unfold HasDefine. rewrite defines_init.
    destruct (ShouldInclude (stack p)); cbn [negb]; [rewrite andb_true_r|rewrite andb_false_r];
      reflexivity.
  - cbn [orb] in H. rewrite H.
    rewrite dispatch_ifndef by exact H.
    unfold processIfndef. rewrite init_init, stack_init.
    destruct (FindStringSubmatch reIfndef 1 (TrimSpace line)) as [[|w [|v [|x l]]]|];
      try (eexists; reflexivity).
    eexists. split; [reflexivity|]. cbn [Active].
    unfold HasDefine. rewrite defines_init.
    destruct (ShouldInclude (stack p)); cbn [negb]; [rewrite andb_true_r|rewrite andb_false_r];
      reflexivity.
Qed.

Lemma emitted_only_when_live line filename n p out p' :
  processLineWithConditionals env rec line filename n p = (Ok out, p') ->
  out <> ([], []) ->
  ShouldInclude (stack p) = true.
Proof.
  intros Hr Hne.
  destruct (isOpenLine line) eqn:Eo.
  - pose proof (open_line_result line filename n p Eo) as H.
    destruct (ownTest p line) as [t|].
    + destruct H as (blk & H & _). rewrite H in Hr. congruence.
    + destruct H as (e & H). rewrite H in Hr. discriminate.
  - destruct (isEndLine line) eqn:Ee.
    + rewrite dispatch_end in Hr by exact Ee. unfold processEnd in Hr.
      destruct (IsEmpty _); [discriminate|].
      destruct (Pop _) as [[? ?]|]; [|discriminate]. congruence.
    + rewrite dispatch_other in Hr
        by (unfold isConditionalLine; rewrite Eo, Ee; reflexivity).
      destruct (ShouldInclude (stack p)); [reflexivity | congruence].
Qed.

Lemma Pop_snoc bs b :
  Pop (mkConditionalStack (bs ++ [b])) = Some (b, mkConditionalStack bs).
Proof.
  unfold Pop. cbn [blocks]. rewrite last_snoc.
  rewrite length_app. cbn [length].
  replace (length bs + 1 - 1)%nat with (length bs) by lia.
  rewrite take_app_length. reflexivity.
Qed.

Lemma end_line_result line filename n p bs b :
  isEndLine line = true ->
  blocks (stack p) = bs ++ [b] ->
  processLineWithConditionals env rec line filename n p
  = (Ok ([], []), setStack (initConditionals p) (mkConditionalStack bs)).
Proof.
  intros He Hb. rewrite dispatch_end by exact He.
  unfold processEnd. rewrite init_init, stack_init.
  unfold IsEmpty. rewrite Hb, length_app. cbn [length].
  replace (length bs + 1 =? 0)%nat with false by (symmetry; apply Nat.eqb_neq; lia).
  destruct (stack p) as [bl]. cbn [blocks] in Hb. subst bl.
  rewrite Pop_snoc. reflexivity.
Qed.

Lemma inside_inactive lines :
  forall depth filename n res locs p base extra,
    blocks (stack p) = base ++ extra ->
    length extra = depth ->
    shouldIncludeBlocks base = false ->
    staysInside depth lines = true ->
    let r := scanLines env rec lines filename n res locs p in
    (fst r = Ok (res, locs) \/ exists e, fst r = Err e) /\
    defines (snd r) = defines p /\
    exists extra',
      blocks (stack (snd r)) = base ++ extra' /\
      (Forall (fun b => Active b = false) extra ->
       Forall (fun b => Active b = false) extra').
Proof.
  induction lines as [|line lines IH];
    intros depth filename n res locs p base extra Hb Hd Hbase Hin; cbn [scanLines].
  - cbn. split; [left; reflexivity|]. split; [reflexivity|]. exists extra. auto.
  - cbn [staysInside] in Hin. unfold bind.
    assert (Hlive : ShouldInclude (stack p) = false).
    { unfold ShouldInclude. rewrite Hb, shouldIncludeBlocks_app, Hbase. reflexivity. }
    destruct (isOpenLine line) eqn:Eo.
    + pose proof (open_line_result line filename (S n) p Eo) as H.
      destruct (ownTest p line) as [t|].
      * destruct H as (blk & -> & Hact).
        rewrite Hlive, andb_false_r in Hact.
        rewrite !app_nil_r.
        specialize (IH (S depth) filename (S n) res locs
                       (setStack (initConditionals p) (Push (stack p) blk))
                       base (extra ++ [blk])).
        cbn zeta in IH.
        destruct IH as (H1 & H2 & extra' & H3 & H4).
        { cbn. rewrite Hb, <- app_assoc. reflexivity. }
        { rewrite length_app. cbn. lia. }
        { exact Hbase. }
        { exact Hin. }
        split; [exact H1|]. split; [rewrite H2; cbn; apply defines_init|].
        exists extra'. split; [exact H3|].
        intros Hx. apply H4. apply Forall_app; split; [exact Hx|].
        constructor; [exact Hact | constructor].
      * destruct H as (e & ->). cbn. split; [right; eauto|].
        split; [apply defines_init|]. exists extra. rewrite stack_init. auto.
    + destruct (isEndLine line) eqn:Ee.
      * destruct depth as [|depth]; [discriminate|].
        destruct (exists_last (l := extra)) as (extra0 & blk & ->).
        { intros ->. discriminate. }
        rewrite (end_line_result line filename (S n) p (base ++ extra0) blk Ee)
          by (rewrite Hb, app_assoc; reflexivity).
        rewrite !app_nil_r.
        specialize (IH depth filename (S n) res locs
                       (setStack (initConditionals p) (mkConditionalStack (base ++ extra0)))
                       base extra0).
        cbn zeta in IH.
        destruct IH as (H1 & H2 & extra' & H3 & H4).
        { reflexivity. }
        { rewrite length_app in Hd. cbn in Hd. lia. }
        { exact Hbase. }
        { exact Hin. }
        split; [exact H1|]. split; [rewrite H2; cbn; apply defines_init|].
        exists extra'. split; [exact H3|].
        intros Hx. apply H4. apply Forall_app in Hx. tauto.
      * rewrite dispatch_other
          by (unfold isConditionalLine; rewrite Eo, Ee; reflexivity).
        rewrite Hlive. rewrite !app_nil_r.
        specialize (IH depth filename (S n) res locs (initConditionals p) base extra).
        cbn zeta in IH.
        destruct IH as (H1 & H2 & extra' & H3 & H4).
        { rewrite stack_init. exact Hb. }
        { exact Hd. }
        { exact Hbase. }
        { exact Hin. }
        split; [exact H1|]. split; [rewrite H2; apply defines_init|].
        exists extra'. split; [exact H3 | exact H4].
Qed.

End Nesting.

(** C4: a conditional-open directive pushes a frame whose active flag is
    the AND of its own test and of the active flags of all the frames
    already on the stack; a line produces output only when every frame on
    the stack is active; and while a frame that was inactive before them
    stays open, the lines that follow (whatever directives they nest, and
    whatever those test) emit nothing and push inactive frames only: the
    scan either goes through with its output unchanged or stops at a
    malformed directive. *)
Theorem C4_lines_under_an_inactive_frame_are_suppressed :
  forall (env : Env) (rec : gostring -> M emitted),
    (forall line filename n p test,
        isOpenLine line = true ->
        ownTest p line = Some test ->
        exists b,
          processLineWithConditionals env rec line filename n p
          = (Ok ([], []), setStack (initConditionals p) (Push (stack p) b)) /\
          Active b = test && forallb Active (blocks (stack p))) /\
    (forall line filename n p out p',
        processLineWithConditionals env rec line filename n p = (Ok out, p') ->
        out <> ([], []) ->
        Forall (fun b => Active b = true) (blocks (stack p))) /\
    (forall lines filename n res locs p,
        ShouldInclude (stack p) = false ->
        staysInside 0 lines = true ->
        let r := scanLines env rec lines filename n res locs p in
        (fst r = Ok (res, locs) \/ exists e, fst r = Err e) /\
        defines (snd r) = defines p /\
        Forall (fun b => Active b = false)
               (drop (length (blocks (stack p))) (blocks (stack (snd r))))).
Proof.
  intros env rec. split; [|split].
  - intros line filename n p test Ho Ht.
    pose proof (open_line_result env rec line filename n p Ho) as H.
    rewrite Ht in H. unfold ShouldInclude in H.
    rewrite shouldIncludeBlocks_forallb in H. exact H.
  - intros line filename n p out p' Hr Hne.
    apply shouldIncludeBlocks_Forall.
    exact (emitted_only_when_live env rec line filename n p out p' Hr Hne).
  - intros lines filename n res locs p Hlive Hin r.
    destruct (inside_inactive env rec lines 0 filename n res locs p
                (blocks (stack p)) [])
      as (H1 & H2 & extra' & H3 & H4).
    + rewrite app_nil_r. reflexivity.
    + reflexivity.
    + exact Hlive.
    + exact Hin.
    + split; [exact H1|]. split; [exact H2|].
      fold r in H3. rewrite H3, drop_app_length. apply H4. constructor.
Qed.

Lemma C4_witness :
  ShouldInclude (stack underUndefined) = false /\
  staysInside 0 nestedLines = true /\
  (fst (scanLines (flatEnv []) (ProcessFile (flatEnv []) 0) nestedLines
                  (str "a.sql") 1 [] [] underUndefined) = Ok ([], []) \/
   exists e, fst (scanLines (flatEnv []) (ProcessFile (flatEnv []) 0) nestedLines
                            (str "a.sql") 1 [] [] underUndefined) = Err e).
Proof.
  split; [vm_compute; reflexivity|].
  split; [vm_compute; reflexivity|].
  apply (proj2 (proj2 (C4_lines_under_an_inactive_frame_are_suppressed
                         (flatEnv []) (ProcessFile (flatEnv []) 0)))
           nestedLines (str "a.sql") 1%nat [] [] underUndefined);
    vm_compute; reflexivity.
Defined.

(** *** Inclusion inside an open frame (C9) *)

Section Inclusion.

Variable env : Env.








End Inclusion.



(** *** Origins across inclusion (C1) *)

Section Origins.

Variable env : Env.

Lemma other_line_output rec raw filename m q seg q' :
  processLineWithConditionals env rec raw filename m q = (Ok seg, q') ->
  isIncludeLine raw = false ->
  seg = ([], []) \/
  (isContentLine raw = true /\
   seg = ([substituteVariables env q raw], [ownLocation filename m])).
Proof.
  intros Hr Hni.
  destruct (line_classes raw) as [[H|[H|H]]|[H|[H|H]]].
  - pose proof (open_line_result env rec raw filename m q) as Ho.
    unfold isOpenLine in Ho. rewrite H in Ho. specialize (Ho eq_refl).
    destruct (ownTest q raw).
    + destruct Ho as (blk & Ho & _). left. congruence.
    + destruct Ho as (e & Ho). congruence.
  - pose proof (open_line_result env rec raw filename m q) as Ho.
    unfold isOpenLine in Ho. rewrite H, orb_true_r in Ho. specialize (Ho eq_refl).
    destruct (ownTest q raw).
    + destruct Ho as (blk & Ho & _). left. congruence.
    + destruct Ho as (e & Ho). congruence.
  - rewrite dispatch_end in Hr by exact H. unfold processEnd in Hr.
    destruct (IsEmpty _); [discriminate|].
    destruct (Pop _) as [[? ?]|]; [|discriminate]. left. congruence.
  - rewrite dispatch_other in Hr by (apply class_not_conditional; auto).
    destruct (ShouldInclude (stack q)); [|left; congruence].
    rewrite processLine_define in Hr by exact H. unfold processDefine in Hr.
    destruct (FindStringSubmatch reDefine 2 (TrimSpace raw)) as [[|w [|nm [|v [|x l]]]]|];
      try discriminate.
    destruct (isQuoted (TrimSpace v)).
    + destruct (slice _ _ _); [|discriminate]. left. congruence.
    + left. congruence.
  - congruence.
  - rewrite dispatch_other in Hr by (apply class_not_conditional; auto).
    destruct (ShouldInclude (stack q)); [|left; congruence].
    rewrite processLine_content in Hr by exact H. right. split; [exact H|].
    rewrite (substituteVariables_defines env (initConditionals q) q) in Hr
      by apply defines_init.
    congruence.
Qed.

Lemma include_line_output rec raw filename m q seg q' :
  processLineWithConditionals env rec raw filename m q = (Ok seg, q') ->
  isIncludeLine raw = true ->
  (ShouldInclude (stack q) = false /\ seg = ([], [])) \/
  (ShouldInclude (stack q) = true /\
   exists target,
     includeTarget raw = Some target /\
     rec (includePath env filename target) (initConditionals q) = (Ok seg, q')).
Proof.
  intros Hr Hi.
  rewrite dispatch_other in Hr by (apply class_not_conditional; auto).
  destruct (ShouldInclude (stack q)); [|left; split; congruence].
  right. split; [reflexivity|].
  rewrite processLine_include in Hr by exact Hi.
  unfold processInclude in Hr. unfold includeTarget.
  destruct (FindStringSubmatch reInclude 1 (TrimSpace raw)) as [[|w [|t [|x l]]]|];
    try discriminate.
  exists t. split; [reflexivity|]. fold (includePath env filename t) in Hr.
  destruct (rec (includePath env filename t) (initConditionals q)) as [[o| | |] q2];
    try discriminate.
  exact Hr.
Qed.

(** The output of the scanner loop is the concatenation, in order, of
    one segment per line read. *)
Lemma scanLines_segments rec lines :
  forall filename n res locs p out p',
    scanLines env rec lines filename n res locs p = (Ok out, p') ->
    exists segs : list emitted,
      length segs = length lines /\
      out = (res ++ concat (fst <$> segs), locs ++ concat (snd <$> segs)) /\
      forall k raw seg,
        lines !! k = Some raw -> segs !! k = Some seg ->
        exists q q',
          processLineWithConditionals env rec raw filename (S (n + k)) q = (Ok seg, q').
Proof.
  induction lines as [|line lines IH]; intros filename n res locs p out p' Hr.
  - cbn in Hr. injection Hr as <- <-. exists []. cbn. rewrite !app_nil_r.
    split; [reflexivity|]. split; [reflexivity|]. intros k raw seg H. discriminate.
  - cbn [scanLines] in Hr. unfold bind in Hr.
    destruct (processLineWithConditionals env rec line filename (S n) p)
      as [[[pl ll]| | |] p1] eqn:E1; try discriminate.
    destruct (IH _ _ _ _ _ _ _ Hr) as (segs & Hlen & Hout & Hk).
    exists ((pl, ll) :: segs). split; [cbn; congruence|].
    split; [rewrite Hout; cbn; rewrite <- !app_assoc; reflexivity|].
    intros [|k] raw seg Hl Hs; cbn in Hl, Hs.
    + injection Hl as <-. injection Hs as <-. rewrite Nat.add_0_r. eauto.
    + rewrite Nat.add_succ_r. exact (Hk k raw seg Hl Hs).
Qed.

Lemma Forall2_concat_segments (P : gostring -> SourceLocation -> Prop)
    (segs : list emitted) :
  (forall k seg, segs !! k = Some seg -> Forall2 P (fst seg) (snd seg)) ->
  Forall2 P (concat (fst <$> segs)) (concat (snd <$> segs)).
Proof.
  induction segs as [|seg segs IH]; intros H; cbn; [constructor|].
  apply Forall2_app.
  - exact (H 0%nat seg eq_refl).
  - apply IH. intros k s Hs. exact (H (S k) s Hs).
Qed.

Lemma segment_designates rec filename file k raw seg q q' :
  recDesignates env rec ->
  readFile env filename = Some file ->
  file !! k = Some raw ->
  processLineWithConditionals env rec raw filename (S k) q = (Ok seg, q') ->
  Forall2 (designatesPhysicalLine env) (fst seg) (snd seg).
Proof.
  intros Hrec Hf Hk Hr.
  destruct (isIncludeLine raw) eqn:Ei.
  - destruct (include_line_output rec raw filename (S k) q seg q' Hr Ei)
      as [[_ ->]|[_ (target & _ & H)]]; [constructor|].
    destruct seg as [lines locs]. exact (Hrec _ _ _ _ _ H).
  - destruct (other_line_output rec raw filename (S k) q seg q' Hr Ei)
      as [->|[Hc ->]]; [constructor|].
    cbn. constructor; [|constructor].
    unfold designatesPhysicalLine. cbn.
    split; [reflexivity|]. split; [reflexivity|].
    exists file, raw, q. rewrite Nat.sub_0_r. repeat split; auto. lia.
Qed.

Lemma processReader_designates rec filename file p lines locs p' :
  recDesignates env rec ->
  readFile env filename = Some file ->
  processReader env rec file filename p = (Ok (lines, locs), p') ->
  Forall2 (designatesPhysicalLine env) lines locs.
Proof.
  intros Hrec Hf Hr. unfold processReader, bind at 1 in Hr.
  destruct (scanLines env rec file filename 0 [] [] p) as [[[r l]| | |] p1] eqn:E;
    try discriminate.
  unfold bind in Hr.
  destruct (ValidateConditionals filename p1) as [[[]| | |] p2]; try discriminate.
  injection Hr as <- <- <-.
  destruct (scanLines_segments rec file _ _ _ _ _ _ _ E) as (segs & Hlen & Hout & Hk).
  injection Hout as -> ->. cbn.
  apply Forall2_concat_segments. intros k seg Hs.
  destruct (file !! k) as [raw|] eqn:Hraw.
  - destruct (Hk k raw seg Hraw Hs) as (q & q' & Hq).
    exact (segment_designates rec filename file k raw seg q q' Hrec Hf Hraw Hq).
  - apply lookup_ge_None in Hraw. apply lookup_lt_Some in Hs.
    unfold emitted in *. lia.
Qed.

Lemma ProcessFile_designates fuel : recDesignates env (ProcessFile env fuel).
Proof.
  induction fuel as [|fuel IH]; intros filename p lines locs p' Hr; cbn in Hr.
  - discriminate.
  - destruct (readFile env filename) as [file|] eqn:Hf; [|discriminate].
    exact (processReader_designates _ _ _ _ _ _ _ IH Hf Hr).
Qed.

End Origins.

(** C1: when a live inclusion directive on line [n] of [filename] is
    processed, its output is the concatenation, in order, of one segment
    per physical line of the included file; the segment of line [k+1]
    of that file (when the line is not itself an inclusion) is empty or
    is that line, substituted, with the included file's path and [k+1] as
    its origin.  Every line of the output, also one that comes from a
    file included further down, carries as origin the path of a file and
    the number of a content line of that file of which it is the
    substitution; the including line is a directive, so no origin
    designates it. *)
Theorem C1_included_lines_carry_their_own_origin :
  forall env fuel line filename n p lines locs p',
    isIncludeLine line = true ->
    ShouldInclude (stack p) = true ->
    processLineWithConditionals env (ProcessFile env fuel) line filename n p
      = (Ok (lines, locs), p') ->
    exists target file (segs : list emitted),
      includeTarget line = Some target /\
      readFile env (includePath env filename target) = Some file /\
      length segs = length file /\
      lines = concat (fst <$> segs) /\
      locs = concat (snd <$> segs) /\
      (forall k raw seg,
          file !! k = Some raw -> segs !! k = Some seg ->
          isIncludeLine raw = false ->
          seg = ([], []) \/
          exists q, seg = ([substituteVariables env q raw],
                           [ownLocation (includePath env filename target) (S k)])) /\
      Forall2 (designatesPhysicalLine env) lines locs /\
      (forall main,
          readFile env filename = Some main ->
          (0 < n)%nat -> main !! (n - 1)%nat = Some line ->
          Forall (fun loc => ~ (FileName loc = filename /\ LineNumber loc = n)) locs).
Proof.
  intros env fuel line filename n p lines locs p' Hi Hlive Hr.
  destruct (include_line_output env _ line filename n p _ p' Hr Hi)
    as [[H _]|[_ (target & Ht & Hrec)]]; [congruence|].
  destruct fuel as [|fuel]; [discriminate|].
  cbn [ProcessFile] in Hrec.
  destruct (readFile env (includePath env filename target)) as [file|] eqn:Hf;
    [|discriminate].
  assert (Hall : Forall2 (designatesPhysicalLine env) lines locs).
  { exact (processReader_designates env _ _ _ _ _ _ _
             (ProcessFile_designates env fuel) Hf Hrec). }
  unfold processReader, bind at 1 in Hrec.
  destruct (scanLines env (ProcessFile env fuel) file (includePath env filename target)
              0 [] [] (initConditionals p)) as [[[r l]| | |] p1] eqn:E; try discriminate.
  unfold bind in Hrec.
  destruct (ValidateConditionals (includePath env filename target) p1) as [[[]| | |] p2];
    try discriminate.
  injection Hrec as <- <- <-.
  destruct (scanLines_segments env _ file _ _ _ _ _ _ _ E) as (segs & Hlen & Hout & Hk).
  injection Hout as -> ->.
  exists target, file, segs.
  split; [exact Ht|]. split; [exact Hf|]. split; [exact Hlen|].
  split; [reflexivity|]. split; [reflexivity|]. split; [|split; [exact Hall|]].
  - intros k raw seg Hraw Hs Hni.
    destruct (Hk k raw seg Hraw Hs) as (q & q' & Hq).
    destruct (other_line_output env _ raw _ _ q seg q' Hq Hni) as [->|[_ ->]];
      [left; reflexivity | right; exists q; reflexivity].
  - intros main Hm Hn Hline.
    apply Forall2_Forall_r with (P := designatesPhysicalLine env)
                                 (l := concat (fst <$> segs)); [exact Hall|].
    apply Forall_forall. intros text _ loc (_ & _ & f2 & raw & q & H1 & H2 & H3 & H4 & _) [Hfn Hln].
    rewrite Hfn, Hm in H1. injection H1 as <-.
    rewrite Hln, Hline in H3. injection H3 as <-.
    unfold isContentLine in H4. rewrite Hi in H4.
    rewrite andb_false_r in H4. discriminate.
Qed.

Lemma C1_witness :
  isIncludeLine (str "#include " ++ [dquote] ++ str "i.sqi" ++ [dquote]) = true /\
  ShouldInclude (stack NewPreprocessor) = true /\
  Forall2 (designatesPhysicalLine originScenario)
          [str "SELECT 2;"; str "go"]
          [ownLocation (str "i.sqi") 1; ownLocation (str "i.sqi") 2].
Proof.
  split; [vm_compute; reflexivity|].
  split; [vm_compute; reflexivity|].
  edestruct (C1_included_lines_carry_their_own_origin originScenario 1
               (str "#include " ++ [dquote] ++ str "i.sqi" ++ [dquote])
               (str "main.sql") 2 NewPreprocessor
               [str "SELECT 2;"; str "go"]
               [ownLocation (str "i.sqi") 1; ownLocation (str "i.sqi") 2])
    as (target & file & segs & _ & _ & _ & _ & _ & _ & H & _).
  - vm_compute. reflexivity.
  - vm_compute. reflexivity.
  - vm_compute. reflexivity.
  - exact H.
Defined.

(** *** Whole-token substitution (C8) *)

Section RegexpFacts.

Lemma lastOr_nil prev : lastOr prev [] = prev.
Proof. reflexivity. Qed.

Lemma lastOr_cons prev c s : lastOr prev (c :: s) = lastOr (Some c) s.
Proof.
  destruct s as [|r s]; [reflexivity|]. unfold lastOr.
  change (last (c :: r :: s)) with (last (r :: s)).
  destruct (last (r :: s)) eqn:E; [reflexivity|].
  apply last_None in E. discriminate.
Qed.

Lemma lastOr_app prev a b : lastOr prev (a ++ b) = lastOr (lastOr prev a) b.
Proof.
  revert prev. induction a as [|c a IH]; intros prev; [reflexivity|].
  cbn [app]. rewrite !lastOr_cons. apply IH.
Qed.


Lemma rmatch_lits s : forall prev rest caps,
  rmatch (lits s) (MState prev rest caps)
  = if HasPrefix rest s
    then [MState (lastOr prev s) (drop (length s) rest) caps]
    else [].
Proof.
  induction s as [|c s IH]; intros prev rest caps; [reflexivity|].
  cbn [lits rmatch ms_rest ms_caps HasPrefix].
  destruct rest as [|x r]; [reflexivity|].
  cbn [cmem]. rewrite (N.eqb_sym c x).
  destruct (x =? c) eqn:E; cbn [flat_map andb]; [|reflexivity].
  rewrite app_nil_r, IH. apply N.eqb_eq in E. subst x.
  rewrite lastOr_cons. reflexivity.
Qed.

Lemma rmatch_reWord name prev rest caps :
  rmatch (reWord name) (MState prev rest caps)
  = if matchWordAt name prev rest
    then [MState (lastOr prev name) (drop (length name) rest) caps]
    else [].
Proof.
  unfold reWord, matchWordAt. cbn [rmatch]. unfold atWordBoundary.
  cbn [ms_prev ms_rest].
  destruct (xorb (optWord prev) (optWord (head rest))); cbn [flat_map andb];
    [|reflexivity].
  rewrite app_nil_r, rmatch_lits.
  destruct (HasPrefix rest name); cbn [flat_map andb]; [|reflexivity].
  cbn [ms_prev ms_rest].
  destruct (xorb _ _); reflexivity.
Qed.



Lemma isIdentifier_head name :
  isIdentifier name -> forall post, optWord (head (name ++ post)) = true.
Proof.
  intros [Hne Hw] post. destruct name as [|c name]; [congruence|].
  cbn in *. apply andb_true_iff in Hw. tauto.
Qed.

Lemma isIdentifier_last name prev :
  isIdentifier name -> optWord (lastOr prev name) = true.
Proof.
  intros [Hne Hw]. revert prev. induction name as [|c name IH]; intros prev; [congruence|].
  rewrite lastOr_cons. cbn in Hw. apply andb_true_iff in Hw. destruct Hw as [Hc Hw].
  destruct name as [|d name]; [exact Hc|].
  apply IH; [discriminate | exact Hw].
Qed.



End RegexpFacts.

Section WholeTokens.

Variable env : Env.
Hypothesis Hrange : RangeOk env.

Lemma range_lookup (m : gmap gostring Define) name d :
  In (name, d) (rangeDefines env m) -> m !! name = Some d.
Proof.
  intros Hin. apply elem_of_map_to_list.
  rewrite <- (Hrange m). apply list_elem_of_In. exact Hin.
Qed.


End WholeTokens.



(** *** One pass per define (C2) *)

Section Tokens.

Lemma tokenize_cons c s :
  tokenize (c :: s) =
  match tokenize s with
  | (d :: t) :: ts =>
      if Bool.eqb (isWordRune c) (isWordRune d)
      then (c :: d :: t) :: ts
      else [c] :: (d :: t) :: ts
  | _ => [[c]]
  end.
Proof. reflexivity. Qed.

(** A non-empty text starts with a token, and the rest is tokenized on
    its own. *)
Lemma tokenize_first s :
  s <> [] ->
  exists k t s',
    s = t ++ s' /\ tokenize s = t :: tokenize s' /\ isTokenBefore k t s'.
Proof.
  induction s as [|c s IH]; intros Hne; [congruence|].
  destruct s as [|d s0].
  - exists (isWordRune c), [c], []. cbn. repeat split; try discriminate.
    repeat constructor.
  - destruct IH as (k & t & s' & Hs & Ht & (Htne & Hall & Hnext)); [discriminate|].
    rewrite tokenize_cons, Ht.
    destruct t as [|d' t]; [congruence|].
    cbn [app] in Hs. injection Hs as <- Hs.
    inversion Hall as [|? ? Hd Hall']; subst.
    destruct (Bool.eqb (isWordRune c) (isWordRune d)) eqn:E.
    + apply eqb_prop in E.
      exists (isWordRune d), (c :: d :: t), s'. cbn [app].
      split; [reflexivity|]. split; [reflexivity|].
      split; [discriminate|]. split; [|exact Hnext].
      constructor; [exact E|]. constructor; [reflexivity | exact Hall'].
    + apply eqb_false_iff in E.
      exists (isWordRune c), [c], (d :: t ++ s').
      split; [reflexivity|]. rewrite <- Ht. split; [reflexivity|].
      split; [discriminate|]. split; [repeat constructor|].
      destruct (isWordRune c), (isWordRune d); cbn; congruence.
Qed.

Lemma concat_tokenize s : concat (tokenize s) = s.
Proof.
  induction s as [|c s IH]; [reflexivity|].
  rewrite tokenize_cons.
  destruct s as [|d0 s0]; [reflexivity|].
  destruct (tokenize_first (d0 :: s0)) as (k & t & s' & _ & Ht & (Htne & _));
    [discriminate|].
  rewrite Ht in *. destruct t as [|d t]; [congruence|].
  destruct (Bool.eqb _ _); cbn in *; rewrite <- IH; reflexivity.
Qed.

End Tokens.

Section OnePass.

Variable name : gostring.
Hypothesis Hid : isIdentifier name.

Lemma findFrom_cons re prev c r :
  rmatch re (MState prev (c :: r) []) = [] ->
  findFrom re prev (c :: r) = liftSkip [c] <$> findFrom re (Some c) r.
Proof.
  intros H. cbn [findFrom]. rewrite H.
  destruct (findFrom re (Some c) r) as [[[sk s0] s1]|]; reflexivity.
Qed.

Lemma liftSkip_app a b r : liftSkip a (liftSkip b r) = liftSkip (a ++ b) r.
Proof. destruct r as [[sk s0] s1]. cbn. rewrite app_assoc. reflexivity. Qed.

Lemma identifier_first : exists c n', name = c :: n' /\ isWordRune c = true.
Proof.
  destruct Hid as [Hne Hw]. destruct name as [|c n']; [congruence|].
  cbn in Hw. apply andb_true_iff in Hw. exists c, n'. tauto.
Qed.

(** Inside a token (the rune before is of the class of the token) the
    pattern does not match: the search moves to the end of the
    token. *)
Lemma findFrom_inside k t : forall prev s',
  Forall (fun r => isWordRune r = k) t ->
  optWord prev = k ->
  findFrom (reWord name) prev (t ++ s')
  = liftSkip t <$> findFrom (reWord name) (lastOr prev t) s'.
Proof.
  induction t as [|c t IH]; intros prev s' Hall Hp.
  - cbn [app]. rewrite lastOr_nil.
    destruct (findFrom _ _ _) as [[[sk s0] s1]|]; reflexivity.
  - apply Forall_cons_iff in Hall. destruct Hall as [Hc Hall'].
    cbn [app]. rewrite findFrom_cons.
    + rewrite (IH (Some c) s' Hall' Hc). rewrite lastOr_cons.
      destruct (findFrom _ _ s') as [r|]; cbn; [|reflexivity].
      rewrite liftSkip_app. reflexivity.
    + rewrite rmatch_reWord. unfold matchWordAt. cbn [head optWord].
      rewrite Hp, Hc. destruct k; reflexivity.
Qed.

(** At the start of a token that is not the name the pattern does not
    match. *)
Lemma no_match_at_other_token k t s' prev :
  isTokenBefore k t s' ->
  t <> name ->
  matchWordAt name prev (t ++ s') = false.
Proof.
  intros (Htne & Hall & Hnext) Hneq. unfold matchWordAt.
  destruct (HasPrefix (t ++ s') name) eqn:Ep; [|rewrite andb_false_r; reflexivity].
  apply HasPrefix_spec in Ep. destruct Ep as [post Ep].
  rewrite (isIdentifier_last name prev Hid).
  destruct identifier_first as (c & n' & Hn & Hc).
  destruct k.
  - (* a word token *)
    apply app_eq_app in Ep.
    destruct Ep as [l [[Ht Hp]|[Hnm Hs]]].
    + (* the name is a prefix of the token *)
      destruct l as [|x l]; [rewrite app_nil_r in Ht; congruence|].
      subst t. rewrite <- app_assoc, drop_app_length. cbn [app head optWord].
      apply Forall_app in Hall. destruct Hall as [_ Hl].
      apply Forall_cons_iff in Hl. destruct Hl as [Hx _].
      rewrite Hx. cbn. rewrite andb_false_r. reflexivity.
    + (* the name runs past the token *)
      destruct l as [|x l]; [rewrite app_nil_r in Hnm; congruence|].
      subst s'. cbn in Hnext.
      destruct Hid as [_ Hw]. rewrite Hnm, forallb_app in Hw.
      apply andb_true_iff in Hw. destruct Hw as [_ Hw]. cbn in Hw.
      apply andb_true_iff in Hw. destruct Hw as [Hx _]. congruence.
  - (* a token of other runes: its first rune is not the first of the name *)
    destruct t as [|x t]; [congruence|].
    apply Forall_cons_iff in Hall. destruct Hall as [Hx _].
    rewrite Hn in Ep. cbn [app] in Ep. injection Ep as -> _. congruence.
Qed.

Lemma findFrom_skip_token k t s' prev :
  isTokenBefore k t s' ->
  t <> name ->
  findFrom (reWord name) prev (t ++ s')
  = liftSkip t <$> findFrom (reWord name) (lastOr prev t) s'.
Proof.
  intros Htok Hneq. pose proof Htok as (Htne & Hall & Hnext).
  destruct t as [|c t]; [congruence|].
  apply Forall_cons_iff in Hall. destruct Hall as [Hc Hall'].
  cbn [app]. rewrite findFrom_cons.
  - rewrite (findFrom_inside k t (Some c) s' Hall' Hc).
    rewrite lastOr_cons.
    destruct (findFrom _ _ s') as [r|]; cbn; [|reflexivity].
    rewrite liftSkip_app. reflexivity.
  - rewrite rmatch_reWord.
    change (c :: t ++ s') with ((c :: t) ++ s').
    rewrite (no_match_at_other_token _ _ _ prev Htok Hneq). reflexivity.
Qed.

Lemma findFrom_match_here prev rest :
  matchWordAt name prev rest = true ->
  findFrom (reWord name) prev rest
  = Some ([], MState prev rest [],
          MState (lastOr prev name) (drop (length name) rest) []).
Proof.
  intros H. destruct rest; cbn [findFrom]; rewrite rmatch_reWord, H; reflexivity.
Qed.

(** Whatever the search finds is a match of the name. *)
Lemma findFrom_consumed : forall rest prev sk s0 s1,
  findFrom (reWord name) prev rest = Some (sk, s0, s1) ->
  consumed s0 s1 = name /\ ms_rest s0 = name ++ ms_rest s1 /\
  ms_prev s1 = lastOr (ms_prev s0) name.
Proof.
  assert (Hhere : forall prev rest s1 l,
             rmatch (reWord name) (MState prev rest []) = s1 :: l ->
             consumed (MState prev rest []) s1 = name /\
             rest = name ++ ms_rest s1 /\ ms_prev s1 = lastOr prev name).
  { intros prev rest s1 l H. rewrite rmatch_reWord in H.
    destruct (matchWordAt name prev rest) eqn:E; [|discriminate].
    injection H as <- <-. unfold matchWordAt in E.
    apply andb_true_iff in E. destruct E as [E _].
    apply andb_true_iff in E. destruct E as [_ E].
    apply HasPrefix_spec in E. destruct E as [post ->].
    unfold consumed. cbn [ms_rest ms_prev]. rewrite drop_app_length.
    rewrite length_app.
    replace (length name + length post - length post)%nat with (length name) by lia.
    rewrite take_app_length. auto. }
  induction rest as [|c r IH]; intros prev sk s0 s1 H; cbn [findFrom] in H.
  - destruct (rmatch (reWord name) (MState prev [] [])) as [|x l] eqn:E; [discriminate|].
    injection H as <- <- <-. exact (Hhere _ _ _ _ E).
  - destruct (rmatch (reWord name) (MState prev (c :: r) [])) as [|x l] eqn:E.
    + destruct (findFrom (reWord name) (Some c) r) as [[[sk' s0'] s1']|] eqn:E2;
        [|discriminate].
      injection H as <- <- <-. exact (IH _ _ _ _ E2).
    + injection H as <- <- <-. exact (Hhere _ _ _ _ E).
Qed.

Variable ld : rune -> bool.
Variable repl : gostring.

Lemma loop_skip t s' prev prev' :
  findFrom (reWord name) prev (t ++ s')
  = liftSkip t <$> findFrom (reWord name) prev' s' ->
  forall fuel,
    replaceAllLoop ld fuel (reWord name) repl prev (t ++ s') []
    = t ++ replaceAllLoop ld fuel (reWord name) repl prev' s' [].
Proof.
  intros Hf [|fuel]; [reflexivity|].
  cbn [replaceAllLoop]. rewrite Hf.
  destruct (findFrom (reWord name) prev' s') as [[[sk s0] s1]|] eqn:E;
    cbn -[expand replaceAllLoop bool_decide]; [|reflexivity].
  destruct (findFrom_consumed _ _ _ _ _ E) as (Hc & _ & _). rewrite Hc.
  destruct Hid as [Hne _].
  assert (Hb : forall l : gostring, bool_decide (l ++ name = []) = false).
  { intros l. apply bool_decide_eq_false. intros H.
    apply app_eq_nil in H. tauto. }
  rewrite !Hb. cbn [negb orb].
  assert (Hm : forall (l : gostring) (A B : gostring),
             match l, name with
             | [], [] => A
             | _, _ => B
             end = B).
  { intros l A B. destruct l, name; congruence. }
  rewrite !Hm. rewrite <- app_assoc. reflexivity.
Qed.

Lemma loop_tokens : forall n rest prev fuel,
  (length rest <= n)%nat ->
  (optWord prev = false \/ optWord (head rest) = false) ->
  (length rest < fuel)%nat ->
  replaceAllLoop ld fuel (reWord name) repl prev rest []
  = substTokens name (expand ld (S (length repl)) repl name) rest.
Proof.
  unfold substTokens.
  induction n as [|n IH]; intros rest prev fuel Hn Hal Hfuel.
  - destruct rest; [|cbn in Hn; lia].
    destruct fuel; [lia|]. cbn [replaceAllLoop findFrom].
    rewrite rmatch_reWord. unfold matchWordAt.
    destruct identifier_first as (c & n' & -> & _). cbn [HasPrefix].
    rewrite andb_false_r. reflexivity.
  - destruct rest as [|c0 r0].
    { apply (IH [] prev fuel); cbn; auto; lia. }
    destruct (tokenize_first (c0 :: r0)) as (k & t & s' & Hs & Ht & Htok);
      [discriminate|].
    rewrite Ht, Hs in *. cbn [map concat].
    pose proof Htok as (Htne & Hall & Hnext).
    assert (Hlen : (length s' < length (t ++ s'))%nat).
    { rewrite length_app. destruct t; [congruence|]. cbn. lia. }
    destruct (decide (t = name)) as [->|Hneq].
    + (* the token is the name *)
      unfold substToken at 1. unfold gostring_eqb.
      rewrite bool_decide_eq_true_2 by reflexivity.
      assert (Hm : matchWordAt name prev (name ++ s') = true).
      { unfold matchWordAt. rewrite HasPrefix_app, drop_app_length.
        rewrite (isIdentifier_head name Hid), (isIdentifier_last name prev Hid).
        rewrite (isIdentifier_head name Hid) in Hal.
        destruct Hal as [-> | Hal]; [|discriminate].
        assert (Hk : k = true).
        { destruct identifier_first as (c & n' & Hn' & Hc). rewrite Hn' in Hall.
          apply Forall_cons_iff in Hall. destruct Hall as [Hx _]. congruence. }
        subst k. destruct s' as [|d s']; cbn; [reflexivity|].
        cbn in Hnext. rewrite Hnext. reflexivity. }
      destruct fuel as [|fuel]; [lia|].
      cbn [replaceAllLoop]. rewrite (findFrom_match_here _ _ Hm).
      unfold consumed. cbn [ms_rest ms_prev]. rewrite drop_app_length, length_app.
      replace (length name + length s' - length s')%nat with (length name) by lia.
      rewrite take_app_length.
      destruct Hid as [Hne _].
      cbn -[expand replaceAllLoop bool_decide].
      rewrite bool_decide_eq_false_2 by exact Hne.
      assert (Hmm : forall (A B : gostring),
                 match name with [] => A | _ :: _ => B end = B).
      { intros A B. destruct name; congruence. }
      rewrite Hmm. cbn [negb orb]. f_equal.
      apply IH.
      * rewrite length_app in Hn. destruct name; [congruence|]. cbn in Hn. lia.
      * right. assert (Hk : k = true).
        { destruct identifier_first as (c1 & n1 & Hn1 & Hc1).
          rewrite Hn1 in Hall. apply Forall_cons_iff in Hall.
          destruct Hall as [Hx _]. congruence. }
        subst k. destruct s'; [reflexivity|]. cbn in *. exact Hnext.
      * lia.
    + (* another token *)
      rewrite (loop_skip t s' prev (lastOr prev t)
                 (findFrom_skip_token k t s' prev Htok Hneq)).
      unfold substToken at 1. unfold gostring_eqb.
      rewrite bool_decide_eq_false_2 by exact Hneq. f_equal.
      apply IH.
      * lia.
      * destruct t as [|x t]; [congruence|].
        assert (Hl : optWord (lastOr prev (x :: t)) = k).
        { clear -Hall. revert prev x Hall.
          induction t as [|y t IHt]; intros prev x Hall.
          - apply Forall_cons_iff in Hall. destruct Hall as [Hx _]. exact Hx.
          - rewrite lastOr_cons. apply IHt.
            apply Forall_cons_iff in Hall. tauto. }
        rewrite Hl. destruct k; [right|left; reflexivity].
        destruct s'; [reflexivity|]. cbn in *. exact Hnext.
      * lia.
Qed.

Lemma ReplaceAllString_tokens src :
  ReplaceAllString ld (reWord name) src repl
  = substTokens name (expand ld (S (length repl)) repl name) src.
Proof.
  unfold ReplaceAllString.
  apply (loop_tokens (length src)); [lia | left; reflexivity | lia].
Qed.

End OnePass.

Lemma fold_left_ext_in {A B} (f g : A -> B -> A) (l : list B) :
  (forall a b, In b l -> f a b = g a b) ->
  forall a, fold_left f l a = fold_left g l a.
Proof.
  induction l as [|b l IH]; intros H a; cbn; [reflexivity|].
  rewrite (H a b) by (left; reflexivity).
  apply IH. intros a' b' Hb'. apply H. right. exact Hb'.
Qed.

(** C2, as stated, fails: with A defined as B and B as A, a single pass
    over [A B] gives [B A]; the code gives [A A] or [B B], because the
    value a define inserted is substituted again by the define visited
    after it. *)
Lemma C2_counterexample :
  ~ (forall env p line,
       RangeOk env ->
       substituteVariables env p line = singlePassSubstitute (defines p) line).
Proof.
  intros H.
  specialize (H (flatEnv []) swapDefines (str "A B") (fun m => reflexivity _)).
  vm_compute in H. discriminate.
Qed.

(** C2, amended: substitution visits the defines one after another, in
    the order of the range over the table; the pass of a define (whose
    name is an identifier, as #define makes them) replaces, in the text
    the earlier passes produced, every token equal to its name by its
    value and keeps the other tokens: the value it inserts is not scanned
    again in that pass, but it is part of the text the later passes
    scan. *)
Theorem C2_substitution_is_one_pass_per_define :
  forall env p line,
    RangeOk env ->
    (forall name d, defines p !! name = Some d -> isIdentifier name) ->
    substituteVariables env p line
    = fold_left (definePass env) (rangeDefines env (defines p)) line.
Proof.
  intros env p line Hrange Hid. unfold substituteVariables.
  apply fold_left_ext_in. intros text [name d] Hin. unfold definePass, expandValue.
  cbn [fst snd]. apply ReplaceAllString_tokens.
  exact (Hid name d (range_lookup env Hrange _ _ _ Hin)).
Qed.

Lemma C2_witness :
  RangeOk (flatEnv []) /\
  substituteVariables (flatEnv []) swapDefines (str "A B")
  = fold_left (definePass (flatEnv []))
              (rangeDefines (flatEnv []) (defines swapDefines)) (str "A B").
Proof.
  split; [intros m; reflexivity|].
  apply C2_substitution_is_one_pass_per_define; [intros m; reflexivity|].
  intros name d Hl.
  unfold swapDefines, SetDefine, NewPreprocessor in Hl. cbn [defines] in Hl.
  apply lookup_insert_Some in Hl. destruct Hl as [[<- _]|[_ Hl]].
  - split; [discriminate | reflexivity].
  - apply lookup_insert_Some in Hl. destruct Hl as [[<- _]|[_ Hl]].
    + split; [discriminate | reflexivity].
    + rewrite lookup_empty in Hl. discriminate.
Defined.

(** *** The value of a definition (C5) *)

Section DefinePattern.

Lemma firstCaps_app l l' caps : firstCaps l caps -> firstCaps (l ++ l') caps.
Proof. intros (st & t & -> & H). exists st, (t ++ l'). auto. Qed.

Lemma firstCaps_flat_map {f : mstate -> list mstate} a l caps :
  firstCaps (f a) caps -> firstCaps (flat_map f (a :: l)) caps.
Proof. intros H. cbn [flat_map]. apply firstCaps_app. exact H. Qed.

Lemma repStates_run c a : forall prev b caps,
  forallb (cmem c) a = true ->
  match b with [] => True | x :: _ => cmem c x = false end ->
  repStates c prev (a ++ b) caps = statesAlong prev a b caps.
Proof.
  induction a as [|x a IH]; intros prev b caps Ha Hb.
  - cbn [app statesAlong]. destruct b as [|y b]; cbn [repStates]; [reflexivity|].
    rewrite Hb. reflexivity.
  - cbn [forallb] in Ha. apply andb_true_iff in Ha. destruct Ha as [Hx Ha].
    cbn [app repStates statesAlong]. rewrite Hx, IH by assumption. reflexivity.
Qed.

Lemma statesAlong_last a : forall prev b caps,
  exists init,
    statesAlong prev a b caps = init ++ [MState (lastOr prev a) b caps] /\
    length init = length a.
Proof.
  induction a as [|x a IH]; intros prev b caps.
  - exists []. split; reflexivity.
  - destruct (IH (Some x) b caps) as (init & Hi & Hl).
    exists (MState prev ((x :: a) ++ b) caps :: init).
    cbn [statesAlong]. rewrite Hi, lastOr_cons. cbn. auto.
Qed.

(** A greedy repetition first tries the whole run. *)
Lemma greedy_candidates c min prev a b caps :
  forallb (cmem c) a = true ->
  match b with [] => True | x :: _ => cmem c x = false end ->
  (min <= length a)%nat ->
  exists more,
    rmatch (RRep c min true) (MState prev (a ++ b) caps)
    = MState (lastOr prev a) b caps :: more.
Proof.
  intros Ha Hb Hmin. cbn [rmatch ms_prev ms_rest ms_caps].
  rewrite repStates_run by assumption.
  destruct (statesAlong_last a prev b caps) as (init & -> & Hl).
  rewrite drop_app_le by lia. rewrite rev_app_distr. cbn [rev app]. eauto.
Qed.

Lemma greedy_first c K prev a b caps X :
  a <> [] ->
  forallb (cmem c) a = true ->
  match b with [] => True | x :: _ => cmem c x = false end ->
  firstCaps (rmatch K (MState (lastOr prev a) b caps)) X ->
  firstCaps (rmatch (RSeq (RRep c 1 true) K) (MState prev (a ++ b) caps)) X.
Proof.
  intros Hne Ha Hb HK.
  destruct (greedy_candidates c 1 prev a b caps Ha Hb) as (more & Hm).
  { destruct a; [congruence | cbn; lia]. }
  cbn [rmatch] in *. rewrite Hm. apply firstCaps_flat_map. exact HK.
Qed.

Lemma greedy_group_first i c K prev a b caps X :
  a <> [] ->
  forallb (cmem c) a = true ->
  match b with [] => True | x :: _ => cmem c x = false end ->
  firstCaps (rmatch K (MState (lastOr prev a) b ((i, a) :: caps))) X ->
  firstCaps (rmatch (RSeq (RGroup i (RRep c 1 true)) K) (MState prev (a ++ b) caps)) X.
Proof.
  intros Hne Ha Hb HK.
  destruct (greedy_candidates c 1 prev a b caps Ha Hb) as (more & Hm).
  { destruct a; [congruence | cbn; lia]. }
  cbn [rmatch] in *. rewrite Hm. cbn [map]. apply firstCaps_flat_map.
  unfold consumed. cbn [ms_prev ms_rest ms_caps].
  rewrite length_app.
  replace (length a + length b - length b)%nat with (length a) by lia.
  rewrite take_app_length. exact HK.
Qed.

Lemma lits_first s K prev rest caps X :
  firstCaps (rmatch K (MState (lastOr prev s) rest caps)) X ->
  firstCaps (rmatch (RSeq (lits s) K) (MState prev (s ++ rest) caps)) X.
Proof.
  intros HK. cbn [rmatch]. rewrite rmatch_lits, HasPrefix_app, drop_app_length.
  cbn [flat_map]. rewrite app_nil_r. exact HK.
Qed.

(** *** The end of the pattern: an optional comment, the end of the text *)

Lemma commentTail_unfold :
  seqs commentTail
  = RSeq (ROpt (RSeq (RRep CSpace 0 true) slashes)) (RSeq REnd REmpty).
Proof. reflexivity. Qed.

Lemma rmatch_end st :
  rmatch (RSeq REnd REmpty) st = match ms_rest st with [] => [st] | _ :: _ => [] end.
Proof. cbn [rmatch]. destruct (ms_rest st); reflexivity. Qed.

Lemma slashes_fail prev s caps :
  HasPrefix s (str "//") = false -> rmatch slashes (MState prev s caps) = [].
Proof.
  intros H. unfold slashes. cbn [rmatch ms_rest ms_caps cmem].
  destruct s as [|x s]; [reflexivity|].
  change (HasPrefix (x :: s) (str "//")) with ((47 =? x) && HasPrefix s [47]) in H.
  rewrite (N.eqb_sym x 47). destruct (47 =? x); [|reflexivity].
  cbn [andb] in H. cbn [flat_map ms_rest]. rewrite app_nil_r.
  destruct s as [|y s]; [reflexivity|].
  change (HasPrefix (y :: s) [47]) with ((47 =? y) && true) in H.
  rewrite andb_true_r in H. rewrite (N.eqb_sym y 47), H. reflexivity.
Qed.

Lemma slashes_ok prev cmt caps :
  noLineFeed cmt = true ->
  exists more,
    rmatch slashes (MState prev (str "//" ++ cmt) caps)
    = MState (lastOr (Some 47) cmt) [] caps :: more.
Proof.
  intros Hlf. unfold slashes.
  change (str "//" ++ cmt) with (47 :: 47 :: cmt).
  cbn [rmatch ms_prev ms_rest ms_caps cmem]. rewrite N.eqb_refl.
  cbn [flat_map ms_prev ms_rest ms_caps]. rewrite N.eqb_refl.
  cbn [flat_map]. rewrite !app_nil_r.
  destruct (greedy_candidates CAny 0 (@Some rune 47) cmt [] caps) as (more & Hm);
    [exact Hlf | exact I | lia |].
  rewrite app_nil_r in Hm. cbn [rmatch ms_prev ms_rest ms_caps] in Hm.
  cbv [ms_prev ms_rest ms_caps]. rewrite Hm.
  cbn [flat_map app]. eauto.
Qed.

Lemma skipPerlSpaces_split s :
  exists ws,
    s = ws ++ skipPerlSpaces s /\ forallb isPerlSpace ws = true /\
    match skipPerlSpaces s with [] => True | x :: _ => isPerlSpace x = false end.
Proof.
  induction s as [|c s (ws & Hs & Hw & Hn)].
  - exists []. cbn. auto.
  - cbn [skipPerlSpaces]. destruct (isPerlSpace c) eqn:E.
    + exists (c :: ws). cbn. rewrite E, Hw, <- Hs. auto.
    + exists []. cbn. rewrite E. auto.
Qed.

Lemma perlSpace_not_slash x : isPerlSpace x = true -> (47 =? x) = false.
Proof.
  unfold isPerlSpace. intros H. apply N.eqb_neq. intros <-. discriminate.
Qed.

Lemma statesAlong_no_slashes ws : forall prev after caps,
  forallb isPerlSpace ws = true ->
  HasPrefix after (str "//") = false ->
  Forall (fun s => HasPrefix (ms_rest s) (str "//") = false)
         (statesAlong prev ws after caps).
Proof.
  induction ws as [|x ws IH]; intros prev after caps Hw Ha; cbn [statesAlong].
  - constructor; [exact Ha | constructor].
  - cbn [forallb] in Hw. apply andb_true_iff in Hw. destruct Hw as [Hx Hw].
    constructor; [|apply IH; assumption].
    cbn [ms_rest app].
    change (HasPrefix (x :: ws ++ after) (str "//"))
      with ((47 =? x) && HasPrefix (ws ++ after) [47]).
    rewrite (perlSpace_not_slash x Hx). reflexivity.
Qed.

Lemma flat_map_all_nil {A B} (f : A -> list B) l :
  Forall (fun a => f a = []) l -> flat_map f l = [].
Proof.
  induction 1 as [|a l Ha _ IH]; cbn; [reflexivity|]. rewrite Ha, IH. reflexivity.
Qed.

Lemma tail_fail st :
  commentOrEnd (ms_rest st) = false -> rmatch (seqs commentTail) st = [].
Proof.
  destruct st as [prev rest caps]. cbn [ms_rest]. intros H.
  rewrite commentTail_unfold. cbn [rmatch]. rewrite flat_map_app.
  destruct rest as [|c r]; [discriminate|]. cbn [commentOrEnd] in H.
  replace (flat_map (rmatch (RSeq REnd REmpty)) [MState prev (c :: r) caps])
    with (@nil mstate) by reflexivity.
  rewrite app_nil_r.
  destruct (skipPerlSpaces_split (c :: r)) as (ws & Hs & Hw & Hn).
  cbn [ms_prev ms_rest ms_caps]. rewrite Hs at 1.
  rewrite repStates_run; [|exact Hw|exact Hn].
  rewrite drop_0.
  rewrite (flat_map_all_nil (rmatch slashes)); [reflexivity|].
  apply Forall_rev.
  eapply Forall_impl; [apply statesAlong_no_slashes; eassumption|].
  intros [p s cp] Hps. apply slashes_fail. exact Hps.
Qed.

Lemma tail_ok st :
  noLineFeed (ms_rest st) = true ->
  commentOrEnd (ms_rest st) = true ->
  firstCaps (rmatch (seqs commentTail) st) (ms_caps st).
Proof.
  destruct st as [prev rest caps]. cbn [ms_rest ms_caps]. intros Hlf H.
  rewrite commentTail_unfold. cbn [rmatch]. rewrite flat_map_app.
  destruct rest as [|c r].
  - cbn. exists (MState prev [] caps), []. auto.
  - cbn [commentOrEnd] in H. apply firstCaps_app.
    destruct (skipPerlSpaces_split (c :: r)) as (ws & Hs & Hw & Hn).
    apply HasPrefix_spec in H. destruct H as [cmt Hc]. rewrite Hc in Hs, Hn.
    assert (Hcmt : noLineFeed cmt = true).
    { rewrite Hs in Hlf. unfold noLineFeed in *. rewrite !forallb_app in Hlf.
      apply andb_true_iff in Hlf. destruct Hlf as [_ Hlf].
      apply andb_true_iff in Hlf. tauto. }
    destruct (greedy_candidates CSpace 0 prev ws (str "//" ++ cmt) caps Hw Hn)
      as (more & Hm); [lia|].
    rewrite <- Hs in Hm. cbn [rmatch] in Hm |- *. rewrite Hm.
    cbn [flat_map]. rewrite flat_map_app. apply firstCaps_app.
    destruct (slashes_ok (lastOr prev ws) cmt caps Hcmt) as (more2 & Hm2).
    rewrite Hm2. cbn [flat_map]. apply firstCaps_app.
    cbn. exists (MState (lastOr (Some 47) cmt) [] caps), []. auto.
Qed.


(** *** The lazy value group *)




(** *** The whole pattern *)

Lemma reDefine_unfold :
  reDefine
  = RSeq RBegin
      (RSeq (lits (str "#define"))
         (RSeq (RRep CSpace 1 true)
            (RSeq (RGroup 1 (RRep CWord 1 true))
               (RSeq (RRep CSpace 1 true)
                  (RSeq (RGroup 2 (RRep CAny 1 false)) (seqs commentTail)))))).
Proof. reflexivity. Qed.

Lemma wordRune_not_space x : isWordRune x = true -> isPerlSpace x = false.
Proof.
  unfold isWordRune, isPerlSpace. intros H.
  repeat (apply orb_false_iff; split); apply N.eqb_neq; intros ->; discriminate.
Qed.

Lemma perlSpace_not_word x : isPerlSpace x = true -> isWordRune x = false.
Proof.
  intros H. destruct (isWordRune x) eqn:E; [|reflexivity].
  apply wordRune_not_space in E. congruence.
Qed.



(** *** What the lazy group takes, and the text before the comment *)



Lemma perlSpace_isSpace x : isPerlSpace x = true -> isSpace x = true.
Proof.
  unfold isPerlSpace. rewrite !orb_true_iff, !N.eqb_eq.
  intros [[[[->| ->]| ->]| ->]| ->]; reflexivity.
Qed.

Lemma trimLeft_spaces w : forallb isSpace w = true -> trimLeft w = [].
Proof.
  induction w as [|x w IH]; [reflexivity|]. cbn [forallb trimLeft].
  intros H. apply andb_true_iff in H. destruct H as [-> H]. auto.
Qed.

Lemma TrimSpace_app_spaces x w :
  forallb isPerlSpace w = true -> TrimSpace (x ++ w) = TrimSpace x.
Proof.
  intros Hw.
  assert (Hs : forall l, (forall y, In y l -> In y w) -> forallb isSpace l = true).
  { intros l Hl. apply forallb_forall. intros y Hy. apply perlSpace_isSpace.
    rewrite forallb_forall in Hw. auto. }
  unfold TrimSpace. rewrite trimLeft_app.
  destruct (trimLeft x) as [|y t] eqn:E.
  - rewrite trimLeft_spaces by auto. reflexivity.
  - unfold trimRight. rewrite rev_app_distr, trimLeft_app.
    rewrite (trimLeft_spaces (rev w)); [reflexivity|].
    apply Hs. intros z Hz. apply in_rev. exact Hz.
Qed.


(** *** The quotes *)



End DefinePattern.




(* ===================================================================== *)
(** ** Further properties of the preprocessor *)
(* ===================================================================== *)

Section Lengths.

Variable env : Env.

Lemma line_output_paired rec line filename n p out p' :
  pairedOutput rec ->
  processLineWithConditionals env rec line filename n p = (Ok out, p') ->
  length (fst out) = length (snd out).
Proof.
  intros Hrec H. destruct (isIncludeLine line) eqn:Ei.
  - destruct (include_line_output env rec line filename n p out p' H Ei)
      as [[_ ->]|[_ (target & _ & Hr)]]; [reflexivity|].
    exact (Hrec _ _ _ _ Hr).
  - destruct (other_line_output env rec line filename n p out p' H Ei)
      as [->|[_ ->]]; reflexivity.
Qed.

Lemma concat_paired (segs : list emitted) :
  (forall k seg, segs !! k = Some seg -> length (fst seg) = length (snd seg)) ->
  length (concat (fst <$> segs)) = length (concat (snd <$> segs)).
Proof.
  induction segs as [|seg segs IH]; intros H; [reflexivity|].
  cbn [fmap list_fmap concat]. rewrite !length_app.
  rewrite (H 0%nat seg eq_refl). f_equal.
  apply IH. intros k s Hk. exact (H (S k) s Hk).
Qed.

Lemma scanLines_paired rec lines filename n res locs p out p' :
  pairedOutput rec ->
  length res = length locs ->
  scanLines env rec lines filename n res locs p = (Ok out, p') ->
  length (fst out) = length (snd out).
Proof.
  intros Hrec Hl H.
  destruct (scanLines_segments env rec lines filename n res locs p out p' H)
    as (segs & Hlen & -> & Hseg).
  cbn [fst snd]. rewrite !length_app, Hl. f_equal.
  apply concat_paired. intros k seg Hk.
  destruct (lookup_lt_is_Some_2 lines k) as [raw Hraw].
  { rewrite <- Hlen. eapply lookup_lt_Some. exact Hk. }
  destruct (Hseg k raw seg Hraw Hk) as (q & q' & Hq).
  exact (line_output_paired rec raw filename _ q seg q' Hrec Hq).
Qed.

Lemma processReader_paired rec lines filename p out p' :
  pairedOutput rec ->
  processReader env rec lines filename p = (Ok out, p') ->
  length (fst out) = length (snd out).
Proof.
  intros Hrec H. unfold processReader, bind in H.
  destruct (scanLines env rec lines filename 0 [] [] p) as [[[res locs]|e| |] p1] eqn:Es;
    try discriminate.
  destruct (ValidateConditionals filename p1) as [[[]|e| |] p2]; try discriminate.
  cbn in H. injection H as <- <-.
  exact (scanLines_paired rec lines filename 0 [] [] p _ p1 Hrec eq_refl Es).
Qed.

Lemma ProcessFile_paired fuel : pairedOutput (ProcessFile env fuel).
Proof.
  induction fuel as [|fuel IH]; intros f q o q' H; cbn [ProcessFile] in H.
  - discriminate.
  - destruct (readFile env f) as [file|]; [|discriminate].
    exact (processReader_paired _ file f q o q' IH H).
Qed.

End Lengths.

(** X1: whenever preprocessing succeeds, on a file or on a reader, it
    returns exactly one source location for every output line. *)
Theorem one_location_per_output_line :
  forall env fuel source filename p lines locs p',
    (ProcessFile env fuel filename p = (Ok (lines, locs), p') \/
     ProcessReader env fuel source filename p = (Ok (lines, locs), p')) ->
    length lines = length locs.
Proof.
  intros env fuel source filename p lines locs p' [H|H].
  - exact (ProcessFile_paired env fuel filename p (lines, locs) p' H).
  - exact (processReader_paired env _ source filename p (lines, locs) p'
             (ProcessFile_paired env fuel) H).
Qed.

Lemma one_location_per_output_line_witness :
  ProcessFile originScenario 2 (str "main.sql") NewPreprocessor
  = (Ok ([str "SELECT 1;"; str "SELECT 2;"; str "go"],
         [ownLocation (str "main.sql") 1; ownLocation (str "i.sqi") 1;
          ownLocation (str "i.sqi") 2]),
     initConditionals NewPreprocessor) /\
  length [str "SELECT 1;"; str "SELECT 2;"; str "go"]
  = length [ownLocation (str "main.sql") 1; ownLocation (str "i.sqi") 1;
            ownLocation (str "i.sqi") 2].
Proof.
  assert (H : ProcessFile originScenario 2 (str "main.sql") NewPreprocessor
              = (Ok ([str "SELECT 1;"; str "SELECT 2;"; str "go"],
                     [ownLocation (str "main.sql") 1; ownLocation (str "i.sqi") 1;
                      ownLocation (str "i.sqi") 2]),
                 initConditionals NewPreprocessor))
    by (vm_compute; reflexivity).
  split; [exact H|].
  exact (one_location_per_output_line originScenario 2 [] (str "main.sql")
           NewPreprocessor _ _ _ (or_introl H)).
Defined.

Section Passthrough.

Variable env : Env.
Variable rec : gostring -> M emitted.





Lemma ValidateConditionals_init filename p :
  ValidateConditionals filename p
  = (if IsEmpty (stack p) then Ok tt else Err (ErrUnclosed filename), initConditionals p).
Proof.
  unfold ValidateConditionals. rewrite stack_init.
  destruct (IsEmpty (stack p)); reflexivity.
Qed.

End Passthrough.



Section PopNeverFails.

Variable env : Env.

Lemma processEnd_never_pop line filename n p e p' :
  processEnd line filename n p = (Err e, p') -> mentionsEndPop e = false.
Proof.
  unfold processEnd, IsEmpty, Pop. 
  destruct (blocks (stack (initConditionals p))) as [|b bs] eqn:Eb.
  - cbn. intros [= <- _]. reflexivity.
  - cbn [length Nat.eqb]. 
    destruct (last (b :: bs)) eqn:El.
    + discriminate.
    + apply last_None in El. discriminate.
Qed.

Lemma line_never_pop rec line filename n p e p' :
  neverEndPop rec ->
  processLineWithConditionals env rec line filename n p = (Err e, p') ->
  mentionsEndPop e = false.
Proof.
  intros Hrec H.
  destruct (line_classes line) as [[Hc|[Hc|Hc]]|Hc].
  - rewrite dispatch_ifdef in H by exact Hc. unfold processIfdef in H.
    destruct (FindStringSubmatch reIfdef 1 (TrimSpace line)) as [[|w [|v [|x l]]]|];
      try discriminate; injection H as <- _; reflexivity.
  - rewrite dispatch_ifndef in H by exact Hc. unfold processIfndef in H.
    destruct (FindStringSubmatch reIfndef 1 (TrimSpace line)) as [[|w [|v [|x l]]]|];
      try discriminate; injection H as <- _; reflexivity.
  - rewrite dispatch_end in H by exact Hc.
    exact (processEnd_never_pop _ _ _ _ _ _ H).
  - rewrite dispatch_other in H by (apply class_not_conditional; exact Hc).
    destruct (ShouldInclude (stack p)); [|discriminate].
    destruct Hc as [Hc|[Hc|Hc]].
    + rewrite processLine_define in H by exact Hc. unfold processDefine in H.
      destruct (FindStringSubmatch reDefine 2 (TrimSpace line))
        as [[|w [|v [|x [|y l]]]]|]; try (injection H as <- _; reflexivity).
      cbv zeta in H.
      destruct (isQuoted (TrimSpace x)); [|discriminate].
      destruct (slice _ _ _); discriminate.
    + rewrite processLine_include in H by exact Hc. unfold processInclude in H.
      destruct (FindStringSubmatch reInclude 1 (TrimSpace line)) as [[|w [|v [|x l]]]|];
        try (injection H as <- _; reflexivity).
      cbv zeta in H.
      match type of H with
      | match rec ?f ?q with _ => _ end = _ =>
          destruct (rec f q) as [[o|e0| |] q0] eqn:Er; try discriminate
      end.
      injection H as <- _. cbn. exact (Hrec _ _ _ _ Er).
    + rewrite processLine_content in H by exact Hc. discriminate.
Qed.

Lemma scanLines_never_pop rec lines :
  forall filename n res locs p e p',
    neverEndPop rec ->
    scanLines env rec lines filename n res locs p = (Err e, p') ->
    mentionsEndPop e = false.
Proof.
  induction lines as [|line lines IH]; intros filename n res locs p e p' Hrec H.
  - discriminate.
  - cbn [scanLines] in H. unfold bind in H.
    destruct (processLineWithConditionals env rec line filename (S n) p)
      as [[[pl ll]|e0| |] p1] eqn:El; try discriminate.
    + exact (IH _ _ _ _ _ _ _ Hrec H).
    + injection H as <- _. exact (line_never_pop rec _ _ _ _ _ _ Hrec El).
Qed.

Lemma processReader_never_pop rec lines filename p e p' :
  neverEndPop rec ->
  processReader env rec lines filename p = (Err e, p') ->
  mentionsEndPop e = false.
Proof.
  intros Hrec H. unfold processReader, bind in H.
  destruct (scanLines env rec lines filename 0 [] [] p) as [[[res locs]|e0| |] p1] eqn:Es;
    try discriminate.
  - rewrite ValidateConditionals_init in H.
    destruct (IsEmpty (stack p1)); [discriminate|].
    injection H as <- _. reflexivity.
  - injection H as <- _. exact (scanLines_never_pop rec _ _ _ _ _ _ _ _ Hrec Es).
Qed.

Lemma ProcessFile_never_pop fuel : neverEndPop (ProcessFile env fuel).
Proof.
  induction fuel as [|fuel IH]; intros f q e q' H; cbn [ProcessFile] in H.
  - discriminate.
  - destruct (readFile env f) as [file|].
    + exact (processReader_never_pop _ file f q e q' IH H).
    + injection H as <- _. reflexivity.
Qed.

End PopNeverFails.

(** X3: the failure of Pop inside processEnd is unreachable.  No run of
    the preprocessor, on a file or on a reader, fails with the error
    [error processing #end], alone or wrapped in inclusion errors: the
    stack is tested for emptiness before it is popped. *)
Theorem pop_error_is_unreachable :
  forall env fuel source filename p e p',
    (ProcessFile env fuel filename p = (Err e, p') \/
     ProcessReader env fuel source filename p = (Err e, p')) ->
    mentionsEndPop e = false.
Proof.
  intros env fuel source filename p e p' [H|H].
  - exact (ProcessFile_never_pop env fuel filename p e p' H).
  - exact (processReader_never_pop env _ source filename p e p'
             (ProcessFile_never_pop env fuel) H).
Qed.

Lemma pop_error_is_unreachable_witness :
  ProcessReader (flatEnv []) 1 [str "SELECT 1;"; str "#end"] (str "a.sql") NewPreprocessor
  = (Err (ErrEndWithoutIf (str "a.sql") 2), initConditionals NewPreprocessor) /\
  mentionsEndPop (ErrEndWithoutIf (str "a.sql") 2) = false.
Proof.
  assert (H : ProcessReader (flatEnv []) 1 [str "SELECT 1;"; str "#end"] (str "a.sql")
                NewPreprocessor
              = (Err (ErrEndWithoutIf (str "a.sql") 2), initConditionals NewPreprocessor))
    by (vm_compute; reflexivity).
  split; [exact H|].
  exact (pop_error_is_unreachable (flatEnv []) 1 [str "SELECT 1;"; str "#end"]
           (str "a.sql") NewPreprocessor _ _ (or_intror H)).
Defined.

Section Balance.

Variable env : Env.
Variable rec : gostring -> M emitted.





End Balance.



Section DirectivePatterns.

Lemma FindStringSubmatch_first re n s caps :
  firstCaps (rmatch re (MState None s [])) caps ->
  exists whole,
    FindStringSubmatch re n s = Some (whole :: map (capture caps) (seq 1 n)).
Proof.
  intros (st & t & Hm & Hcaps). unfold FindStringSubmatch.
  destruct s as [|c s]; cbn [findFrom]; rewrite Hm, Hcaps; eauto.
Qed.

Lemma anchored_later K : forall r c,
  findFrom (RSeq RBegin K) (Some c) r = None.
Proof.
  induction r as [|d r IH]; intros c; cbn [findFrom rmatch ms_prev flat_map].
  - reflexivity.
  - rewrite IH. reflexivity.
Qed.

Lemma FindStringSubmatch_anchored_fail K n s :
  rmatch K (MState None s []) = [] ->
  FindStringSubmatch (RSeq RBegin K) n s = None.
Proof.
  intros H. unfold FindStringSubmatch.
  destruct s as [|c s]; cbn [findFrom rmatch ms_prev flat_map]; rewrite H; cbn [app].
  - reflexivity.
  - rewrite anchored_later. reflexivity.
Qed.

Lemma lits_step s K prev rest caps :
  rmatch (RSeq (lits s) K) (MState prev (s ++ rest) caps)
  = rmatch K (MState (lastOr prev s) rest caps).
Proof.
  cbn [rmatch]. rewrite rmatch_lits, HasPrefix_app, drop_app_length.
  cbn [flat_map]. apply app_nil_r.
Qed.

Lemma begin_first K s caps X :
  firstCaps (rmatch K (MState None s caps)) X ->
  firstCaps (rmatch (RSeq RBegin K) (MState None s caps)) X.
Proof.
  intros H. cbn [rmatch ms_prev flat_map]. apply firstCaps_app. exact H.
Qed.

Lemma char_first c K prev rest caps X :
  firstCaps (rmatch K (MState (Some c) rest caps)) X ->
  firstCaps (rmatch (RSeq (RChar (CLit c)) K) (MState prev (c :: rest) caps)) X.
Proof.
  intros H. cbn [rmatch ms_rest ms_caps cmem]. rewrite N.eqb_refl.
  cbn [flat_map]. apply firstCaps_app. exact H.
Qed.

Lemma statesAlong_Forall (P : mstate -> Prop) a : forall prev b caps,
  (forall k, (k <= length a)%nat ->
             P (MState (lastOr prev (take k a)) (drop k a ++ b) caps)) ->
  Forall P (statesAlong prev a b caps).
Proof.
  induction a as [|x a IH]; intros prev b caps H; cbn [statesAlong].
  - constructor; [|constructor]. exact (H 0%nat (Nat.le_refl _)).
  - constructor.
    + exact (H 0%nat (Nat.le_0_l _)).
    + apply IH. intros k Hk.
      specialize (H (S k)). cbn [take drop length] in H.
      rewrite lastOr_cons in H. apply H. lia.
Qed.

(** A repetition followed by [K] fails when [K] fails at every position
    of the run. *)
Lemma rep_all_fail c min greedy K prev a b caps :
  forallb (cmem c) a = true ->
  match b with [] => True | x :: _ => cmem c x = false end ->
  (forall k, (k <= length a)%nat ->
             rmatch K (MState (lastOr prev (take k a)) (drop k a ++ b) caps) = []) ->
  rmatch (RSeq (RRep c min greedy) K) (MState prev (a ++ b) caps) = [].
Proof.
  intros Ha Hb HK. cbn [rmatch ms_prev ms_rest ms_caps].
  rewrite repStates_run by assumption.
  apply flat_map_all_nil.
  assert (HF : Forall (fun st => rmatch K st = []) (statesAlong prev a b caps))
    by (apply statesAlong_Forall; exact HK).
  assert (HD : Forall (fun st => rmatch K st = []) (drop min (statesAlong prev a b caps)))
    by (apply Forall_drop; exact HF).
  destruct greedy; [apply Forall_rev|]; exact HD.
Qed.

Lemma group_rep_all_fail i c min greedy K prev a b caps :
  forallb (cmem c) a = true ->
  match b with [] => True | x :: _ => cmem c x = false end ->
  (forall k caps', (k <= length a)%nat ->
             rmatch K (MState (lastOr prev (take k a)) (drop k a ++ b) caps') = []) ->
  rmatch (RSeq (RGroup i (RRep c min greedy)) K) (MState prev (a ++ b) caps) = [].
Proof.
  intros Ha Hb HK. cbn [rmatch ms_prev ms_rest ms_caps].
  rewrite repStates_run by assumption.
  apply flat_map_all_nil. apply Forall_map.
  assert (HF : Forall (fun st => forall caps',
                         rmatch K (MState (ms_prev st) (ms_rest st) caps') = [])
                      (statesAlong prev a b caps)).
  { apply statesAlong_Forall. intros k Hk caps'. cbn [ms_prev ms_rest]. auto. }
  assert (HD : Forall (fun st => forall caps',
                         rmatch K (MState (ms_prev st) (ms_rest st) caps') = [])
                      (drop min (statesAlong prev a b caps)))
    by (apply Forall_drop; exact HF).
  assert (HR : Forall (fun st => forall caps',
                         rmatch K (MState (ms_prev st) (ms_rest st) caps') = [])
                      (if greedy then rev (drop min (statesAlong prev a b caps))
                       else drop min (statesAlong prev a b caps)))
    by (destruct greedy; [apply Forall_rev|]; exact HD).
  eapply Forall_impl; [exact HR|]. intros st Hst. apply Hst.
Qed.

Lemma drop_head_In {A} (l : list A) k x t : drop k l = x :: t -> In x l.
Proof.
  intros H. rewrite <- (take_drop k l), H. apply in_or_app. right. left. reflexivity.
Qed.

Lemma wordRune_no_comment w s : isWordRune w = true -> commentOrEnd (w :: s) = false.
Proof.
  intros Hw. cbn [commentOrEnd skipPerlSpaces].
  rewrite (wordRune_not_space w Hw).
  change (HasPrefix (w :: s) (str "//")) with ((47 =? w) && HasPrefix s [47]).
  destruct (47 =? w) eqn:E; [|reflexivity].
  apply N.eqb_eq in E. subst w. discriminate.
Qed.

Lemma comment_not_word tail :
  commentOrEnd tail = true ->
  match tail with [] => True | x :: _ => isWordRune x = false end.
Proof.
  destruct tail as [|x tail]; [auto|]. intros H.
  destruct (isWordRune x) eqn:E; [|reflexivity].
  rewrite (wordRune_no_comment x tail E) in H. discriminate.
Qed.

Lemma isPerlSpaces_spec ws :
  isPerlSpaces ws = true -> ws <> [] /\ forallb isPerlSpace ws = true.
Proof. destruct ws; [discriminate|]. intros H. split; [discriminate | exact H]. Qed.

Lemma identifier_after_spaces name rest :
  isIdentifier name ->
  match name ++ rest with [] => True | x :: _ => isPerlSpace x = false end.
Proof.
  intros [Hn Hw]. destruct name as [|x name]; [congruence|].
  cbn [app]. cbn [forallb] in Hw. apply andb_true_iff in Hw.
  apply wordRune_not_space. tauto.
Qed.

(** *** The conditional-open directives *)

Lemma openPattern_unfold word :
  openPattern word
  = RSeq RBegin
      (RSeq (lits word)
         (RSeq (RRep CSpace 1 true)
            (RSeq (RGroup 1 (RRep CWord 1 true)) (seqs commentTail)))).
Proof. reflexivity. Qed.

Lemma openPattern_accepts word ws name tail :
  isPerlSpaces ws = true ->
  isIdentifier name ->
  commentOrEnd tail = true ->
  noLineFeed tail = true ->
  exists whole,
    FindStringSubmatch (openPattern word) 1 (openLine word ws name tail)
    = Some [whole; name].
Proof.
  intros Hws Hid Hc Hlf. apply isPerlSpaces_spec in Hws. destruct Hws as [Hn Hw].
  apply (FindStringSubmatch_first (openPattern word) 1 _ [(1%nat, name)]).
  rewrite openPattern_unfold. unfold openLine.
  apply begin_first, lits_first.
  apply greedy_first; [exact Hn | exact Hw | exact (identifier_after_spaces name tail Hid) |].
  destruct Hid as [Hne Hwd].
  apply greedy_group_first; [exact Hne | exact Hwd | exact (comment_not_word tail Hc) |].
  apply (tail_ok (MState _ tail [(1%nat, name)])); assumption.
Qed.

Lemma openPattern_rejects word ws name rest :
  isPerlSpaces ws = true ->
  isIdentifier name ->
  commentOrEnd rest = false ->
  match rest with [] => True | x :: _ => isWordRune x = false end ->
  FindStringSubmatch (openPattern word) 1 (openLine word ws name rest) = None.
Proof.
  intros Hws Hid Hc Hb. apply isPerlSpaces_spec in Hws. destruct Hws as [Hn Hw].
  rewrite openPattern_unfold. apply FindStringSubmatch_anchored_fail.
  unfold openLine. rewrite lits_step.
  apply rep_all_fail; [exact Hw | exact (identifier_after_spaces name rest Hid) |].
  intros k Hk.
  destruct (decide (k = length ws)) as [->|Hne].
  - rewrite drop_all, take_ge by lia. cbn [app].
    destruct Hid as [Hne Hwd].
    apply group_rep_all_fail; [exact Hwd | exact Hb |].
    intros j caps' Hj. apply tail_fail. cbn [ms_rest].
    destruct (decide (j = length name)) as [->|Hj'].
    + rewrite drop_all. exact Hc.
    + destruct (drop j name) as [|w t] eqn:Ed.
      * apply (f_equal length) in Ed. rewrite length_drop in Ed. cbn in Ed. lia.
      * cbn [app]. apply wordRune_no_comment.
        rewrite forallb_forall in Hwd. apply Hwd.
        exact (drop_head_In name j w t Ed).
  - destruct (drop k ws) as [|x t] eqn:Ed.
    + apply (f_equal length) in Ed. rewrite length_drop in Ed. cbn in Ed. lia.
    + cbn [app rmatch ms_prev ms_rest ms_caps repStates cmem].
      assert (Hx : isWordRune x = false).
      { apply perlSpace_not_word. rewrite forallb_forall in Hw. apply Hw.
        exact (drop_head_In ws k x t Ed). }
      rewrite Hx. reflexivity.
Qed.

(** *** The inclusion directive *)

Lemma reInclude_unfold :
  reInclude
  = RSeq RBegin
      (RSeq (lits (str "#include"))
         (RSeq (RRep CSpace 1 true)
            (RSeq (RChar (CLit dquote))
               (RSeq (RGroup 1 (RRep (CNot dquote) 1 true))
                  (RSeq (RChar (CLit dquote)) (seqs commentTail)))))).
Proof. reflexivity. Qed.

Lemma reInclude_accepts ws target tail :
  isPerlSpaces ws = true ->
  target <> [] ->
  noDoubleQuote target = true ->
  commentOrEnd tail = true ->
  noLineFeed tail = true ->
  exists whole,
    FindStringSubmatch reInclude 1 (inclusionLine ws target tail) = Some [whole; target].
Proof.
  intros Hws Hne Hq Hc Hlf. apply isPerlSpaces_spec in Hws. destruct Hws as [Hn Hw].
  apply (FindStringSubmatch_first reInclude 1 _ [(1%nat, target)]).
  rewrite reInclude_unfold. unfold inclusionLine.
  apply begin_first, lits_first.
  apply greedy_first; [exact Hn | exact Hw | reflexivity |].
  apply char_first.
  apply (greedy_group_first 1 (CNot dquote) _ _ target (dquote :: tail));
    [exact Hne | exact Hq | reflexivity |].
  apply char_first.
  apply (tail_ok (MState _ tail [(1%nat, target)])); assumption.
Qed.

(** An inclusion whose path does not start with a double quote. *)
Lemma reInclude_rejects_unquoted ws c rest :
  isPerlSpaces ws = true ->
  isPerlSpace c = false ->
  (c =? dquote) = false ->
  FindStringSubmatch reInclude 1 (str "#include" ++ ws ++ c :: rest) = None.
Proof.
  intros Hws Hc Hq. apply isPerlSpaces_spec in Hws. destruct Hws as [Hn Hw].
  rewrite reInclude_unfold. apply FindStringSubmatch_anchored_fail.
  rewrite lits_step.
  apply rep_all_fail; [exact Hw | exact Hc |].
  intros k Hk. cbn [rmatch ms_rest ms_caps cmem].
  destruct (drop k ws) as [|x t] eqn:Ed; cbn [app].
  - rewrite Hq. reflexivity.
  - assert (Hx : (x =? dquote) = false).
    { assert (Hs : isPerlSpace x = true).
      { rewrite forallb_forall in Hw. apply Hw.
        exact (drop_head_In ws k x t Ed). }
      apply N.eqb_neq. intros ->. discriminate. }
    rewrite Hx. reflexivity.
Qed.

End DirectivePatterns.

Section DirectiveLines.

Variable env : Env.
Variable rec : gostring -> M emitted.

Lemma pushedFrame_ifdef line filename n p whole name :
  FindStringSubmatch reIfdef 1 line = Some [whole; name] ->
  processIfdef line filename n (initConditionals p)
  = (Ok ([], []), pushedFrame p (str "ifdef") name n (HasDefine p name)).
Proof.
  intros H. unfold processIfdef, pushedFrame, HasDefine.
  rewrite H, init_init, stack_init, defines_init. reflexivity.
Qed.

Lemma pushedFrame_ifndef line filename n p whole name :
  FindStringSubmatch reIfndef 1 line = Some [whole; name] ->
  processIfndef line filename n (initConditionals p)
  = (Ok ([], []), pushedFrame p (str "ifndef") name n (negb (HasDefine p name))).
Proof.
  intros H. unfold processIfndef, pushedFrame, HasDefine.
  rewrite H, init_init, stack_init, defines_init. reflexivity.
Qed.

Lemma ifdef_line_class line ws name tail :
  TrimSpace line = openLine (str "#ifdef") (space :: ws) name tail ->
  isIfdefLine line = true.
Proof. unfold isIfdefLine. intros ->. reflexivity. Qed.

Lemma ifndef_line_class line ws name tail :
  TrimSpace line = openLine (str "#ifndef") (space :: ws) name tail ->
  isIfndefLine line = true.
Proof. unfold isIfndefLine, isIfdefLine. intros ->. reflexivity. Qed.

Lemma inclusion_line_class line ws rest :
  TrimSpace line = str "#include" ++ space :: ws ++ rest ->
  isIncludeLine line = true.
Proof.
  unfold isIncludeLine, isDefineLine, isConditionalLine, isEndLine, isOpenLine,
    isIfndefLine, isIfdefLine, gostring_eqb.
  intros ->. reflexivity.
Qed.

Lemma inclusion_line_runs line ws target tail filename n p :
  TrimSpace line = inclusionLine (space :: ws) target tail ->
  forallb isPerlSpace ws = true ->
  target <> [] ->
  noDoubleQuote target = true ->
  commentOrEnd tail = true ->
  noLineFeed tail = true ->
  ShouldInclude (stack p) = true ->
  processLineWithConditionals env rec line filename n p
  = wrapInclusion filename n (rec (includePath env filename target) (initConditionals p)).
Proof.
  intros Ht Hw Hne Hq Hc Hlf Hs.
  assert (Hi : isIncludeLine line = true).
  { apply (inclusion_line_class line ws (dquote :: target ++ dquote :: tail)).
    rewrite Ht. reflexivity. }
  rewrite dispatch_other by (apply class_not_conditional; auto).
  rewrite Hs, processLine_include by exact Hi.
  unfold processInclude. rewrite Ht.
  destruct (reInclude_accepts (space :: ws) target tail) as [whole ->]; try assumption.
  unfold wrapInclusion, includePath.
  destruct (rec _ (initConditionals p)) as [[o|e| |] q]; reflexivity.
Qed.

End DirectiveLines.

(** X5: a well-formed conditional-open line is accepted whatever white
    space and comment follow the name.  For a line that, trimmed, is the
    directive word, a space, optional white space, a name, and then
    nothing or a comment after optional white space, the dispatcher emits
    nothing and pushes a frame for that name and line, active when the
    name is defined (#ifdef) or is not (#ifndef) and every enclosing frame
    is active. *)
Theorem open_directive_accepts_trailing_comment :
  forall env rec line ws name tail filename n p,
    forallb isPerlSpace ws = true ->
    isIdentifier name ->
    commentOrEnd tail = true ->
    noLineFeed tail = true ->
    (TrimSpace line = openLine (str "#ifdef") (space :: ws) name tail ->
     processLineWithConditionals env rec line filename n p
     = (Ok ([], []), pushedFrame p (str "ifdef") name n (HasDefine p name))) /\
    (TrimSpace line = openLine (str "#ifndef") (space :: ws) name tail ->
     processLineWithConditionals env rec line filename n p
     = (Ok ([], []), pushedFrame p (str "ifndef") name n (negb (HasDefine p name)))).
Proof.
  intros env rec line ws name tail filename n p Hw Hid Hc Hlf. split; intros Ht.
  - rewrite dispatch_ifdef by exact (ifdef_line_class line ws name tail Ht).
    destruct (openPattern_accepts (str "#ifdef") (space :: ws) name tail)
      as [whole Hm]; try assumption.
    rewrite Ht. exact (pushedFrame_ifdef _ filename n p whole name Hm).
  - rewrite dispatch_ifndef by exact (ifndef_line_class line ws name tail Ht).
    destruct (openPattern_accepts (str "#ifndef") (space :: ws) name tail)
      as [whole Hm]; try assumption.
    rewrite Ht. exact (pushedFrame_ifndef _ filename n p whole name Hm).
Qed.

(** X6: a conditional-open line with text after the name that is not a
    comment is rejected.  For a line that, trimmed, is the directive
    word, a space, optional white space, a name, and then text that is
    neither empty nor a comment after optional white space, the
    dispatcher fails with the syntax error of the directive for that
    file and line and pushes no frame, whether the enclosing frames are
    active or not. *)
Theorem open_directive_rejects_text_after_name :
  forall env rec line ws name rest filename n p,
    forallb isPerlSpace ws = true ->
    isIdentifier name ->
    commentOrEnd rest = false ->
    optWord (head rest) = false ->
    (TrimSpace line = openLine (str "#ifdef") (space :: ws) name rest ->
     processLineWithConditionals env rec line filename n p
     = (Err (ErrIfdefSyntax filename n), initConditionals p)) /\
    (TrimSpace line = openLine (str "#ifndef") (space :: ws) name rest ->
     processLineWithConditionals env rec line filename n p
     = (Err (ErrIfndefSyntax filename n), initConditionals p)).
Proof.
  intros env rec line ws name rest filename n p Hw Hid Hc Hb.
  assert (Hb' : match rest with [] => True | x :: _ => isWordRune x = false end)
    by (destruct rest; [exact I | exact Hb]).
  split; intros Ht.
  - rewrite dispatch_ifdef by exact (ifdef_line_class line ws name rest Ht).
    unfold processIfdef. rewrite Ht.
    change reIfdef with (openPattern (str "#ifdef")).
    rewrite (openPattern_rejects (str "#ifdef") (space :: ws) name rest)
      by assumption.
    rewrite init_init. reflexivity.
  - rewrite dispatch_ifndef by exact (ifndef_line_class line ws name rest Ht).
    unfold processIfndef. rewrite Ht.
    change reIfndef with (openPattern (str "#ifndef")).
    rewrite (openPattern_rejects (str "#ifndef") (space :: ws) name rest)
      by assumption.
    rewrite init_init. reflexivity.
Qed.

Lemma open_directive_accepts_trailing_comment_witness :
  isIdentifier (str "DEBUG") /\
  commentOrEnd (str "  // debugging only") = true /\
  processLineWithConditionals (flatEnv []) (ProcessFile (flatEnv []) 0)
    (str "  #ifdef  DEBUG  // debugging only") (str "a.sql") 3 debugDefined
  = (Ok ([], []), pushedFrame debugDefined (str "ifdef") (str "DEBUG") 3 true).
Proof.
  assert (Hid : isIdentifier (str "DEBUG")) by (split; [discriminate | reflexivity]).
  split; [exact Hid|]. split; [reflexivity|].
  apply (proj1 (open_directive_accepts_trailing_comment
                  (flatEnv []) (ProcessFile (flatEnv []) 0)
                  (str "  #ifdef  DEBUG  // debugging only")
                  (str " ") (str "DEBUG") (str "  // debugging only")
                  (str "a.sql") 3 debugDefined eq_refl Hid eq_refl eq_refl)).
  reflexivity.
Defined.

Lemma open_directive_rejects_text_after_name_witness :
  isIdentifier (str "INVALID") /\
  commentOrEnd (str " SYNTAX") = false /\
  processLineWithConditionals (flatEnv []) (ProcessFile (flatEnv []) 0)
    (str "#ifndef INVALID SYNTAX") (str "a.sql") 7 NewPreprocessor
  = (Err (ErrIfndefSyntax (str "a.sql") 7), initConditionals NewPreprocessor).
Proof.
  assert (Hid : isIdentifier (str "INVALID")) by (split; [discriminate | reflexivity]).
  split; [exact Hid|]. split; [reflexivity|].
  apply (proj2 (open_directive_rejects_text_after_name
                  (flatEnv []) (ProcessFile (flatEnv []) 0)
                  (str "#ifndef INVALID SYNTAX")
                  [] (str "INVALID") (str " SYNTAX")
                  (str "a.sql") 7 NewPreprocessor eq_refl Hid eq_refl eq_refl)).
  reflexivity.
Defined.

(** X7: a live inclusion line opens the path it names, resolved against
    the including file.  For a line that, trimmed, is [#include], a
    space, optional white space, a non-empty path between double quotes,
    and then nothing or a comment, the dispatcher returns what ProcessFile
    returns for the path (joined to the directory of the including file
    unless it is absolute), run on the same preprocessor; an error of
    that call comes back wrapped in [error including file] with the
    including file and line. *)
Theorem inclusion_runs_the_resolved_path :
  forall env fuel line ws target tail filename n p,
    TrimSpace line = inclusionLine (space :: ws) target tail ->
    forallb isPerlSpace ws = true ->
    target <> [] ->
    noDoubleQuote target = true ->
    commentOrEnd tail = true ->
    noLineFeed tail = true ->
    ShouldInclude (stack p) = true ->
    processLineWithConditionals env (ProcessFile env fuel) line filename n p
    = wrapInclusion filename n
        (ProcessFile env fuel (includePath env filename target) (initConditionals p)).
Proof.
  intros env fuel line ws target tail filename n p.
  apply inclusion_line_runs.
Qed.

Lemma inclusion_runs_the_resolved_path_witness :
  processLineWithConditionals includeScenario (ProcessFile includeScenario 1)
    (inclusionLine (str " ") (str "inc.sqi") (str " // shared")) (str "main.sql") 2
    NewPreprocessor
  = wrapInclusion (str "main.sql") 2
      (ProcessFile includeScenario 1 (str "inc.sqi") (initConditionals NewPreprocessor)).
Proof.
  apply (inclusion_runs_the_resolved_path includeScenario 1
           (inclusionLine (str " ") (str "inc.sqi") (str " // shared"))
           [] (str "inc.sqi") (str " // shared") (str "main.sql") 2 NewPreprocessor);
    try reflexivity.
  discriminate.
Defined.

(** X8: what a live inclusion line fails with.  When the path is not
    written between double quotes the dispatcher fails with the syntax
    error of #include for that file and line; when the path is well
    written but the file cannot be opened it fails with [error including
    file] for the including file and line, wrapping [failed to open file]
    for the resolved path. *)
Theorem inclusion_failures :
  forall env fuel line ws filename n p,
    forallb isPerlSpace ws = true ->
    ShouldInclude (stack p) = true ->
    (forall c rest,
        TrimSpace line = str "#include" ++ space :: ws ++ c :: rest ->
        isPerlSpace c = false -> (c =? dquote) = false ->
        processLineWithConditionals env (ProcessFile env fuel) line filename n p
        = (Err (ErrIncludeSyntax filename n), initConditionals p)) /\
    (forall target tail,
        TrimSpace line = inclusionLine (space :: ws) target tail ->
        target <> [] -> noDoubleQuote target = true ->
        commentOrEnd tail = true -> noLineFeed tail = true ->
        readFile env (includePath env filename target) = None ->
        processLineWithConditionals env (ProcessFile env (S fuel)) line filename n p
        = (Err (ErrIncluding filename n (ErrOpen (includePath env filename target))),
           initConditionals p)).
Proof.
  intros env fuel line ws filename n p Hw Hs. split.
  - intros c rest Ht Hc Hq.
    assert (Hi : isIncludeLine line = true)
      by exact (inclusion_line_class line ws (c :: rest) Ht).
    rewrite dispatch_other by (apply class_not_conditional; auto).
    rewrite Hs, processLine_include by exact Hi.
    unfold processInclude. rewrite Ht.
    pose proof (reInclude_rejects_unquoted (space :: ws) c rest Hw Hc Hq) as Hr.
    cbn [app] in Hr. rewrite Hr. reflexivity.
  - intros target tail Ht Hne Hq Hc Hlf Hf.
    rewrite (inclusion_line_runs env _ line ws target tail filename n p)
      by assumption.
    cbn [ProcessFile]. rewrite Hf. reflexivity.
Qed.

Lemma inclusion_failures_witness :
  processLineWithConditionals (flatEnv []) (ProcessFile (flatEnv []) 1)
    (inclusionLine (str " ") (str "missing.sqi") []) (str "main.sql") 5 NewPreprocessor
  = (Err (ErrIncluding (str "main.sql") 5 (ErrOpen (str "missing.sqi"))),
     initConditionals NewPreprocessor).
Proof.
  apply (proj2 (inclusion_failures (flatEnv []) 0
                  (inclusionLine (str " ") (str "missing.sqi") [])
                  [] (str "main.sql") 5 NewPreprocessor eq_refl eq_refl)
               (str "missing.sqi") []);
    try reflexivity.
  discriminate.
Defined.

Section Recognition.

Variable env : Env.
Variable rec : gostring -> M emitted.

Lemma content_line_emitted line filename n p :
  isContentLine line = true ->
  ShouldInclude (stack p) = true ->
  processLineWithConditionals env rec line filename n p
  = emittedAsContent env line filename n p.
Proof.
  intros Hc Hs.
  rewrite dispatch_other by (apply class_not_conditional; auto).
  rewrite Hs, processLine_content by exact Hc.
  unfold emittedAsContent.
  rewrite (substituteVariables_defines env (initConditionals p) p) by apply defines_init.
  reflexivity.
Qed.

Lemma eqb_false_sym (a b : N) : (a =? b) = false -> (b =? a) = false.
Proof. rewrite N.eqb_sym. auto. Qed.

Lemma HasPrefix_word_then w c rest d :
  HasPrefix (w ++ c :: rest) (w ++ [d]) = (d =? c).
Proof.
  induction w as [|x w IH]; cbn [app HasPrefix].
  - apply andb_true_r.
  - rewrite N.eqb_refl. exact IH.
Qed.

Ltac evalPrefixes :=
  repeat match goal with
         | |- context [HasPrefix ?a ?b] =>
             let v := eval vm_compute in (HasPrefix a b) in
             change (HasPrefix a b) with v
         end.

Lemma unspaced_directive_is_content line word c rest :
  In word spacedDirectives ->
  TrimSpace line = word ++ c :: rest ->
  (c =? space) = false ->
  isContentLine line = true.
Proof.
  intros Hin Ht Hc. apply eqb_false_sym in Hc.
  unfold isContentLine, isIncludeLine, isDefineLine, isConditionalLine, isEndLine,
    isOpenLine, isIfndefLine, isIfdefLine, gostring_eqb.
  rewrite Ht. unfold spacedDirectives in Hin. cbn [In] in Hin.
  destruct Hin as [<-|[<-|[<-|[<-|[]]]]];
    rewrite bool_decide_eq_false_2 by (intros H; vm_compute in H; discriminate H).
  - change (str "#ifdef ") with (str "#ifdef" ++ [space]).
    rewrite HasPrefix_word_then, Hc. evalPrefixes. reflexivity.
  - change (str "#ifndef ") with (str "#ifndef" ++ [space]).
    rewrite HasPrefix_word_then, Hc. evalPrefixes. reflexivity.
  - change (str "#define ") with (str "#define" ++ [space]).
    rewrite HasPrefix_word_then, Hc. evalPrefixes. reflexivity.
  - change (str "#include ") with (str "#include" ++ [space]).
    rewrite HasPrefix_word_then, Hc. evalPrefixes. reflexivity.
Qed.

Lemma end_with_text_is_content line c rest :
  TrimSpace line = str "#end" ++ c :: rest ->
  isContentLine line = true.
Proof.
  intros Ht.
  unfold isContentLine, isIncludeLine, isDefineLine, isConditionalLine, isEndLine,
    isOpenLine, isIfndefLine, isIfdefLine, gostring_eqb.
  rewrite Ht.
  rewrite bool_decide_eq_false_2 by (intros H; vm_compute in H; discriminate H).
  evalPrefixes. reflexivity.
Qed.

End Recognition.

(** X9: directives are recognised by exact prefixes.  While every frame
    is active, a line whose trimmed text is #ifdef, #ifndef, #define or
    #include directly followed by a rune other than a space (a tab, for
    instance), or is #end followed by anything (a comment, the letters of
    #endif), is not a directive: it is emitted as a content line, like
    any line of SQL, and the stack and the defines are left as they
    are. *)
Theorem directives_are_recognised_by_exact_prefix :
  forall env rec line filename n p,
    ShouldInclude (stack p) = true ->
    (forall word c rest,
        In word spacedDirectives ->
        TrimSpace line = word ++ c :: rest ->
        (c =? space) = false ->
        processLineWithConditionals env rec line filename n p
        = emittedAsContent env line filename n p) /\
    (forall c rest,
        TrimSpace line = str "#end" ++ c :: rest ->
        processLineWithConditionals env rec line filename n p
        = emittedAsContent env line filename n p).
Proof.
  intros env rec line filename n p Hs. split.
  - intros word c rest Hin Ht Hc. apply content_line_emitted; [|exact Hs].
    exact (unspaced_directive_is_content line word c rest Hin Ht Hc).
  - intros c rest Ht. apply content_line_emitted; [|exact Hs].
    exact (end_with_text_is_content line c rest Ht).
Qed.

Lemma directives_are_recognised_by_exact_prefix_witness :
  processLineWithConditionals (flatEnv []) (ProcessFile (flatEnv []) 0)
    (str "#endif") (str "a.sql") 9 NewPreprocessor
  = emittedAsContent (flatEnv []) (str "#endif") (str "a.sql") 9 NewPreprocessor.
Proof.
  exact (proj2 (directives_are_recognised_by_exact_prefix (flatEnv [])
                  (ProcessFile (flatEnv []) 0) (str "#endif") (str "a.sql") 9
                  NewPreprocessor eq_refl)
               105 (str "f") eq_refl).
Defined.

Section DefineErrors.

Lemma rep1_fail c greedy K prev s caps :
  match s with [] => True | x :: _ => cmem c x = false end ->
  rmatch (RSeq (RRep c 1 greedy) K) (MState prev s caps) = [].
Proof.
  intros H. cbn [rmatch ms_prev ms_rest ms_caps].
  destruct s as [|x s]; cbn [repStates]; [|rewrite H];
    destruct greedy; reflexivity.
Qed.

Lemma group_rep1_fail i c greedy K prev s caps :
  match s with [] => True | x :: _ => cmem c x = false end ->
  rmatch (RSeq (RGroup i (RRep c 1 greedy)) K) (MState prev s caps) = [].
Proof.
  intros H. cbn [rmatch ms_prev ms_rest ms_caps].
  destruct s as [|x s]; cbn [repStates]; [|rewrite H];
    destruct greedy; reflexivity.
Qed.

Lemma reDefine_rejects ws name rest :
  isPerlSpaces ws = true ->
  isIdentifier name ->
  noValueAfter rest = true ->
  FindStringSubmatch reDefine 2 (str "#define" ++ ws ++ name ++ rest) = None.
Proof.
  intros Hws Hid Hr. apply isPerlSpaces_spec in Hws. destruct Hws as [Hn Hw].
  assert (Hrw : match rest with [] => True | x :: _ => isWordRune x = false end).
  { destruct rest as [|x rest]; [exact I|]. cbn in Hr.
    apply andb_true_iff in Hr. destruct Hr as [Hr _]. apply negb_true_iff in Hr. exact Hr. }
  assert (Hrs : match rest with [] => True | x :: _ => isPerlSpace x = false end).
  { destruct rest as [|x rest]; [exact I|]. cbn in Hr.
    apply andb_true_iff in Hr. destruct Hr as [_ Hr]. apply negb_true_iff in Hr. exact Hr. }
  rewrite reDefine_unfold. apply FindStringSubmatch_anchored_fail.
  rewrite lits_step.
  apply rep_all_fail; [exact Hw | exact (identifier_after_spaces name rest Hid) |].
  intros k Hk.
  destruct (decide (k = length ws)) as [->|Hne].
  - rewrite drop_all, take_ge by lia. cbn [app].
    destruct Hid as [Hne Hwd].
    apply group_rep_all_fail; [exact Hwd | exact Hrw |].
    intros j caps' Hj. apply rep1_fail. cbn [cmem].
    destruct (drop j name) as [|w t] eqn:Ed; cbn [app].
    + exact Hrs.
    + apply wordRune_not_space. rewrite forallb_forall in Hwd. apply Hwd.
      exact (drop_head_In name j w t Ed).
  - destruct (drop k ws) as [|x t] eqn:Ed.
    + apply (f_equal length) in Ed. rewrite length_drop in Ed. cbn in Ed. lia.
    + cbn [app]. apply group_rep1_fail. cbn [cmem].
      apply perlSpace_not_word. rewrite forallb_forall in Hw. apply Hw.
      exact (drop_head_In ws k x t Ed).
Qed.

Lemma define_line_class line ws rest :
  TrimSpace line = str "#define" ++ space :: ws ++ rest ->
  isDefineLine line = true.
Proof.
  unfold isDefineLine, isConditionalLine, isEndLine, isOpenLine,
    isIfndefLine, isIfdefLine, gostring_eqb.
  intros ->. reflexivity.
Qed.

End DefineErrors.

(** X10: a definition without a value is rejected.  While every frame is
    active, a line that, trimmed, is #define, a space, optional white
    space and a name, followed by nothing or by a rune that is neither a
    word rune nor white space, fails with the syntax error of #define for
    that file and line, and defines nothing. *)
Theorem definition_without_value_is_rejected :
  forall env rec line ws name rest filename n p,
    forallb isPerlSpace ws = true ->
    isIdentifier name ->
    noValueAfter rest = true ->
    TrimSpace line = str "#define" ++ space :: ws ++ name ++ rest ->
    ShouldInclude (stack p) = true ->
    processLineWithConditionals env rec line filename n p
    = (Err (ErrDefineSyntax filename n), initConditionals p).
Proof.
  intros env rec line ws name rest filename n p Hw Hid Hr Ht Hs.
  assert (Hd : isDefineLine line = true)
    by exact (define_line_class line ws (name ++ rest) Ht).
  rewrite dispatch_other by (apply class_not_conditional; auto).
  rewrite Hs, processLine_define by exact Hd.
  unfold processDefine. rewrite Ht.
  pose proof (reDefine_rejects (space :: ws) name rest Hw Hid Hr) as Hf.
  cbn [app] in Hf. rewrite Hf. reflexivity.
Qed.

Lemma definition_without_value_is_rejected_witness :
  isIdentifier (str "LIMIT") /\
  processLineWithConditionals (flatEnv []) (ProcessFile (flatEnv []) 0)
    (str "#define LIMIT") (str "a.sql") 4 NewPreprocessor
  = (Err (ErrDefineSyntax (str "a.sql") 4), initConditionals NewPreprocessor).
Proof.
  assert (Hid : isIdentifier (str "LIMIT")) by (split; [discriminate | reflexivity]).
  split; [exact Hid|].
  exact (definition_without_value_is_rejected (flatEnv []) (ProcessFile (flatEnv []) 0)
           (str "#define LIMIT") [] (str "LIMIT") [] (str "a.sql") 4 NewPreprocessor
           eq_refl Hid eq_refl eq_refl eq_refl).
Defined.

Section ActiveBlock.

Variable env : Env.
Variable rec : gostring -> M emitted.







End ActiveBlock.



Section Templates.

Variable ld : rune -> bool.

Lemma expand_literal template matched : forall fuel,
  noDollar template = true -> expand ld fuel template matched = template.
Proof.
  induction template as [|c t IH]; intros fuel H; destruct fuel; try reflexivity.
  cbn [noDollar forallb] in H. apply andb_true_iff in H. destruct H as [Hc Ht].
  cbn [expand]. rewrite Hc. f_equal. apply IH. exact Ht.
Qed.

Lemma spanName_identifier w :
  forallb isWordRune w = true -> spanName ld w = (w, []).
Proof.
  induction w as [|c w IH]; intros H; [reflexivity|].
  cbn [forallb] in H. apply andb_true_iff in H. destruct H as [Hc Hw].
  cbn [spanName]. unfold isNameRune.
  assert (Hlt : (c <? 128) = true).
  { apply N.ltb_lt. unfold isWordRune in Hc.
    rewrite !orb_true_iff, !andb_true_iff, !N.leb_le, N.eqb_eq in Hc. lia. }
  rewrite Hlt, Hc, (IH Hw). reflexivity.
Qed.

Lemma expand_reference w matched fuel :
  w <> [] -> forallb isWordRune w = true ->
  expand ld (S fuel) (36 :: w) matched
  = if gostring_eqb w [48] then matched else [].
Proof.
  intros Hne Hw. destruct w as [|d w']; [congruence|].
  assert (Hd : isWordRune d = true)
    by (cbn [forallb] in Hw; apply andb_true_iff in Hw; tauto).
  cbn [expand]. rewrite N.eqb_refl. cbn [negb].
  assert (Hd36 : (d =? 36) = false)
    by (apply N.eqb_neq; intros ->; discriminate).
  assert (Hd123 : (d =? 123) = false)
    by (apply N.eqb_neq; intros ->; discriminate).
  rewrite Hd36. unfold extract. rewrite Hd123.
  rewrite (spanName_identifier (d :: w') Hw).
  destruct fuel; cbn [expand]; rewrite app_nil_r; reflexivity.
Qed.

End Templates.

Section OneDefine.

Variable env : Env.
Hypothesis Hrange : RangeOk env.

Lemma range_oneDefine name value :
  rangeDefines env (defines (oneDefine name value)) = [(name, mkDefine name value)].
Proof.
  pose proof (Hrange (defines (oneDefine name value))) as H.
  unfold oneDefine, SetDefine, NewPreprocessor in *. cbn [defines] in *.
  rewrite insert_empty, map_to_list_singleton in H.
  apply Permutation_singleton_r in H. exact H.
Qed.

Lemma substitute_oneDefine name value line :
  isIdentifier name ->
  substituteVariables env (oneDefine name value) line
  = substTokens name (expandValue env name value) line.
Proof.
  intros Hid. unfold substituteVariables. rewrite range_oneDefine.
  cbn [fold_left fst snd Value]. apply ReplaceAllString_tokens. exact Hid.
Qed.

End OneDefine.

(** X12: a value without dollar sign is inserted as it is.  With a table
    whose names are identifiers and whose values hold no [$], the pass
    of each define replaces every token equal to its name by its value,
    verbatim, and keeps every other token. *)
Theorem values_without_dollar_are_inserted_verbatim :
  forall env p line,
    RangeOk env ->
    (forall name d, defines p !! name = Some d ->
                    isIdentifier name /\ noDollar (Value d) = true) ->
    substituteVariables env p line
    = fold_left (fun text nd => substTokens (fst nd) (Value (snd nd)) text)
                (rangeDefines env (defines p)) line.
Proof.
  intros env p line Hrange H. unfold substituteVariables.
  apply fold_left_ext_in. intros text [name d] Hin. cbn [fst snd].
  destruct (H name d (range_lookup env Hrange _ _ _ Hin)) as [Hid Hnd].
  rewrite (ReplaceAllString_tokens name Hid).
  rewrite expand_literal by exact Hnd. reflexivity.
Qed.

Lemma values_without_dollar_are_inserted_verbatim_witness :
  RangeOk (flatEnv []) /\
  substituteVariables (flatEnv []) (oneDefine (str "T") (str "dbo.users u"))
    (str "SELECT T.id FROM T WHERE TT = 1")
  = str "SELECT dbo.users u.id FROM dbo.users u WHERE TT = 1".
Proof.
  assert (Hr : RangeOk (flatEnv [])) by (intros m; reflexivity).
  split; [exact Hr|].
  rewrite (values_without_dollar_are_inserted_verbatim (flatEnv [])
             (oneDefine (str "T") (str "dbo.users u"))
             (str "SELECT T.id FROM T WHERE TT = 1") Hr).
  - vm_compute. reflexivity.
  - intros name d Hl.
    unfold oneDefine, SetDefine, NewPreprocessor in Hl. cbn [defines] in Hl.
    apply lookup_insert_Some in Hl.
    destruct Hl as [[<- <-]|[_ Hl]]; [|rewrite lookup_empty in Hl; discriminate].
    split; [split; [discriminate | reflexivity] | reflexivity].
Defined.

(** X13: a value that is a template reference is not inserted.  When
    the only define has as value a dollar sign followed by an identifier,
    every token equal to the name is deleted from the line, the other
    tokens are kept; when that identifier is 0 the line is unchanged. *)
Theorem dollar_reference_value_is_not_inserted :
  forall env name w line,
    RangeOk env ->
    isIdentifier name ->
    isIdentifier w ->
    substituteVariables env (oneDefine name (36 :: w)) line
    = if gostring_eqb w [48] then line else substTokens name [] line.
Proof.
  intros env name w line Hrange Hid [Hne Hw].
  rewrite (substitute_oneDefine env Hrange name (36 :: w) line Hid).
  unfold expandValue. rewrite (expand_reference _ w name _ Hne Hw).
  destruct (gostring_eqb w [48]); [|reflexivity].
  unfold substTokens.
  rewrite <- (concat_tokenize line) at 2. f_equal.
  transitivity (map id (tokenize line)); [|apply map_id].
  apply map_ext. intros t. unfold substToken, gostring_eqb.
  destruct (bool_decide (t = name)) eqn:E; [|reflexivity].
  apply bool_decide_eq_true in E. subst t. reflexivity.
Qed.

Lemma dollar_reference_value_is_not_inserted_witness :
  RangeOk (flatEnv []) /\
  substituteVariables (flatEnv []) (oneDefine (str "PRICE") (str "$5"))
    (str "SELECT PRICE AS p") = str "SELECT  AS p".
Proof.
  assert (Hr : RangeOk (flatEnv [])) by (intros m; reflexivity).
  split; [exact Hr|].
  assert (H5 : isIdentifier (str "5")) by (split; [discriminate | reflexivity]).
  assert (Hp : isIdentifier (str "PRICE")) by (split; [discriminate | reflexivity]).
  exact (dollar_reference_value_is_not_inserted (flatEnv []) (str "PRICE") (str "5")
           (str "SELECT PRICE AS p") Hr Hp H5).
Defined.

(** X14: the conditional stack is a stack.  Pop returns the block that
    was pushed last and leaves the stack as it was before that Push; it
    fails exactly on the empty stack.  Push adds one to the depth, and
    the lines stay included after a Push exactly when they were included
    before and the pushed block is active. *)
Theorem conditional_stack_laws :
  forall cs block,
    Pop (Push cs block) = Some (block, cs) /\
    Depth (Push cs block) = S (Depth cs) /\
    ShouldInclude (Push cs block) = ShouldInclude cs && Active block /\
    (Pop cs = None <-> IsEmpty cs = true) /\
    (IsEmpty cs = true <-> Depth cs = 0%nat).
Proof.
  intros [bs] block. unfold Push, Depth, ShouldInclude, IsEmpty. cbn [blocks].
  split; [apply Pop_snoc|].
  split; [rewrite length_app; cbn; lia|].
  split.
  { rewrite shouldIncludeBlocks_app. cbn. destruct (Active block); reflexivity. }
  split.
  - unfold Pop. cbn [blocks]. destruct bs as [|b bs]; cbn [length Nat.eqb].
    + split; reflexivity.
    + destruct (last (b :: bs)) eqn:El.
      * split; discriminate.
      * apply last_None in El. discriminate.
  - apply Nat.eqb_eq.
Qed.

(* ===================================================================== *)
(** ** Further properties of the statement assembler *)
(* ===================================================================== *)

Section Ranges.

Lemma linesOf_single lines i line :
  lines !! i = Some line -> linesOf lines (i + 1) (i + 1) = [line].
Proof.
  intros H. unfold linesOf.
  replace (i + 1 - (i + 1) + 1)%nat with 1%nat by lia.
  replace (i + 1 - 1)%nat with i by lia.
  rewrite (take_S_r _ 0 line); [reflexivity|].
  rewrite lookup_drop, Nat.add_0_r. exact H.
Qed.

Lemma linesOf_extend lines first i line :
  (1 <= first)%nat -> (first <= i)%nat ->
  lines !! i = Some line ->
  linesOf lines first (S i) = linesOf lines first i ++ [line].
Proof.
  intros H1 H2 H. unfold linesOf.
  replace (S i - first + 1)%nat with (S (i - first + 1)) by lia.
  apply take_S_r. rewrite lookup_drop.
  replace (first - 1 + (i - first + 1))%nat with i by lia. exact H.
Qed.

Lemma joinLines_snoc ls line :
  joinLines (ls ++ [line]) = joinLines ls ++ line ++ [file.lineFeed].
Proof.
  unfold joinLines. rewrite map_app, concat_app. cbn. rewrite app_nil_r. reflexivity.
Qed.

Lemma TrimSpace_line_feed line : TrimSpace (joinLines [line]) = TrimSpace line.
Proof.
  unfold joinLines. cbn [map concat]. rewrite app_nil_r.
  apply TrimSpace_app_spaces. reflexivity.
Qed.

Lemma inSourceOrder_snoc ss s :
  inSourceOrder ss ->
  Forall (fun s0 => (file.EndLine s0 < file.StartLine s)%nat) ss ->
  inSourceOrder (ss ++ [s]).
Proof.
  induction ss as [|s0 ss IH]; intros Ho Hall; cbn [app inSourceOrder].
  - split; [constructor | exact I].
  - destruct Ho as [H1 H2]. apply Forall_cons_iff in Hall. destruct Hall as [Ha Hall].
    split.
    + apply Forall_app. split; [exact H1 | constructor; [exact Ha | constructor]].
    + exact (IH H2 Hall).
Qed.

Lemma assembled_mono lines locs i j s :
  (i <= j)%nat -> assembled lines locs i s -> assembled lines locs j s.
Proof.
  intros Hij [[H1 [H2 H3]] H]. split; [|exact H].
  repeat split; [exact H1 | exact H2 | lia].
Qed.

Lemma assembled_bound lines locs i ss :
  Forall (assembled lines locs i) ss ->
  Forall (fun s => (file.EndLine s <= i)%nat) ss.
Proof.
  intros H. eapply Forall_impl; [exact H|].
  intros s [[_ [_ Hs]] _]. exact Hs.
Qed.

(** The statement that flushes the buffer. *)
Lemma flush_assembled lines locs i ss cur startLine startLocation :
  (i <= length lines)%nat ->
  buffered lines locs i ss cur startLine startLocation ->
  cur <> [] ->
  let s := file.mkStatement (TrimSpace cur) startLine i
                            (FileName startLocation) startLocation in
  assembled lines locs i s /\
  Forall (fun s0 => (file.EndLine s0 < file.StartLine s)%nat) ss.
Proof.
  intros Hi [Hb|(H1 & H2 & H3 & H4 & H5)] Hne; [congruence|].
  cbn zeta. split; [|exact H3].
  split; [repeat split; cbn; lia|].
  split; [unfold fromItsLines; cbn; rewrite H4; reflexivity|].
  intros Hl. split; cbn; [exact (H5 Hl) | reflexivity].
Qed.

Lemma parseLoop_assembled lines :
  forall all locs i statements cur startLine startLocation,
    drop i all = lines ->
    (i <= length all)%nat ->
    inSourceOrder statements ->
    Forall (assembled all locs i) statements ->
    buffered all locs i statements cur startLine startLocation ->
    let out := file.parseLoop lines i (length all) locs statements cur
                 startLine startLocation in
    inSourceOrder out /\ Forall (assembled all locs (length all)) out.
Proof.
  induction lines as [|line lines IH];
    intros all locs i ss cur startLine startLocation Hd Hi Ho Ha Hb; cbn zeta.
  - assert (Hlen : i = length all).
    { apply (f_equal length) in Hd. rewrite length_drop in Hd. cbn in Hd. lia. }
    subst i. cbn [file.parseLoop].
    destruct (Nat.eqb (length cur) 0) eqn:Ec; cbn [negb].
    + auto.
    + assert (Hne : cur <> []) by (intros ->; discriminate).
      destruct (flush_assembled all locs (length all) ss cur startLine startLocation
                  (Nat.le_refl _) Hb Hne) as [Hs Hlt].
      split; [apply inSourceOrder_snoc; assumption|].
      apply Forall_app. split; [exact Ha | constructor; [exact Hs | constructor]].
  - assert (Hline : all !! i = Some line).
    { rewrite <- (Nat.add_0_r i), <- lookup_drop, Hd. reflexivity. }
    assert (Hlt : (i < length all)%nat) by (eapply lookup_lt_Some; exact Hline).
    assert (Hd' : drop (S i) all = lines).
    { rewrite <- (Nat.add_1_r i), <- (drop_drop all 1 i), Hd. reflexivity. }
    assert (Hloc : forall dflt, (length all <= length locs)%nat ->
               locs !! i = Some (match locs !! i with Some l => l | None => dflt end)).
    { intros dflt Hl. destruct (lookup_lt_is_Some_2 locs i) as [l ->]; [lia|reflexivity]. }
    (* the statements and the buffer after a schema command or a delimiter *)
    assert (Hflush :
      let '(ss', cur') :=
        if negb (Nat.eqb (length cur) 0)
        then (ss ++ [file.mkStatement (TrimSpace cur) startLine i
                       (FileName startLocation) startLocation], [])
        else (ss, cur) in
      inSourceOrder ss' /\ Forall (assembled all locs i) ss' /\ cur' = []).
    { destruct (Nat.eqb (length cur) 0) eqn:Ec; cbn [negb].
      - split; [exact Ho|]. split; [exact Ha|].
        destruct cur; [reflexivity | discriminate].
      - assert (Hne : cur <> []) by (intros ->; discriminate).
        destruct (flush_assembled all locs i ss cur startLine startLocation
                    (Nat.lt_le_incl _ _ Hlt) Hb Hne) as [Hs Hlt'].
        split; [apply inSourceOrder_snoc; assumption|].
        split; [|reflexivity].
        apply Forall_app. split; [exact Ha | constructor; [exact Hs | constructor]]. }
    cbn [file.parseLoop].
    destruct (schema.IsSchemaCommand line).
    + destruct (if negb (Nat.eqb (length cur) 0) then _ else _) as [ss' cur'].
      destruct Hflush as (Ho' & Ha' & ->).
      apply (IH all locs (S i)); [exact Hd' | lia | | | left; reflexivity].
      * apply inSourceOrder_snoc; [exact Ho'|].
        eapply Forall_impl; [exact (assembled_bound _ _ _ _ Ha')|].
        cbn. intros s Hs. lia.
      * apply Forall_app. split.
        -- eapply Forall_impl; [exact Ha'|]. intros s. apply assembled_mono. lia.
        -- constructor; [|constructor].
           split; [repeat split; cbn; lia|].
           split.
           ++ unfold fromItsLines. cbn [file.SQL file.StartLine file.EndLine].
              rewrite (linesOf_single all i line Hline), TrimSpace_line_feed. reflexivity.
           ++ intros Hl. split; cbn [file.StartLine file.Location file.FileName];
                [|reflexivity].
              replace (i + 1 - 1)%nat with i by lia. apply Hloc. exact Hl.
    + destruct (file.isDelimiter line).
      * destruct (if negb (Nat.eqb (length cur) 0) then _ else _) as [ss' cur'].
        destruct Hflush as (Ho' & Ha' & ->).
        apply (IH all locs (S i)); [exact Hd' | lia | exact Ho' | | left; reflexivity].
        eapply Forall_impl; [exact Ha'|]. intros s. apply assembled_mono. lia.
      * clear Hflush.
        destruct (Nat.eqb (length cur) 0) eqn:Ec.
        -- assert (cur = []) as -> by (destruct cur; [reflexivity | discriminate]).
           apply (IH all locs (S i)); [exact Hd' | lia | exact Ho | |].
           ++ eapply Forall_impl; [exact Ha|]. intros s. apply assembled_mono. lia.
           ++ right. split; [lia|]. split; [lia|]. split.
              ** eapply Forall_impl; [exact (assembled_bound _ _ _ _ Ha)|].
                 cbn. intros s Hs. lia.
              ** split.
                 --- replace (S i) with (i + 1)%nat by lia.
                     rewrite (linesOf_single all i line Hline).
                     unfold joinLines. cbn. rewrite app_nil_r. reflexivity.
                 --- intros Hl. replace (i + 1 - 1)%nat with i by lia.
                     apply Hloc. exact Hl.
        -- destruct Hb as [->|(H1 & H2 & H3 & H4 & H5)]; [discriminate|].
           apply (IH all locs (S i)); [exact Hd' | lia | exact Ho | |].
           ++ eapply Forall_impl; [exact Ha|]. intros s. apply assembled_mono. lia.
           ++ right. split; [exact H1|]. split; [lia|]. split; [exact H3|].
              split; [|exact H5].
              rewrite (linesOf_extend all startLine i line H1 H2 Hline).
              rewrite joinLines_snoc, H4. reflexivity.
Qed.

Lemma parseStatementsFromLines_assembled lines locs :
  inSourceOrder (file.parseStatementsFromLines lines locs) /\
  Forall (assembled lines locs (length lines)) (file.parseStatementsFromLines lines locs).
Proof.
  unfold file.parseStatementsFromLines.
  apply (parseLoop_assembled lines lines locs 0 [] [] 0 file.zeroLocation);
    [reflexivity | lia | exact I | constructor | left; reflexivity].
Qed.

End Ranges.

(** X15: the statements come out in source order with their own line
    ranges.  Every statement has a range StartLine..EndLine that is not
    empty and lies within the lines read, and every statement ends before
    the next one starts. *)
Theorem statements_have_ordered_line_ranges :
  forall lines locs,
    inSourceOrder (file.parseStatementsFromLines lines locs) /\
    Forall (withinLines (length lines)) (file.parseStatementsFromLines lines locs).
Proof.
  intros lines locs.
  destruct (parseStatementsFromLines_assembled lines locs) as [Ho Ha].
  split; [exact Ho|].
  eapply Forall_impl; [exact Ha|]. intros s [H _]. exact H.
Qed.

(** X16: the text of a statement is the text of its lines.  The SQL of
    every statement is the lines StartLine to EndLine of the input, each
    followed by a line feed, joined and trimmed; for a schema command
    this is the trimmed command line. *)
Theorem statement_text_is_its_lines :
  forall lines locs,
    Forall (fromItsLines lines) (file.parseStatementsFromLines lines locs).
Proof.
  intros lines locs.
  destruct (parseStatementsFromLines_assembled lines locs) as [_ Ha].
  eapply Forall_impl; [exact Ha|]. intros s [_ [H _]]. exact H.
Qed.

(** X17: a statement is located at its first line.  When there is a
    location for every line, the Location of every statement is the
    location of line StartLine, and its FileName is the file name of
    that location. *)
Theorem statement_location_is_that_of_its_first_line :
  forall lines locs,
    (length lines <= length locs)%nat ->
    Forall (locatedAtStart locs) (file.parseStatementsFromLines lines locs).
Proof.
  intros lines locs Hl.
  destruct (parseStatementsFromLines_assembled lines locs) as [_ Ha].
  eapply Forall_impl; [exact Ha|]. intros s [_ [_ H]]. exact (H Hl).
Qed.

Lemma statement_location_is_that_of_its_first_line_witness :
  (length sampleLines <= length sampleLocations)%nat /\
  Forall (locatedAtStart sampleLocations)
         (file.parseStatementsFromLines sampleLines sampleLocations).
Proof.
  assert (H : (length sampleLines <= length sampleLocations)%nat) by (cbn; lia).
  split; [exact H|].
  exact (statement_location_is_that_of_its_first_line sampleLines sampleLocations H).
Defined.


Section Coverage.

Lemma accounted_flush all i ss cur startLine loc :
  linesAccounted all i ss cur startLine ->
  cur <> [] ->
  linesAccounted all i
    (ss ++ [file.mkStatement (TrimSpace cur) startLine i (FileName loc) loc]) [] startLine.
Proof.
  intros (H1 & H2 & H3) Hne. destruct (H3 Hne) as [Hs H3'].
  split; [|split].
  - intros j l Hj Hl Hk. left.
    destruct (H1 j l Hj Hl Hk) as [(s & Hin & Hr)|[_ Hr]].
    + exists s. split; [apply in_or_app; left; exact Hin | exact Hr].
    + eexists. split; [apply in_or_app; right; left; reflexivity|].
      split; cbn; lia.
  - intros s j l Hin Hr Hl. apply in_app_or in Hin. destruct Hin as [Hin|[<-|[]]].
    + exact (H2 s j l Hin Hr Hl).
    + destruct Hr as [Ha Hb]. cbn in Ha, Hb. apply (H3' j l); [exact Ha | lia | exact Hl].
  - congruence.
Qed.

Lemma accounted_next all i ss line :
  all !! i = Some line ->
  keptLine line = false ->
  linesAccounted all i ss [] 0 ->
  linesAccounted all (S i) ss [] 0.
Proof.
  intros Hline Hk (H1 & H2 & _). split; [|split].
  - intros j l Hj Hl Hkl.
    destruct (decide (j = i)) as [->|Hne].
    + rewrite Hline in Hl. injection Hl as <-. congruence.
    + apply (H1 j l); [lia | exact Hl | exact Hkl].
  - exact H2.
  - congruence.
Qed.

Lemma accounted_empty_buffer all i ss startLine startLine' :
  linesAccounted all i ss [] startLine -> linesAccounted all i ss [] startLine'.
Proof.
  intros (H1 & H2 & _). split; [|split].
  - intros j l Hj Hl Hk. destruct (H1 j l Hj Hl Hk) as [H|[H _]]; [left; exact H | congruence].
  - exact H2.
  - congruence.
Qed.

Lemma parseLoop_accounted lines :
  forall all locs i statements cur startLine startLocation,
    drop i all = lines ->
    (i <= length all)%nat ->
    linesAccounted all i statements cur startLine ->
    linesAccounted all (length all)
      (file.parseLoop lines i (length all) locs statements cur startLine startLocation)
      [] 0.
Proof.
  induction lines as [|line lines IH];
    intros all locs i ss cur startLine startLocation Hd Hi Hacc.
  - assert (Hlen : i = length all).
    { apply (f_equal length) in Hd. rewrite length_drop in Hd. cbn in Hd. lia. }
    subst i. cbn [file.parseLoop].
    destruct (Nat.eqb (length cur) 0) eqn:Ec; cbn [negb].
    + assert (cur = []) as -> by (destruct cur; [reflexivity | discriminate]).
      exact (accounted_empty_buffer _ _ _ _ _ Hacc).
    + assert (Hne : cur <> []) by (intros ->; discriminate).
      exact (accounted_empty_buffer _ _ _ _ _
               (accounted_flush all (length all) ss cur startLine startLocation Hacc Hne)).
  - assert (Hline : all !! i = Some line).
    { rewrite <- (Nat.add_0_r i), <- lookup_drop, Hd. reflexivity. }
    assert (Hlt : (i < length all)%nat) by (eapply lookup_lt_Some; exact Hline).
    assert (Hd' : drop (S i) all = lines).
    { rewrite <- (Nat.add_1_r i), <- (drop_drop all 1 i), Hd. reflexivity. }
    assert (Hflush :
      let '(ss', cur') :=
        if negb (Nat.eqb (length cur) 0)
        then (ss ++ [file.mkStatement (TrimSpace cur) startLine i
                       (FileName startLocation) startLocation], [])
        else (ss, cur) in
      linesAccounted all i ss' [] startLine /\ cur' = []).
    { destruct (Nat.eqb (length cur) 0) eqn:Ec; cbn [negb].
      - assert (cur = []) as -> by (destruct cur; [reflexivity | discriminate]). auto.
      - assert (Hne : cur <> []) by (intros ->; discriminate).
        split; [|reflexivity]. exact (accounted_flush all i ss cur startLine _ Hacc Hne). }
    cbn [file.parseLoop]. unfold keptLine in *.
    destruct (schema.IsSchemaCommand line) eqn:Es.
    + destruct (if negb (Nat.eqb (length cur) 0) then _ else _) as [ss' cur'].
      destruct Hflush as ((H1 & H2 & _) & ->).
      apply (IH all locs (S i)); [exact Hd' | lia |].
      split; [|split].
      * intros j l Hj Hl Hk. left.
        destruct (decide (j = i)) as [->|Hne].
        -- eexists. split; [apply in_or_app; right; left; reflexivity|].
           split; cbn; lia.
        -- destruct (H1 j l ltac:(lia) Hl Hk) as [(s & Hin & Hr)|[Hc _]]; [|congruence].
           exists s. split; [apply in_or_app; left; exact Hin | exact Hr].
      * intros s j l Hin Hr Hl. apply in_app_or in Hin. destruct Hin as [Hin|[<-|[]]].
        -- exact (H2 s j l Hin Hr Hl).
        -- destruct Hr as [Ha Hb]. cbn in Ha, Hb.
           assert (j = i) as -> by lia. rewrite Hline in Hl. injection Hl as <-.
           unfold keptLine. rewrite Es. reflexivity.
      * congruence.
    + destruct (file.isDelimiter line) eqn:Ed.
      * destruct (if negb (Nat.eqb (length cur) 0) then _ else _) as [ss' cur'].
        destruct Hflush as (Hacc' & ->).
        apply (IH all locs (S i)); [exact Hd' | lia |].
        apply (accounted_empty_buffer all (S i) ss' 0).
        apply (accounted_next all i ss' line Hline).
        -- unfold keptLine. rewrite Es, Ed. reflexivity.
        -- exact (accounted_empty_buffer _ _ _ _ _ Hacc').
      * clear Hflush. destruct Hacc as (H1 & H2 & H3).
        assert (Hkl : schema.IsSchemaCommand line || negb (file.isDelimiter line) = true)
          by (rewrite Es, Ed; reflexivity).
        assert (Hcur : forall c : gostring, c ++ line ++ [file.lineFeed] <> []).
        { intros c H. apply app_eq_nil in H. destruct H as [_ H].
          apply app_eq_nil in H. destruct H as [_ H]. discriminate. }
        destruct (Nat.eqb (length cur) 0) eqn:Ec.
        -- assert (cur = []) as -> by (destruct cur; [reflexivity | discriminate]).
           apply (IH all locs (S i)); [exact Hd' | lia |].
           split; [|split].
           ++ intros j l Hj Hl Hk.
              destruct (decide (j = i)) as [->|Hne].
              ** right. split; [apply Hcur | lia].
              ** destruct (H1 j l ltac:(lia) Hl Hk) as [H|[Hc _]];
                   [left; exact H | congruence].
           ++ exact H2.
           ++ intros _. split; [lia|].
              intros j l Ha Hb Hl. assert (j = i) as -> by lia.
              rewrite Hline in Hl. injection Hl as <-. exact Hkl.
        -- assert (Hne : cur <> []) by (intros ->; discriminate).
           destruct (H3 Hne) as [Hs H3'].
           apply (IH all locs (S i)); [exact Hd' | lia |].
           split; [|split].
           ++ intros j l Hj Hl Hk.
              destruct (decide (j = i)) as [->|Hne'].
              ** right. split; [apply Hcur | lia].
              ** destruct (H1 j l ltac:(lia) Hl Hk) as [H|[_ Hr]];
                   [left; exact H | right; split; [apply Hcur | exact Hr]].
           ++ exact H2.
           ++ intros _. split; [lia|].
              intros j l Ha Hb Hl.
              destruct (decide (j = i)) as [->|Hne'].
              ** rewrite Hline in Hl. injection Hl as <-. exact Hkl.
              ** apply (H3' j l); [exact Ha | lia | exact Hl].
Qed.

End Coverage.

(** X18: the statements hold every line except the delimiters.  Every
    input line that is a schema command or is not a delimiter lies in
    the line range of some statement, and every line in the range of a
    statement is such a line: no line of SQL is dropped, and no delimiter
    line becomes part of a statement. *)
Theorem statements_hold_every_line_but_the_delimiters :
  forall lines locs,
    (forall j l, lines !! j = Some l -> keptLine l = true ->
       exists s, In s (file.parseStatementsFromLines lines locs) /\ inRange j s) /\
    (forall s j l, In s (file.parseStatementsFromLines lines locs) -> inRange j s ->
       lines !! j = Some l -> keptLine l = true).
Proof.
  intros lines locs. unfold file.parseStatementsFromLines.
  destruct (parseLoop_accounted lines lines locs 0 [] [] 0 file.zeroLocation)
    as (H1 & H2 & _); [reflexivity | lia | |].
  - split; [|split].
    + intros j l Hj. lia.
    + intros s j l [].
    + congruence.
  - split; [|exact H2].
    intros j l Hl Hk.
    destruct (H1 j l (lookup_lt_Some _ _ _ Hl) Hl Hk) as [H|[Hc _]]; [exact H | congruence].
Qed.

Lemma statements_hold_every_line_but_the_delimiters_witness :
  keptLine (str "FROM t;") = true /\
  exists s, In s (file.parseStatementsFromLines sampleLines sampleLocations) /\ inRange 1 s.
Proof.
  assert (Hk : keptLine (str "FROM t;") = true) by reflexivity.
  split; [exact Hk|].
  exact (proj1 (statements_hold_every_line_but_the_delimiters sampleLines sampleLocations)
               1%nat (str "FROM t;") eq_refl Hk).
Defined.

(* ===================================================================== *)
(** ** Further properties of the execution of statements *)
(* ===================================================================== *)

Section Execution.

Variable world : file.Collaborators.
Variable endOnError : bool.

Lemma executeLoop_trace statements :
  forall trace,
    exists done rest,
      List.filter hasContent statements = done ++ rest /\
      rev (fst (file.executeLoop world endOnError statements trace))
      = rev trace ++ map callOf done /\
      (snd (file.executeLoop world endOnError statements trace) = None -> rest = []).
Proof.
  induction statements as [|stmt statements IH]; intros trace.
  - exists [], []. cbn. rewrite app_nil_r. auto.
  - cbn [file.executeLoop List.filter]. unfold hasContent at 1.
    destruct (gostring_eqb (TrimSpace (file.SQL stmt)) []) eqn:Eb; cbn [negb].
    + apply IH.
    + assert (Hstep : forall t' (stop : bool) e,
                t' = callOf stmt :: trace ->
                exists done rest,
                  stmt :: List.filter hasContent statements = done ++ rest /\
                  rev (fst (if stop then (t', Some e)
                            else file.executeLoop world endOnError statements t'))
                  = rev trace ++ map callOf done /\
                  (snd (if stop then (t', Some e)
                        else file.executeLoop world endOnError statements t') = None ->
                   rest = [])).
      { intros t' stop e ->. destruct stop.
        - exists [stmt], (List.filter hasContent statements).
          cbn. split; [reflexivity|]. split; [reflexivity | discriminate].
        - destruct (IH (callOf stmt :: trace)) as (done & rest & Hf & Hr & Hn).
          exists (stmt :: done), rest. rewrite Hf. split; [reflexivity|].
          split; [|exact Hn].
          rewrite Hr. cbn [rev map]. rewrite <- app_assoc. reflexivity. }
      unfold callOf in Hstep.
      destruct (schema.IsSchemaCommand (file.SQL stmt)).
      * destruct (schema.ParseSchemaCommand (file.SQL stmt)) as [command filter'].
        cbn [fst snd] in Hstep.
        exact (Hstep _ (file.schemaCommandFails world _ && endOnError)
                     file.ErrSchemaCommand eq_refl).
      * destruct (file.formatFails world _) eqn:Ef.
        -- exact (Hstep _ true file.ErrFormatting eq_refl).
        -- exact (Hstep _ (file.resultHasError world _ && endOnError)
                        file.ErrStopped eq_refl).
Qed.

End Execution.

(** X19: executeStatements works through the statements in order.  The
    calls it makes on the executor and the introspector are, in order,
    the calls of a first part of the statements that have content, one
    call each; when it returns no error that part is all of them. *)
Theorem statements_are_executed_in_order :
  forall world endOnError statements,
    exists done rest,
      List.filter hasContent statements = done ++ rest /\
      rev (fst (file.executeStatements world endOnError statements)) = map callOf done /\
      (snd (file.executeStatements world endOnError statements) = None -> rest = []).
Proof.
  intros world endOnError statements. unfold file.executeStatements.
  exact (executeLoop_trace world endOnError statements []).
Qed.

Section EndOnErrorOff.

Variable world : file.Collaborators.

Lemma executeLoop_continues statements :
  forall trace,
    (snd (file.executeLoop world false statements trace) = None \/
     snd (file.executeLoop world false statements trace) = Some file.ErrFormatting) /\
    (formatterNeverFails world ->
     snd (file.executeLoop world false statements trace) = None).
Proof.
  induction statements as [|stmt statements IH]; intros trace; cbn [file.executeLoop].
  - cbn. auto.
  - destruct (gostring_eqb (TrimSpace (file.SQL stmt)) []); [apply IH|].
    destruct (schema.IsSchemaCommand (file.SQL stmt)).
    + destruct (schema.ParseSchemaCommand (file.SQL stmt)) as [command filter'].
      rewrite andb_false_r. apply IH.
    + destruct (file.formatFails world _) eqn:Ef.
      * cbn. split; [auto|]. intros Hf. rewrite Hf in Ef. discriminate.
      * rewrite andb_false_r. apply IH.
Qed.

End EndOnErrorOff.

(** X20: with end-on-error off, only the formatter can stop the run.
    executeStatements then returns no error or the formatting error,
    never the error of a schema command or of a statement; when the
    formatter does not fail it returns no error and has made the call of
    every statement that has content, in order. *)
Theorem without_end_on_error_only_the_formatter_stops :
  forall world statements,
    (snd (file.executeStatements world false statements) = None \/
     snd (file.executeStatements world false statements) = Some file.ErrFormatting) /\
    (formatterNeverFails world ->
     snd (file.executeStatements world false statements) = None /\
     rev (fst (file.executeStatements world false statements))
     = map callOf (List.filter hasContent statements)).
Proof.
  intros world statements. unfold file.executeStatements.
  destruct (executeLoop_continues world statements []) as [H1 H2].
  split; [exact H1|]. intros Hf. split; [exact (H2 Hf)|].
  destruct (executeLoop_trace world false statements []) as (done & rest & Hd & Hr & Hn).
  rewrite (Hn (H2 Hf)), app_nil_r in Hd. rewrite Hd. exact Hr.
Qed.

Lemma without_end_on_error_only_the_formatter_stops_witness :
  formatterNeverFails failingStatements /\
  snd (file.executeStatements failingStatements false
         (file.parseStatementsFromLines sampleLines sampleLocations)) = None /\
  rev (fst (file.executeStatements failingStatements false
              (file.parseStatementsFromLines sampleLines sampleLocations)))
  = map callOf (List.filter hasContent
                  (file.parseStatementsFromLines sampleLines sampleLocations)).
Proof.
  assert (H : formatterNeverFails failingStatements) by (intros t; reflexivity).
  split; [exact H|].
  exact (proj2 (without_end_on_error_only_the_formatter_stops failingStatements
                  (file.parseStatementsFromLines sampleLines sampleLocations)) H).
Defined.

(* ===================================================================== *)
(** ** From the file to the executor *)
(* ===================================================================== *)

Section Reported.

Lemma linesOf_first lines first last line :
  (1 <= first)%nat -> (first <= last)%nat ->
  lines !! (first - 1)%nat = Some line ->
  exists rest, linesOf lines first last = line :: rest.
Proof.
  intros H1 H2 Hl. unfold linesOf.
  rewrite (drop_S lines line (first - 1) Hl).
  replace (last - first + 1)%nat with (S (last - first)) by lia.
  cbn [take]. eauto.
Qed.

End Reported.

(** X21: a statement handed to the executor reports the physical line it
    starts at.  When Processor.ProcessFile gets through preprocessing,
    the Location of every statement it assembles, from which the line and
    file passed to Execute are taken, designates a content line of the
    main file or of an included file, and the text of the statement
    starts with that line as substituted. *)
Theorem statements_start_at_a_physical_line :
  forall env fuel filename statements,
    file.assembleFile env fuel filename = Ok statements ->
    Forall (startsAtPhysicalLine env) statements.
Proof.
  intros env fuel filename statements H. unfold file.assembleFile in H.
  destruct (ProcessFile env fuel filename NewPreprocessor) as [[[lines locs]|e| |] p'] eqn:Ep;
    try discriminate.
  injection H as <-.
  pose proof (ProcessFile_designates env fuel filename NewPreprocessor lines locs p' Ep) as Hd.
  pose proof (Forall2_length _ _ _ Hd) as Hlen.
  destruct (parseStatementsFromLines_assembled lines locs) as [_ Ha].
  eapply Forall_impl; [exact Ha|].
  intros s ((H1 & H2 & H3) & Htext & Hloc).
  destruct (Hloc ltac:(lia)) as [Hl _].
  destruct (lookup_lt_is_Some_2 lines (file.StartLine s - 1)) as [first Hfirst]; [lia|].
  destruct (linesOf_first lines _ _ first H1 H2 Hfirst) as [rest Hrest].
  exists first, rest. split.
  - exact (Forall2_lookup_lr _ _ _ _ _ _ Hd Hfirst Hl).
  - unfold fromItsLines in Htext. rewrite Htext, Hrest. reflexivity.
Qed.

Lemma statements_start_at_a_physical_line_witness :
  exists statements,
    file.assembleFile splitStatementScenario 2 (str "main.sql") = Ok statements /\
    map file.Location statements
    = [ownLocation (str "main.sql") 1; ownLocation (str "cols.sqi") 1] /\
    Forall (startsAtPhysicalLine splitStatementScenario) statements.
Proof.
  eexists. split; [vm_compute; reflexivity|]. split; [reflexivity|].
  refine (statements_start_at_a_physical_line splitStatementScenario 2 (str "main.sql") _ _).
  vm_compute. reflexivity.
Defined.

(* ===================================================================== *)
(** ** Further properties of the schema commands *)
(* ===================================================================== *)

Section SchemaCommands.

Lemma fieldsAux_word w : forall cur rest,
  noSpace w = true ->
  spaceOrEnd rest = true ->
  rev cur ++ w <> [] ->
  fieldsAux cur (w ++ rest) = (rev cur ++ w) :: Fields rest.
Proof.
  induction w as [|c w IH]; intros cur rest Hw Hr Hne.
  - rewrite app_nil_r in *. cbn [app].
    destruct rest as [|d rest]; cbn [fieldsAux Fields].
    + destruct cur; [cbn in Hne; congruence | reflexivity].
    + cbn [spaceOrEnd] in Hr. rewrite Hr.
      destruct cur; [cbn in Hne; congruence | reflexivity].
  - cbn [noSpace forallb] in Hw. apply andb_true_iff in Hw. destruct Hw as [Hc Hw].
    apply negb_true_iff in Hc.
    cbn [app fieldsAux]. rewrite Hc.
    rewrite (IH (c :: cur) rest Hw Hr).
    + cbn [rev]. rewrite <- app_assoc. reflexivity.
    + cbn [rev]. rewrite <- app_assoc. cbn. intros H.
      apply app_eq_nil in H. destruct H as [_ H]. discriminate.
Qed.

Lemma Fields_word w rest :
  w <> [] -> noSpace w = true -> spaceOrEnd rest = true ->
  Fields (w ++ rest) = w :: Fields rest.
Proof.
  intros Hne Hw Hr. unfold Fields at 1.
  exact (fieldsAux_word w [] rest Hw Hr Hne).
Qed.

Lemma word_span s :
  exists w rest, s = w ++ rest /\ noSpace w = true /\ spaceOrEnd rest = true.
Proof.
  induction s as [|c s (w & rest & -> & Hw & Hr)].
  - exists [], []. auto.
  - destruct (isSpace c) eqn:Ec.
    + exists [], (c :: w ++ rest). cbn. auto.
    + exists (c :: w), rest. cbn. rewrite Ec. cbn. auto.
Qed.

Lemma schemaCommand_word cmd :
  In cmd schema.schemaCommands -> cmd <> [] /\ noSpace cmd = true.
Proof.
  unfold schema.schemaCommands. cbn [In].
  intros [<-|[<-|[<-|[<-|[<-|[<-|[]]]]]]]; split; (discriminate || reflexivity).
Qed.

Lemma schemaCommand_known cmd :
  In cmd schema.schemaCommands ->
  exists h, Introspector.ProcessSchemaCommand cmd = Some h.
Proof.
  unfold schema.schemaCommands. cbn [In].
  intros [<-|[<-|[<-|[<-|[<-|[<-|[]]]]]]]; eexists; reflexivity.
Qed.

Lemma schemaCommand_recognised cmd line rest :
  In cmd schema.schemaCommands ->
  TrimSpace line = cmd ++ rest ->
  schema.IsSchemaCommand line = true.
Proof.
  intros Hin Ht. unfold schema.IsSchemaCommand. cbv zeta. rewrite Ht.
  apply existsb_exists. exists cmd. split; [exact Hin | apply HasPrefix_app].
Qed.

Lemma schemaCommand_extended cmd c w :
  In cmd schema.schemaCommands ->
  Introspector.ProcessSchemaCommand (cmd ++ c :: w) = None.
Proof.
  unfold schema.schemaCommands. cbn [In].
  assert (Hf : forall a b : gostring, a <> b -> gostring_eqb a b = false)
    by (intros a b H; unfold gostring_eqb; apply bool_decide_eq_false; exact H).
  unfold Introspector.ProcessSchemaCommand.
  intros [<-|[<-|[<-|[<-|[<-|[<-|[]]]]]]];
    repeat (rewrite Hf by (intros H; vm_compute in H; discriminate H));
    reflexivity.
Qed.

End SchemaCommands.

(** X22: a command word followed by white space or by nothing is parsed
    as that command.  For a line that, trimmed, is one of the six
    command words followed by nothing or by text starting with white
    space, IsSchemaCommand holds, ParseSchemaCommand returns the word as
    the command and the next field, stripped of quotes, as the filter,
    and the switch of ProcessSchemaCommand has a case for the command. *)
Theorem schema_command_word_is_parsed :
  forall cmd line rest,
    In cmd schema.schemaCommands ->
    TrimSpace line = cmd ++ rest ->
    spaceOrEnd rest = true ->
    schema.IsSchemaCommand line = true /\
    schema.ParseSchemaCommand line = (cmd, firstFilter rest) /\
    exists h, Introspector.ProcessSchemaCommand cmd = Some h.
Proof.
  intros cmd line rest Hin Ht Hr.
  split; [exact (schemaCommand_recognised cmd line rest Hin Ht)|].
  split; [|exact (schemaCommand_known cmd Hin)].
  destruct (schemaCommand_word cmd Hin) as [Hne Hw].
  unfold schema.ParseSchemaCommand, firstFilter. cbv zeta.
  rewrite Ht, (Fields_word cmd rest Hne Hw Hr).
  destruct (Fields rest); reflexivity.
Qed.

Lemma schema_command_word_is_parsed_witness :
  In (str "@schema-tables") schema.schemaCommands /\
  schema.IsSchemaCommand (str "  @schema-tables 'user' extra ") = true /\
  schema.ParseSchemaCommand (str "  @schema-tables 'user' extra ")
  = (str "@schema-tables", str "user").
Proof.
  assert (Hin : In (str "@schema-tables") schema.schemaCommands)
    by (right; left; reflexivity).
  split; [exact Hin|].
  destruct (schema_command_word_is_parsed (str "@schema-tables")
              (str "  @schema-tables 'user' extra ") (str " 'user' extra")
              Hin eq_refl eq_refl) as (H1 & H2 & _).
  split; [exact H1 | exact H2].
Defined.

(** X23: recognition is by prefix, dispatch by equality.  A line that,
    trimmed, starts with a command word directly followed by a rune that
    is not white space is still taken as a schema command by
    IsSchemaCommand, but the command ParseSchemaCommand returns for it
    is none of the cases of ProcessSchemaCommand: it ends in the error
    [unknown schema command]. *)
Theorem schema_command_with_suffix_is_unknown :
  forall cmd line c rest,
    In cmd schema.schemaCommands ->
    TrimSpace line = cmd ++ c :: rest ->
    isSpace c = false ->
    schema.IsSchemaCommand line = true /\
    Introspector.ProcessSchemaCommand (fst (schema.ParseSchemaCommand line)) = None.
Proof.
  intros cmd line c rest Hin Ht Hc.
  split; [exact (schemaCommand_recognised cmd line (c :: rest) Hin Ht)|].
  destruct (schemaCommand_word cmd Hin) as [Hne Hw].
  destruct (word_span rest) as (w & rest' & -> & Hw' & Hr').
  unfold schema.ParseSchemaCommand. cbv zeta. rewrite Ht.
  replace (cmd ++ c :: w ++ rest') with ((cmd ++ c :: w) ++ rest')
    by (rewrite <- app_assoc; reflexivity).
  rewrite Fields_word.
  - cbn [fst]. exact (schemaCommand_extended cmd c w Hin).
  - intros H. apply app_eq_nil in H. destruct H as [_ H]. discriminate.
  - unfold noSpace in *. rewrite forallb_app. cbn [forallb]. rewrite Hw, Hc, Hw'. reflexivity.
  - exact Hr'.
Qed.

Lemma schema_command_with_suffix_is_unknown_witness :
  schema.IsSchemaCommand (str "@drivers-all") = true /\
  Introspector.ProcessSchemaCommand (fst (schema.ParseSchemaCommand (str "@drivers-all")))
  = None.
Proof.
  apply (schema_command_with_suffix_is_unknown (str "@drivers") (str "@drivers-all")
           45 (str "all")).
  - do 5 right. left. reflexivity.
  - reflexivity.
  - reflexivity.
Defined.

(* ===================================================================== *)
(** ** Further properties of the input read from standard input *)
(* ===================================================================== *)

Section StdinText.

Lemma splitOn_line line : forall cur rest,
  noLineFeed line = true ->
  GoText.splitOn 10 cur (line ++ 10 :: rest) = (rev cur ++ line) :: GoText.splitOn 10 [] rest.
Proof.
  induction line as [|c line IH]; intros cur rest H.
  - cbn. rewrite app_nil_r. reflexivity.
  - cbn [noLineFeed forallb] in H. apply andb_true_iff in H. destruct H as [Hc H].
    apply negb_true_iff in Hc. cbn [app GoText.splitOn]. rewrite Hc.
    rewrite (IH (c :: cur) rest H). cbn [rev]. rewrite <- app_assoc. reflexivity.
Qed.

Lemma Fields_nonempty s :
  s <> [] -> trimLeft s = s -> Fields s <> [].
Proof.
  intros Hne Ht. destruct s as [|c s]; [congruence|].
  pose proof (trimLeft_head _ _ _ Ht) as Hc.
  destruct (word_span s) as (w & rest & -> & Hw & Hr).
  change (c :: w ++ rest) with ((c :: w) ++ rest).
  rewrite Fields_word; [discriminate | discriminate | | exact Hr].
  unfold noSpace in *. cbn [forallb]. rewrite Hc, Hw. reflexivity.
Qed.

Lemma trimLeft_TrimSpace s : trimLeft (TrimSpace s) = TrimSpace s.
Proof. unfold TrimSpace. apply trimLeft_trimRight, trimLeft_idem. Qed.

End StdinText.

(** X24: the text built from the lines of standard input splits back into
    these lines.  handleStdinWithOptionalConnection writes every line it
    scans followed by a line feed; splitting that text at the line feeds,
    as RequiresDatabaseConnection and processConnectionlessInput do,
    gives the scanned lines again, followed by one empty line. *)
Theorem stdin_text_splits_into_its_lines :
  forall lines,
    Forall (fun line => noLineFeed line = true) lines ->
    GoText.Split (cmd.stdinText lines) 10 = lines ++ [[]].
Proof.
  intros lines H. unfold GoText.Split, cmd.stdinText.
  induction H as [|line lines Hl _ IH]; [reflexivity|].
  cbn [map concat]. rewrite <- app_assoc. cbn [app].
  rewrite (splitOn_line line [] _ Hl), IH. reflexivity.
Qed.

Lemma stdin_text_splits_into_its_lines_witness :
  Forall (fun line => noLineFeed line = true) [str "-- list"; str "@drivers"] /\
  GoText.Split (cmd.stdinText [str "-- list"; str "@drivers"]) 10
  = [str "-- list"; str "@drivers"] ++ [[]].
Proof.
  assert (H : Forall (fun line => noLineFeed line = true) [str "-- list"; str "@drivers"])
    by (repeat constructor).
  split; [exact H|].
  exact (stdin_text_splits_into_its_lines _ H).
Defined.

Section ConnectionlessInput.

Variable world : file.Collaborators.

Lemma connectionlessLoop_safe lines : forall trace,
  snd (cmd.connectionlessLoop world lines trace) <> cmd.IndexOutOfRange.
Proof.
  induction lines as [|line lines IH]; intros trace; cbn [cmd.connectionlessLoop].
  - discriminate.
  - cbv zeta.
    destruct (gostring_eqb (TrimSpace line) []) eqn:Ee; cbn [orb]; [apply IH|].
    destruct (HasPrefix (TrimSpace line) (str "--")); [apply IH|].
    destruct (HasPrefix (TrimSpace line) (str "@")); [|discriminate].
    destruct (Fields (TrimSpace line)) as [|command more] eqn:Ef.
    + exfalso. revert Ef. apply Fields_nonempty; [|apply trimLeft_TrimSpace].
      intros H. rewrite H in Ee. discriminate.
    + destruct (file.schemaCommandFails world _); [discriminate | apply IH].
Qed.

Lemma connectionlessLoop_drivers lines : forall trace,
  config.requiresLoop lines = false ->
  Forall isDriversCall trace ->
  Forall isDriversCall (fst (cmd.connectionlessLoop world lines trace)) /\
  forall l, snd (cmd.connectionlessLoop world lines trace)
            <> cmd.Failed (cmd.ErrRequiresConnection l).
Proof.
  induction lines as [|line lines IH]; intros trace Hreq Htr;
    cbn [cmd.connectionlessLoop config.requiresLoop] in *.
  - split; [exact Htr | discriminate].
  - cbv zeta in *.
    destruct (gostring_eqb (TrimSpace line) [] || HasPrefix (TrimSpace line) (str "--"));
      [exact (IH trace Hreq Htr)|].
    unfold config.connectionlessCommands in Hreq. cbn [existsb] in Hreq.
    rewrite orb_false_r in Hreq.
    destruct (HasPrefix (TrimSpace line) (str "@drivers")) eqn:Ed; [|discriminate].
    cbn [negb] in Hreq.
    apply HasPrefix_spec in Ed. destruct Ed as [rest Ed]. rewrite Ed.
    change (HasPrefix (str "@drivers" ++ rest) (str "@")) with true. cbv iota.
    destruct (word_span rest) as (w & rest' & -> & Hw & Hr).
    replace (str "@drivers" ++ w ++ rest') with ((str "@drivers" ++ w) ++ rest')
      by (rewrite <- app_assoc; reflexivity).
    rewrite Fields_word; [| | |exact Hr].
    + assert (Hcall : forall f, Forall isDriversCall
                (file.CallProcessSchemaCommand (str "@drivers" ++ w) f :: trace)).
      { intros f. constructor; [|exact Htr]. cbn [isDriversCall]. apply HasPrefix_app. }
      destruct (file.schemaCommandFails world _).
      * split; [apply Hcall | discriminate].
      * apply IH; [exact Hreq | apply Hcall].
    + destruct w; discriminate.
    + unfold noSpace in *. rewrite forallb_app, Hw. reflexivity.
Qed.

End ConnectionlessInput.

(** X25: processConnectionlessInput never indexes out of range.  The
    expression parts[0] is evaluated only for a trimmed line that starts
    with [@], which has at least one field. *)
Theorem connectionless_input_never_panics :
  forall world inputText,
    snd (cmd.processConnectionlessInput world inputText) <> cmd.IndexOutOfRange.
Proof.
  intros world inputText. apply connectionlessLoop_safe.
Qed.

(** X26: input that RequiresDatabaseConnection lets through is accepted
    line by line.  When RequiresDatabaseConnection returns false for an
    input, processConnectionlessInput never fails on it with
    [command requires database connection], and every command it passes
    to ProcessSchemaCommand starts with @drivers. *)
Theorem connectionless_input_is_made_of_drivers_commands :
  forall world inputText,
    config.RequiresDatabaseConnection inputText = false ->
    Forall isDriversCall (fst (cmd.processConnectionlessInput world inputText)) /\
    forall l, snd (cmd.processConnectionlessInput world inputText)
              <> cmd.Failed (cmd.ErrRequiresConnection l).
Proof.
  intros world inputText H.
  apply connectionlessLoop_drivers; [exact H | constructor].
Qed.

Lemma connectionless_input_is_made_of_drivers_commands_witness :
  config.RequiresDatabaseConnection (cmd.stdinText [str "-- list"; str " @drivers my"])
  = false /\
  Forall isDriversCall
    (fst (cmd.processConnectionlessInput quietWorld
            (cmd.stdinText [str "-- list"; str " @drivers my"]))).
Proof.
  assert (H : config.RequiresDatabaseConnection
                (cmd.stdinText [str "-- list"; str " @drivers my"]) = false)
    by reflexivity.
  split; [exact H|].
  exact (proj1 (connectionless_input_is_made_of_drivers_commands quietWorld _ H)).
Defined.
